(** * The chat endpoint of the Purview sample: model and properties

    A shallow embedding of [packages/api/src/functions/chats-post.ts]:
    the handler [postChats], its helpers ([getPurviewAccessTokens],
    [getAccessTokensthroughMSAL], [processProtectionScopeApiResponse],
    [collectStream], [createJsonStreamForBlock]) and the two process-wide
    maps it mutates.

    Conventions of the embedding.
    - A JavaScript string is a [string]; one [ascii] stands for one UTF-16
      code unit below 256 (Basic Latin and Latin-1 Supplement).
    - A JavaScript value of unknown shape ([any], parsed JSON) is a [jsval].
    - An awaited call of a collaborator (MSAL, the Purview wrapper, the
      retriever, the model, the history store) is a field of [Env]; it
      either returns or throws ([outcome]).  The handler records every
      such call, in order, in a trace of [Event]s.
    - The handler runs in the monad [M]: a world (the two maps and the
      trace) is threaded through, and a computation ends with a value, a
      thrown error, or a [return] of the enclosing function.
    - Logging ([context.log], [context.error]) is left out. *)

From Stdlib Require Import Ascii String.
From stdpp Require Import base option list strings gmap.

Set Warnings "-register-all".

(** ** Characters and strings *)

Module Js.

Definition code (c : ascii) : nat := nat_of_ascii c.

Definition dquote : ascii := ascii_of_nat 34.
Definition backslash : ascii := ascii_of_nat 92.
Definition newline : ascii := ascii_of_nat 10.
Definition dollar : ascii := ascii_of_nat 36.

(** [s === ""] *)
Definition is_empty (s : string) : bool :=
  match s with EmptyString => true | String _ _ => false end.

(** White space and line terminators of ECMAScript among the code units
    below 256: TAB, LF, VT, FF, CR, SP and NBSP. *)
Definition is_white (c : ascii) : bool :=
  let n := code c in
  ((9 <=? n) && (n <=? 13)) || (n =? 32) || (n =? 160).

Fixpoint trimStart (s : string) : string :=
  match s with
  | EmptyString => EmptyString
  | String c s' => if is_white c then trimStart s' else s
  end.

Fixpoint trimEnd (s : string) : string :=
  match s with
  | EmptyString => EmptyString
  | String c s' =>
      let r := trimEnd s' in
      if is_white c && is_empty r then EmptyString else String c r
  end.

(** [String.prototype.trim] *)
Definition trim (s : string) : string := trimEnd (trimStart s).

(** [String.prototype.split] with a separator of one code unit. *)
Fixpoint split (sep : ascii) (s : string) : list string :=
  match s with
  | EmptyString => [EmptyString]
  | String c s' =>
      if Ascii.eqb c sep then EmptyString :: split sep s'
      else match split sep s' with
           | h :: t => String c h :: t
           | [] => [String c EmptyString]
           end
  end.

(** [String.prototype.startsWith] *)
Definition startsWith (s p : string) : bool := String.prefix p s.

(** [String.prototype.includes] *)
Fixpoint includes (s p : string) : bool :=
  String.prefix p s ||
  match s with
  | EmptyString => false
  | String _ s' => includes s' p
  end.

(** [String.prototype.toLowerCase] on code units below 256: A-Z, and the
    Latin-1 capitals U+00C0-U+00DE without the multiplication sign. *)
Definition lower_char (c : ascii) : ascii :=
  let n := code c in
  if ((65 <=? n) && (n <=? 90))
     || ((192 <=? n) && (n <=? 222) && negb (n =? 215))
  then ascii_of_nat (n + 32) else c.

Fixpoint toLowerCase (s : string) : string :=
  match s with
  | EmptyString => EmptyString
  | String c s' => String (lower_char c) (toLowerCase s')
  end.

Fixpoint drop (n : nat) (s : string) : string :=
  match n, s with
  | O, _ => s
  | S n', String _ s' => drop n' s'
  | S _, EmptyString => EmptyString
  end.

End Js.

(** ** JavaScript values *)

(** A number is kept as an integer: the handler only tests numbers for
    truthiness and compares them with strings. *)
Inductive jsval : Type :=
| JUndefined
| JNull
| JBool (b : bool)
| JNum (n : Z)
| JStr (s : string)
| JArr (items : list jsval)
| JObj (fields : list (string * jsval)).

Fixpoint assoc (k : string) (fields : list (string * jsval)) : jsval :=
  match fields with
  | [] => JUndefined
  | (k', v) :: rest => if String.eqb k k' then v else assoc k rest
  end.

(** [v.k] for the property names the handler reads ([value], [activities],
    [executionMode], [locations], [policyActions], [action],
    [protectionScopeState], [rights]): none of them is an own property of
    an array, a string, a number or a boolean.  [None] is the [TypeError]
    of reading a property of [null] or [undefined]. *)
Definition prop (v : jsval) (k : string) : option jsval :=
  match v with
  | JUndefined | JNull => None
  | JObj fields => Some (assoc k fields)
  | _ => Some JUndefined
  end.

(** [v?.k] *)
Definition opt_prop (v : jsval) (k : string) : jsval :=
  default JUndefined (prop v k).

(** [v?.[0]] *)
Definition opt_first (v : jsval) : jsval :=
  match v with
  | JArr items => nth 0 items JUndefined
  | JStr (String c _) => JStr (String c EmptyString)
  | JObj fields => assoc "0" fields
  | _ => JUndefined
  end.

(** [ToBoolean] *)
Definition truthy (v : jsval) : bool :=
  match v with
  | JUndefined | JNull => false
  | JBool b => b
  | JNum n => negb (n =? 0)%Z
  | JStr s => negb (Js.is_empty s)
  | JArr _ | JObj _ => true
  end.

(** [v || d] *)
Definition or_else (v d : jsval) : jsval := if truthy v then v else d.

(** [v === s] for a string [s] *)
Definition is_str (v : jsval) (s : string) : bool :=
  match v with JStr s' => String.eqb s' s | _ => false end.

(** [v === process.env.X] *)
Definition is_env (v : jsval) (o : option string) : bool :=
  match v, o with
  | JStr s', Some s => String.eqb s' s
  | JUndefined, None => true
  | _, _ => false
  end.

(** ** Results of calls *)

Inductive outcome (A : Type) : Type :=
| Returned (a : A)
| Threw (message : string).
Arguments Returned {A} a.
Arguments Threw {A} message.

(** ** [processProtectionScopeApiResponse] *)

(** [activitiesList] of one entry (source lines 162-175). *)
Definition activitiesList (entry : jsval) : list string :=
  match opt_prop entry "activities" with
  | JStr wholeAcctivities => map Js.trim (Js.split ","%char wholeAcctivities)
  | _ => []
  end.

(** The scan of [entry.locations] (source lines 184-190). *)
Definition location_matches (appId : option string) (entry : jsval) : bool :=
  match opt_prop entry "locations" with
  | JArr locations =>
      existsb (fun location => is_env (opt_prop location "value") appId) locations
  | _ => false
  end.

(** The body of the inner loop, for one activity of one entry. *)
Definition visit_activity (appId : option string) (entry : jsval)
    (acc : gmap string jsval * bool) (activity : string)
  : gmap string jsval * bool :=
  let executionModeValue := opt_prop entry "executionMode" in
  if negb (bool_decide (is_Some (acc.1 !! activity)))
     || is_str executionModeValue "evaluateInline"
  then (<[activity := executionModeValue]> acc.1,
        acc.2 || location_matches appId entry)
  else acc.

(** The body of the outer loop.  An entry that is [null] makes
    [entry.activities] throw. *)
Definition visit_entry (appId : option string)
    (acc : gmap string jsval * bool) (entry : jsval)
  : outcome (gmap string jsval * bool) :=
  match prop entry "activities" with
  | None => Threw "TypeError: cannot read properties of null"
  | Some _ => Returned (fold_left (visit_activity appId entry) (activitiesList entry) acc)
  end.

Fixpoint visit_entries (appId : option string)
    (acc : gmap string jsval * bool) (entries : list jsval)
  : outcome (gmap string jsval * bool) :=
  match entries with
  | [] => Returned acc
  | entry :: rest =>
      match visit_entry appId acc entry with
      | Returned acc' => visit_entries appId acc' rest
      | Threw e => Threw e
      end
  end.

(** What [for (const entry of apiResponse.value)] iterates over: the
    items of an array, the characters of a string; anything else is not
    iterable. *)
Fixpoint chars (s : string) : list jsval :=
  match s with
  | EmptyString => []
  | String c s' => JStr (String c EmptyString) :: chars s'
  end.

Definition iterate (v : option jsval) : outcome (list jsval) :=
  match v with
  | Some (JArr items) => Returned items
  | Some (JStr s) => Returned (chars s)
  | Some _ => Threw "TypeError: apiResponse.value is not iterable"
  | None => Threw "TypeError: cannot read properties of undefined"
  end.

Record ScopeModes : Type := {
  activityExecutionMap : gmap string jsval;
  uploadTextExecutionMode : jsval;
  downloadTextExecutionMode : jsval;
}.

(** [map.get(k) || 'default'] *)
Definition mode_of (m : gmap string jsval) (k : string) : jsval :=
  or_else (default JUndefined (m !! k)) (JStr "default").

Definition processProtectionScopeApiResponse
    (appId : option string) (apiResponse : jsval) : outcome ScopeModes :=
  match iterate (prop apiResponse "value") with
  | Threw e => Threw e
  | Returned entries =>
      match visit_entries appId (∅, false) entries with
      | Threw e => Threw e
      | Returned (m, isValidAppId) =>
          Returned {| activityExecutionMap := m;
                      uploadTextExecutionMode := mode_of m "uploadText";
                      downloadTextExecutionMode := mode_of m "downloadText" |}
      end
  end.

(** ** [JSON.stringify] of a chat delta *)

Module Json.

Definition hex_digit (n : nat) : ascii :=
  if n <? 10 then ascii_of_nat (48 + n) else ascii_of_nat (87 + n).

(** [QuoteJSONString], one code unit: the two-character escapes, then
    [\u00xx] for the other control characters. *)
Definition escape (c : ascii) : string :=
  let n := Js.code c in
  if n =? 8 then "\b"
  else if n =? 9 then "\t"
  else if n =? 10 then "\n"
  else if n =? 12 then "\f"
  else if n =? 13 then "\r"
  else if n =? 34 then String Js.backslash (String Js.dquote EmptyString)
  else if n =? 92 then String Js.backslash (String Js.backslash EmptyString)
  else if n <? 32 then
    "\u00" +:+ String (hex_digit (n / 16)) (String (hex_digit (n mod 16)) EmptyString)
  else String c EmptyString.

Fixpoint escape_all (s : string) : string :=
  match s with
  | EmptyString => EmptyString
  | String c s' => escape c +:+ escape_all s'
  end.

(** [JSON.stringify(s)] for a string [s] *)
Definition quote (s : string) : string :=
  String Js.dquote (escape_all s +:+ String Js.dquote EmptyString).

(** [JSON.stringify({delta: {content, role: 'assistant'}, context: {sessionId}})] *)
Definition stringify_delta (content sessionId : string) : string :=
  "{" +:+ quote "delta" +:+ ":{" +:+ quote "content" +:+ ":" +:+ quote content
  +:+ "," +:+ quote "role" +:+ ":" +:+ quote "assistant" +:+ "},"
  +:+ quote "context" +:+ ":{" +:+ quote "sessionId" +:+ ":" +:+ quote sessionId
  +:+ "}}".

End Json.

(** One NDJSON chunk: [JSON.stringify(chunk) + '\n'] *)
Definition ndjson_line (content sessionId : string) : string :=
  Json.stringify_delta content sessionId +:+ String Js.newline EmptyString.

(** [createJsonStreamForBlock]: the chunks the generator yields. *)
Definition createJsonStreamForBlock (sessionId message : string) : list string :=
  [ndjson_line message sessionId].

(** [collectStream] *)
Definition collectStream (stream : list string) : string :=
  fold_left String.append stream EmptyString.

(** ** [String.prototype.replaceAll] with a string pattern *)

Module Replace.

(** [GetSubstitution] without captures: [$$], [$&], [$`] and [$'] are
    expanded, any other [$] stays. *)
Fixpoint getSubstitution (matched before after template : string) : string :=
  match template with
  | EmptyString => EmptyString
  | String c t =>
      if Ascii.eqb c Js.dollar then
        match t with
        | EmptyString => String c EmptyString
        | String d t' =>
            if Ascii.eqb d Js.dollar then String d (getSubstitution matched before after t')
            else if Ascii.eqb d "&"%char then matched +:+ getSubstitution matched before after t'
            else if Ascii.eqb d "`"%char then before +:+ getSubstitution matched before after t'
            else if Ascii.eqb d "'"%char then after +:+ getSubstitution matched before after t'
            else String c (getSubstitution matched before after t)
        end
      else String c (getSubstitution matched before after t)
  end.

(** The scan over the subject: [before] is the part already passed,
    [skip] the number of code units of the current match still to pass.
    Matches are taken left to right and do not overlap; the empty pattern
    matches before every code unit and at the end. *)
Fixpoint scan (pat rep before : string) (skip : nat) (s : string) : string :=
  match s with
  | EmptyString =>
      if Js.is_empty pat then getSubstitution pat before EmptyString rep
      else EmptyString
  | String c s' =>
      let before' := before +:+ String c EmptyString in
      match skip with
      | S k => scan pat rep before' k s'
      | O =>
          if String.prefix pat s then
            getSubstitution pat before (Js.drop (String.length pat) s) rep
            +:+ (if Js.is_empty pat then String c (scan pat rep before' 0 s')
                 else scan pat rep before' (String.length pat - 1) s')
          else String c (scan pat rep before' 0 s')
      end
  end.

Definition replaceAll (s pat rep : string) : string :=
  scan pat rep EmptyString 0 s.

End Replace.

(** ** Retrieved documents *)

(** [metadata.source], [metadata.label_metadata.label_id] and
    [metadata.label_metadata.label_name] are strings when present. *)
Record Document : Type := {
  pageContent : string;
  source : option string;
  label_id : option string;
  label_name : option string;
}.

#[global] Instance Document_eq_dec : EqDecision Document.
Proof. solve_decision. Defined.

(** A string or [undefined] inside a template literal. *)
Definition interpolate (o : option string) : string :=
  match o with Some s => s | None => "undefined" end.

(** [o || d] for a string or [undefined] *)
Definition str_or (o : option string) (d : string) : string :=
  match o with
  | Some s => if Js.is_empty s then d else s
  | None => d
  end.

(** [!o] *)
Definition falsy (o : option string) : bool :=
  match o with Some s => Js.is_empty s | None => true end.

(** *** The citation rewrite (source lines 452-460) *)

Definition bare_reference (document : Document) : string :=
  "[" +:+ interpolate (source document) +:+ "]".

Definition formattedReference (document : Document) : string :=
  "[" +:+ interpolate (source document) +:+ " (Label: "
  +:+ str_or (label_name document) "Unknown" +:+ ")]".

Definition rewrite_step (processedLlmResponse : string) (document : Document) : string :=
  Replace.replaceAll processedLlmResponse (bare_reference document)
    (formattedReference document).

Definition rewriteCitations (retrievedDocuments : list Document) (llmResponse : string) : string :=
  fold_left rewrite_step retrievedDocuments llmResponse.

(** *** The label filter (source lines 398-436) *)

(** [labelInfo?.value?.[0]?.rights?.value], lower-cased when it is a
    string, the empty string otherwise. *)
Definition rightsValue (labelInfo : jsval) : string :=
  match opt_prop (opt_prop (opt_first (opt_prop labelInfo "value")) "rights") "value" with
  | JStr rightsValueRaw => Js.toLowerCase rightsValueRaw
  | _ => EmptyString
  end.

(** [(process.env.PURVIEW_ACCEPTED_ACCESS_RIGHTS ?? 'default').toLowerCase()] *)
Definition acceptedAccessRight (configured : option string) : string :=
  Js.toLowerCase (default "default" configured).

(** One label task: [Some document] for a kept document, [None] for
    [null].  [lookup] is [getLabelInfo] with the tokens applied. *)
Definition labelTask (accepted : string) (lookup : string -> outcome jsval)
    (document : Document) : option Document :=
  if falsy (label_id document) then None
  else
    match lookup (interpolate (label_id document)) with
    | Returned labelInfo =>
        if Js.includes accepted (rightsValue labelInfo) then Some document else None
    | Threw _ => None
    end.

(** [labelResults.filter(d => d !== null)] *)
Definition filteredDocuments (accepted : string) (lookup : string -> outcome jsval)
    (retrievedDocuments : list Document) : list Document :=
  omap (labelTask accepted lookup) retrievedDocuments.

(** ** Requests, responses and the collaborators *)

Record Message : Type := {
  role : string;
  content : option string;
}.

(** The parsed body, for a body of the declared type
    [AIChatCompletionRequest]: [messages] is an array of messages when
    present.  What the handler does with any other JSON value is in
    [Raw.intake]. *)
Record RequestBody : Type := {
  messages : option (list Message);
  sessionId : option string;        (* [context?.sessionId] *)
}.

(** What the handler reads of the request: [request.json()],
    [request.headers.get('Authorization')], and the result of
    [getUserId(request, requestBody)]. *)
Record Request : Type := {
  json : outcome RequestBody;
  authorization : option string;
  userId : option string;
}.

(** The response builders of [http-response.js]. *)
Inductive Response : Type :=
| badRequest (message : string)
| serviceUnavailable (message : string)
| data (body : list string) (headers : list (string * string)).

(** Modelled from the spec: [http-response.js] is absent from the sources;
    the error responses are 400 for malformed or missing required fields
    and 503 for an unhandled internal failure, and a stream is sent with
    200. *)
Definition status (r : Response) : nat :=
  match r with
  | badRequest _ => 400
  | serviceUnavailable _ => 503
  | data _ _ => 200
  end.

(** MSAL's [AuthenticationResult], as far as it is read. *)
Record AuthenticationResult : Type := {
  accessToken : string;
  tenantId : string;
  username : option string;          (* [account?.username] *)
}.

Record PurviewTokens : Type := {
  oboToken : string;
  userName : string;
  appToken : string;
}.

(** The arguments of [constructProcessContentRequestBody]. *)
Record ProcessContentRequest : Type := {
  pc_text : string;
  pc_appName : string;
  pc_sequence : nat;
  pc_sessionId : string;
  pc_activity : string;
  pc_appId : string;
}.

Definition constructProcessContentRequestBody
    (text appName : string) (sequence : nat) (sessionId activity appId : string)
  : ProcessContentRequest :=
  {| pc_text := text; pc_appName := appName; pc_sequence := sequence;
     pc_sessionId := sessionId; pc_activity := activity; pc_appId := appId |}.

(** The arguments of [enqueueOfflinePurviewTasksAsync] that vary. *)
Record OfflineTask : Type := {
  off_accessToken : string;
  off_etag : string;
  off_uploadMode : jsval;
  off_downloadMode : jsval;
  off_question : string;
  off_response : string;
  off_sessionId : string;
  off_sequence : nat;
}.

(** The environment of one request: configuration, and what each
    collaborator answers. *)
Record Env : Type := {
  uuidv4 : string;
  AZURE_AD_API_ID : option string;
  AZURE_AD_GRAPH_SCOPE : option string;
  PURVIEW_ACCEPTED_ACCESS_RIGHTS : option string;
  acquireTokenOnBehalfOf : string -> list string -> outcome (option AuthenticationResult);
  acquireTokenByClientCredential : list string -> string -> outcome (option AuthenticationResult);
  invokeProtectionScopeApi : string -> outcome (jsval * option string);
  invokeProcessContentApi : string -> string -> ProcessContentRequest -> outcome string;
  JSON_parse : string -> outcome jsval;
  (* models, vector store, history and chain are set up (lines 337-390) *)
  initialise_backend : outcome unit;
  retriever_invoke : string -> outcome (list Document);
  getLabelInfo : string -> string -> string -> outcome jsval;
  (* [ragChainWithHistory.stream], drained *)
  ragChain_stream : string -> list Document -> string -> outcome (list string);
  (* [title] of [chatHistory.getContext()] *)
  chatHistory_getContext : outcome (option string);
  titleModel_invoke : string -> outcome string;
  enqueueOfflinePurviewTasksAsync : OfflineTask -> outcome string;
}.

(** The calls that leave the process, as the handler issues them. *)
Inductive Event : Type :=
| EvAcquireTokenOnBehalfOf (oboAssertion : string) (scopes : list string)
| EvAcquireTokenByClientCredential (scopes : list string) (authority : string)
| EvProtectionScope (accessToken : string)
| EvProcessContent (accessToken etag : string) (body : ProcessContentRequest)
| EvRetrieve (question : string)
| EvGetLabelInfo (appToken userName labelId : string)
| EvAnswerModel (question : string) (context : list Document) (sessionId : string)
| EvGetHistoryContext
| EvTitleModel (question : string)
| EvSetHistoryTitle (title : string)
| EvEnqueueOffline (task : OfflineTask).

Definition is_identity_call (e : Event) : bool :=
  match e with
  | EvAcquireTokenOnBehalfOf _ _ | EvAcquireTokenByClientCredential _ _ => true
  | _ => false
  end.

Definition is_scope_call (e : Event) : bool :=
  match e with EvProtectionScope _ => true | _ => false end.

Definition is_evaluation_call (e : Event) : bool :=
  match e with EvProcessContent _ _ _ => true | _ => false end.

Definition is_retrieval_call (e : Event) : bool :=
  match e with EvRetrieve _ | EvGetLabelInfo _ _ _ => true | _ => false end.

Definition is_model_call (e : Event) : bool :=
  match e with EvAnswerModel _ _ _ | EvTitleModel _ => true | _ => false end.

Definition is_title_call (e : Event) : bool :=
  match e with EvTitleModel _ | EvSetHistoryTitle _ => true | _ => false end.

Definition is_offline_call (e : Event) : bool :=
  match e with EvEnqueueOffline _ => true | _ => false end.

(** ** The process-wide maps *)

Module Cache.
Record entry : Type := {
  etag : string;
  activityExecutionMap : gmap string jsval;
}.
End Cache.

Record Store : Type := {
  sessionSequenceMap : gmap string nat;
  sessionProtectionDataMap : gmap string Cache.entry;
}.

Definition empty_store : Store :=
  {| sessionSequenceMap := ∅; sessionProtectionDataMap := ∅ |}.

Record World : Type := {
  store : Store;
  trace : list Event;
}.

(** ** The monad of the handler *)

Inductive res (A : Type) : Type :=
| Val (a : A)
| Thrown (message : string)
| Ret (r : Response).
Arguments Val {A} a.
Arguments Thrown {A} message.
Arguments Ret {A} r.

Definition M (A : Type) : Type := World -> res A * World.

#[global] Instance M_ret : MRet M := λ A a w, (Val a, w).

#[global] Instance M_bind : MBind M := λ A B f m w,
  match m w with
  | (Val a, w') => f a w'
  | (Thrown e, w') => (Thrown e, w')
  | (Ret r, w') => (Ret r, w')
  end.

(** [throw new Error(message)] *)
Definition throw {A} (message : string) : M A := λ w, (Thrown message, w).

(** [return r] out of the handler *)
Definition return_ {A} (r : Response) : M A := λ w, (Ret r, w).

(** The result of an awaited call. *)
Definition await {A} (o : outcome A) : M A :=
  match o with
  | Returned a => mret a
  | Threw e => throw e
  end.

Definition emits (es : list Event) : M unit :=
  λ w, (Val (), {| store := store w; trace := trace w ++ es |}).

(** A call of a collaborator: recorded, then awaited. *)
Definition call {A} (e : Event) (o : outcome A) : M A :=
  emits [e];; await o.

(** [sessionSequenceMap.get(sessionId) || 0] *)
Definition getSequence (sessionId : string) : M nat :=
  λ w, (Val (default 0 (sessionSequenceMap (store w) !! sessionId)), w).

(** [sessionSequenceMap.set(sessionId, n)] *)
Definition setSequence (sessionId : string) (n : nat) : M unit :=
  λ w, (Val (),
        {| store := {| sessionSequenceMap := <[sessionId := n]> (sessionSequenceMap (store w));
                       sessionProtectionDataMap := sessionProtectionDataMap (store w) |};
           trace := trace w |}).

(** [sessionProtectionDataMap.get(userId)] *)
Definition getProtectionData (userId : string) : M (option Cache.entry) :=
  λ w, (Val (sessionProtectionDataMap (store w) !! userId), w).

(** [sessionProtectionDataMap.set(userId, d)] *)
Definition setProtectionData (userId : string) (d : Cache.entry) : M unit :=
  λ w, (Val (),
        {| store := {| sessionSequenceMap := sessionSequenceMap (store w);
                       sessionProtectionDataMap :=
                         <[userId := d]> (sessionProtectionDataMap (store w)) |};
           trace := trace w |}).

(** ** Token acquisition *)

Definition graph_default_scope : string := "https://graph.microsoft.com/.default".

(** The per-call authority of the client-credential request. *)
Definition tenant_authority (response : AuthenticationResult) : string :=
  "https://login.microsoftonline.com/" +:+ tenantId response.

Definition getAccessTokensthroughMSAL (env : Env) (userToken : string) (scopes : list string)
  : M PurviewTokens :=
  response ← call (EvAcquireTokenOnBehalfOf userToken scopes)
                  (acquireTokenOnBehalfOf env userToken scopes);
  match response with
  | None => throw "Failed to acquire token using OBO flow"
  | Some response =>
      if Js.is_empty (accessToken response)
      then throw "Failed to acquire token using OBO flow"
      else
        let authority := tenant_authority response in
        appResult ← call (EvAcquireTokenByClientCredential [graph_default_scope] authority)
                         (acquireTokenByClientCredential env [graph_default_scope] authority);
        match appResult with
        | None => throw "Failed to acquire token using Client cred flow"
        | Some appResult =>
            if Js.is_empty (accessToken appResult)
            then throw "Failed to acquire token using Client cred flow"
            else mret {| oboToken := accessToken response;
                         userName := default EmptyString (username response);
                         appToken := accessToken appResult |}
        end
  end.

(** [!authorizationHeader?.startsWith('Bearer ')] *)
Definition bad_authorization (authorizationHeader : option string) : bool :=
  match authorizationHeader with
  | Some h => negb (Js.startsWith h "Bearer ")
  | None => true
  end.

(** [authorizationHeader.split(' ')[1]]: the item exists when the header
    starts with "Bearer ". *)
Definition bearer_token (request : Request) : string :=
  nth 1 (Js.split " "%char (default EmptyString (authorization request))) EmptyString.

(** [(process.env.AZURE_AD_GRAPH_SCOPE || '...').split(' ').map(trim)] *)
Definition downstreamApiScope (env : Env) : list string :=
  map Js.trim (Js.split " "%char (str_or (AZURE_AD_GRAPH_SCOPE env) graph_default_scope)).

Definition getPurviewAccessTokens (env : Env) (request : Request) : M PurviewTokens :=
  if bad_authorization (authorization request)
  then throw "Missing or invalid Authorization header"
  else getAccessTokensthroughMSAL env (bearer_token request) (downstreamApiScope env).

(** ** The handler *)

Definition block_message : string :=
  "This action has been blocked due to the security policies enforced by your organization.".

Definition ndjson_headers : list (string * string) :=
  [("Content-Type", "application/x-ndjson"); ("Transfer-Encoding", "chunked")].

(** [json?.policyActions?.[0]?.action || 'default'] *)
Definition actionMode (processContentJSONResponse : jsval) : jsval :=
  or_else (opt_prop (opt_first (opt_prop processContentJSONResponse "policyActions")) "action")
          (JStr "default").

(** [messages.at(-1)!.content] *)
Definition last_content (messages : option (list Message)) : M (option string) :=
  match messages with
  | None => throw "TypeError: cannot read properties of undefined (reading 'at')"
  | Some ms =>
      match last ms with
      | None => throw "TypeError: cannot read properties of undefined (reading 'content')"
      | Some m => mret (content m)
      end
  end.

(** [!messages || messages.length === 0 || !question || !userId || !sessionId] *)
Definition invalid_request (messages : option (list Message))
    (question userId : option string) (sessionId : string) : bool :=
  match messages with
  | None => true
  | Some ms => (length ms =? 0) || falsy question || falsy userId || Js.is_empty sessionId
  end.

(** The label lookups that the tasks start, in document order. *)
Definition label_calls (appToken userName : string) (retrievedDocuments : list Document)
  : list Event :=
  omap (fun document =>
          if falsy (label_id document) then None
          else Some (EvGetLabelInfo appToken userName (interpolate (label_id document))))
       retrievedDocuments.

(** [storedSessionData?.etag] is truthy *)
Definition has_etag (storedSessionData : option Cache.entry) : option Cache.entry :=
  match storedSessionData with
  | Some d => if Js.is_empty (Cache.etag d) then None else Some d
  | None => None
  end.

(** Source lines 238-273: the cached scope of the user, or a scope call
    whose result is stored. *)
Definition resolveProtectionScope (env : Env) (userId accessToken : string)
  : M (string * jsval * jsval) :=
  storedSessionData ← getProtectionData userId;
  match has_etag storedSessionData with
  | Some d =>
      mret (Cache.etag d,
            mode_of (Cache.activityExecutionMap d) "uploadText",
            mode_of (Cache.activityExecutionMap d) "downloadText")
  | None =>
      '(apiResponse, returnedEtag) ← call (EvProtectionScope accessToken)
                                          (invokeProtectionScopeApi env accessToken);
      let etagIdentifier := str_or returnedEtag "default" in
      modes ← await (processProtectionScopeApiResponse (AZURE_AD_API_ID env) apiResponse);
      setProtectionData userId
        {| Cache.etag := etagIdentifier;
           Cache.activityExecutionMap := activityExecutionMap modes |};;
      mret (etagIdentifier, uploadTextExecutionMode modes, downloadTextExecutionMode modes)
  end.

(** Source lines 275-329: inline evaluation of the prompt.  The result
    is [currentSequence] after the block. *)
Definition promptGating (env : Env) (question sessionId accessToken etagIdentifier : string)
    (uploadTextExecutionMode : jsval) (currentSequence : nat) : M nat :=
  if is_str uploadTextExecutionMode "evaluateInline" then
    let processContentRequestBody :=
      constructProcessContentRequestBody question "BuildDemo-P4AI" currentSequence
        sessionId "uploadText" (str_or (AZURE_AD_API_ID env) EmptyString) in
    processContentResponse ←
      call (EvProcessContent accessToken etagIdentifier processContentRequestBody)
           (invokeProcessContentApi env accessToken etagIdentifier processContentRequestBody);
    let currentSequence := currentSequence + 1 in
    processContentJSONResponse ← await (JSON_parse env processContentResponse);
    (* [protectionScopeState === 'modified'] is logged, the cache is kept *)
    if is_str (actionMode processContentJSONResponse) "restrictAccess" then
      setSequence sessionId currentSequence;;
      return_ (data (createJsonStreamForBlock sessionId block_message) ndjson_headers)
    else mret currentSequence
  else mret currentSequence.

(** Source lines 331-460: set-up, retrieval, the label filter, the answer
    of the model and the rewrite of its citations.  The result is
    [processedLlmResponse]. *)
Definition answering (env : Env) (question sessionId : string) (tokens : PurviewTokens)
  : M string :=
  await (initialise_backend env);;
  retrievedDocuments ← call (EvRetrieve question) (retriever_invoke env question);
  let accepted := acceptedAccessRight (PURVIEW_ACCEPTED_ACCESS_RIGHTS env) in
  emits (label_calls (appToken tokens) (userName tokens) retrievedDocuments);;
  let filtered :=
    filteredDocuments accepted (getLabelInfo env (appToken tokens) (userName tokens))
      retrievedDocuments in
  responseStream ← call (EvAnswerModel question filtered sessionId)
                        (ragChain_stream env question filtered sessionId);
  let llmResponse := collectStream responseStream in
  mret (rewriteCitations retrievedDocuments llmResponse).

(** Source lines 462-520: inline evaluation of the processed answer. *)
Definition responseGating (env : Env)
    (processedLlmResponse sessionId accessToken etagIdentifier : string)
    (downloadTextExecutionMode : jsval) (currentSequence : nat) : M nat :=
  if is_str downloadTextExecutionMode "evaluateInline" then
    let processContentRequestBodyForLLM :=
      constructProcessContentRequestBody processedLlmResponse "BuildDemo-P4AI"
        currentSequence sessionId "downloadText" (str_or (AZURE_AD_API_ID env) EmptyString) in
    processContentResponseForLLM ←
      call (EvProcessContent accessToken etagIdentifier processContentRequestBodyForLLM)
           (invokeProcessContentApi env accessToken etagIdentifier
              processContentRequestBodyForLLM);
    let currentSequence := currentSequence + 1 in
    processContentResponseJSONForLLM ← await (JSON_parse env processContentResponseForLLM);
    if is_str (actionMode processContentResponseJSONForLLM) "restrictAccess" then
      setSequence sessionId currentSequence;;
      return_ (data (createJsonStreamForBlock sessionId block_message) ndjson_headers)
    else mret currentSequence
  else mret currentSequence.

(** Source lines 540-551: the title of the session. *)
Definition titling (env : Env) (question : string) : M unit :=
  title ← call EvGetHistoryContext (chatHistory_getContext env);
  if falsy title then
    response ← call (EvTitleModel question) (titleModel_invoke env question);
    emits [EvSetHistoryTitle response]
  else mret ().

(** Source lines 553-571: offline reporting. *)
Definition reporting (env : Env)
    (question processedLlmResponse sessionId accessToken etagIdentifier : string)
    (uploadTextExecutionMode downloadTextExecutionMode : jsval) (currentSequence : nat)
  : M unit :=
  if is_str downloadTextExecutionMode "evaluateOffline"
     || is_str uploadTextExecutionMode "evaluateOffline" then
    let task := {| off_accessToken := accessToken; off_etag := etagIdentifier;
                   off_uploadMode := uploadTextExecutionMode;
                   off_downloadMode := downloadTextExecutionMode;
                   off_question := question; off_response := processedLlmResponse;
                   off_sessionId := sessionId; off_sequence := currentSequence |} in
    call (EvEnqueueOffline task) (enqueueOfflinePurviewTasksAsync env task);;
    setSequence sessionId (currentSequence + 2)
  else mret ().

(** What follows the resolution of the scope (source lines 275-576). *)
Definition pipeline (env : Env) (question sessionId : string) (tokens : PurviewTokens)
    (etagIdentifier : string) (uploadTextExecutionMode downloadTextExecutionMode : jsval)
    (currentSequence : nat) : M Response :=
  let accessToken := oboToken tokens in
  currentSequence ←
    promptGating env question sessionId accessToken etagIdentifier
      uploadTextExecutionMode currentSequence;
  processedLlmResponse ← answering env question sessionId tokens;
  currentSequence ←
    responseGating env processedLlmResponse sessionId accessToken etagIdentifier
      downloadTextExecutionMode currentSequence;
  let jsonStream := [ndjson_line processedLlmResponse sessionId] in
  titling env question;;
  reporting env question processedLlmResponse sessionId accessToken etagIdentifier
    uploadTextExecutionMode downloadTextExecutionMode currentSequence;;
  mret (data jsonStream ndjson_headers).

(** What follows the validation of the request (source lines 222-576). *)
Definition serving (env : Env) (request : Request) (question userId sessionId : string)
  : M Response :=
  currentSequence ← getSequence sessionId;
  tokens ← getPurviewAccessTokens env request;
  '(etagIdentifier, uploadTextExecutionMode, downloadTextExecutionMode) ←
    resolveProtectionScope env userId (oboToken tokens);
  pipeline env question sessionId tokens etagIdentifier
    uploadTextExecutionMode downloadTextExecutionMode currentSequence.

(** The body of the [try] block of [postChats]. *)
Definition postChats_try (env : Env) (request : Request) : M Response :=
  requestBody ← await (json request);
  let userId := userId request in
  let sessionId := str_or (sessionId requestBody) (uuidv4 env) in
  question ← last_content (messages requestBody);
  if invalid_request (messages requestBody) question userId sessionId
  then return_ (badRequest "Invalid or missing messages in the request body")
  else
    (* both are non-empty strings here *)
    serving env request (default EmptyString question) (default EmptyString userId) sessionId.

(** [postChats]: the [try] block, and the [catch] that answers 503.  The
    result is the response, the maps after the request, and the calls
    made. *)
Definition postChats (env : Env) (request : Request) (st : Store)
  : Response * Store * list Event :=
  match postChats_try env request {| store := st; trace := [] |} with
  | (Val r, w) | (Ret r, w) => (r, store w, trace w)
  | (Thrown _, w) =>
      (serviceUnavailable "Service temporarily unavailable. Please try again later.",
       store w, trace w)
  end.

(** Requests served one after the other. *)
Fixpoint serve (requests : list (Env * Request)) (st : Store)
  : Store * list (Response * list Event) :=
  match requests with
  | [] => (st, [])
  | (env, request) :: rest =>
      let '(r, st', tr) := postChats env request st in
      let '(st'', out) := serve rest st' in
      (st'', (r, tr) :: out)
  end.

(** * Properties *)

(** ** The activity map of a protection-scope response *)

Section ScopeResponse.

Variable appId : option string.

(** [entry] names [activity] in its [activities] string. *)
Definition lists (activity : string) (entry : jsval) : bool :=
  bool_decide (activity ∈ activitiesList entry).

Definition executionMode (entry : jsval) : jsval := opt_prop entry "executionMode".

(** Some entry names [activity] with the mode "evaluateInline". *)
Definition any_inline (activity : string) (entries : list jsval) : bool :=
  existsb (fun entry => lists activity entry && is_str (executionMode entry) "evaluateInline")
          entries.

(** The mode of the first entry that names [activity]. *)
Fixpoint first_mode (activity : string) (entries : list jsval) : option jsval :=
  match entries with
  | [] => None
  | entry :: rest =>
      if lists activity entry then Some (executionMode entry) else first_mode activity rest
  end.

(** The tie-break in the spec's words: inline if any entry says so, else
    the first mode seen. *)
Definition expected_mode (activity : string) (entries : list jsval) : option jsval :=
  if any_inline activity entries then Some (JStr "evaluateInline")
  else first_mode activity entries.

(** What one entry does to the mode recorded for [activity]. *)
Definition after_entry (activity : string) (entry : jsval) (cur : option jsval)
  : option jsval :=
  if lists activity entry then
    if negb (bool_decide (is_Some cur)) || is_str (executionMode entry) "evaluateInline"
    then Some (executionMode entry) else cur
  else cur.

Lemma is_str_eq v s : is_str v s = true -> v = JStr s.
Proof.
  destruct v; simpl; try discriminate.
  intros H. apply String.eqb_eq in H. by subst.
Qed.

Lemma visit_activities_lookup entry activities acc activity :
  (fold_left (visit_activity appId entry) activities acc).1 !! activity
  = if bool_decide (activity ∈ activities) then
      if negb (bool_decide (is_Some (acc.1 !! activity)))
         || is_str (executionMode entry) "evaluateInline"
      then Some (executionMode entry) else acc.1 !! activity
    else acc.1 !! activity.
Proof.
  revert acc. induction activities as [|a activities IH]; intros acc; simpl.
  - done.
  - rewrite IH. clear IH. unfold visit_activity. fold (executionMode entry).
    destruct (decide (activity = a)) as [->|Hne].
    + rewrite (bool_decide_eq_true_2 (a ∈ a :: activities)) by apply list_elem_of_here.
      destruct (bool_decide (is_Some (acc.1 !! a))) eqn:Hsome; simpl.
      * destruct (is_str (executionMode entry) "evaluateInline") eqn:Hin; simpl.
        -- rewrite lookup_insert_eq. by repeat case_bool_decide.
        -- rewrite Hsome. simpl. by repeat case_bool_decide.
      * rewrite lookup_insert_eq.
        rewrite (bool_decide_eq_true_2 (is_Some (Some _))) by eauto. simpl.
        destruct (is_str (executionMode entry) "evaluateInline") eqn:Hin.
        -- by repeat case_bool_decide.
        -- by repeat case_bool_decide.
    + assert (bool_decide (activity ∈ a :: activities) = bool_decide (activity ∈ activities))
        as Hmem.
      { apply bool_decide_ext. rewrite elem_of_cons.
        split; [intros [Heq|Hin]; [by destruct Hne | done] | by right]. }
      rewrite Hmem.
      destruct (negb (bool_decide (is_Some (acc.1 !! a)))
                || is_str (executionMode entry) "evaluateInline"); simpl.
      * by rewrite lookup_insert_ne.
      * done.
Qed.

Lemma visit_entry_lookup entry acc :
  entry ≠ JNull -> entry ≠ JUndefined ->
  exists acc', visit_entry appId acc entry = Returned acc'
    /\ forall activity, acc'.1 !! activity = after_entry activity entry (acc.1 !! activity).
Proof.
  intros Hnull Hundef. unfold visit_entry.
  destruct (prop entry "activities") eqn:Hp.
  - eexists. split; [done|]. intros activity.
    rewrite visit_activities_lookup. unfold after_entry, lists. done.
  - destruct entry; simpl in Hp; congruence.
Qed.

Lemma visit_entries_lookup entries : forall acc,
  Forall (fun entry => entry ≠ JNull /\ entry ≠ JUndefined) entries ->
  exists acc', visit_entries appId acc entries = Returned acc'
    /\ forall activity,
         acc'.1 !! activity
         = fold_left (fun cur entry => after_entry activity entry cur) entries
                     (acc.1 !! activity).
Proof.
  induction entries as [|entry rest IH]; intros acc Hall; simpl.
  - eauto.
  - inversion Hall as [|? ? [Hnull Hundef] Hrest]; subst.
    destruct (visit_entry_lookup entry acc Hnull Hundef) as (acc1 & -> & H1).
    destruct (IH acc1 Hrest) as (acc2 & -> & H2).
    eexists. split; [done|]. intros activity. by rewrite H2, H1.
Qed.

Lemma after_entries_some activity entries : forall v,
  fold_left (fun cur entry => after_entry activity entry cur) entries (Some v)
  = if any_inline activity entries then Some (JStr "evaluateInline") else Some v.
Proof.
  induction entries as [|entry rest IH]; intros v; simpl; [done|].
  unfold after_entry at 2.
  destruct (lists activity entry); cbn [andb orb]; [|apply IH].
  case_bool_decide as Hsome; [|by destruct Hsome; eauto]. cbn [negb orb].
  destruct (is_str (executionMode entry) "evaluateInline") eqn:Hin; cbn [orb].
  - rewrite IH. apply is_str_eq in Hin. rewrite Hin. by destruct (any_inline _ _).
  - apply IH.
Qed.

Lemma after_entries_none activity entries :
  fold_left (fun cur entry => after_entry activity entry cur) entries None
  = expected_mode activity entries.
Proof.
  unfold expected_mode.
  induction entries as [|entry rest IH]; simpl; [done|].
  unfold after_entry at 2.
  destruct (lists activity entry); cbn [andb orb]; [|apply IH].
  case_bool_decide as Hsome; [by destruct Hsome|]. cbn [negb orb].
  rewrite after_entries_some.
  destruct (is_str (executionMode entry) "evaluateInline") eqn:Hin; cbn [orb].
  - apply is_str_eq in Hin. rewrite Hin. by destruct (any_inline _ _).
  - done.
Qed.

Lemma first_mode_none activity entries :
  first_mode activity entries = None <-> Forall (fun entry => lists activity entry = false) entries.
Proof.
  induction entries as [|entry rest IH]; simpl.
  - split; [constructor | done].
  - destruct (lists activity entry) eqn:Hl.
    + split; [done|]. intros H. inversion H; congruence.
    + rewrite IH. split; [by constructor|]. intros H. by inversion H.
Qed.

Lemma expected_mode_absent activity entries :
  Forall (fun entry => lists activity entry = false) entries ->
  expected_mode activity entries = None.
Proof.
  intros Hall. unfold expected_mode.
  assert (any_inline activity entries = false) as ->.
  { unfold any_inline. induction Hall as [|entry rest Hl _ IH]; simpl; [done|].
    by rewrite Hl, IH. }
  by apply first_mode_none.
Qed.

(** C4. For a scope response whose [value] is an array of entries (none of
    them [null]), the function returns, and the mode it records for an
    activity is "evaluateInline" when some entry names the activity with
    that mode, and the mode of the first entry naming it otherwise; an
    activity that no entry names is not recorded, and "uploadText" and
    "downloadText" then resolve to "default". *)
Theorem C4_inline_wins_else_first_mode (apiResponse : jsval) (entries : list jsval) :
  prop apiResponse "value" = Some (JArr entries) ->
  Forall (fun entry => entry ≠ JNull /\ entry ≠ JUndefined) entries ->
  exists modes,
    processProtectionScopeApiResponse appId apiResponse = Returned modes
    /\ (forall activity,
          activityExecutionMap modes !! activity
          = if any_inline activity entries then Some (JStr "evaluateInline")
            else first_mode activity entries)
    /\ (forall activity,
          Forall (fun entry => lists activity entry = false) entries ->
          activityExecutionMap modes !! activity = None)
    /\ uploadTextExecutionMode modes = mode_of (activityExecutionMap modes) "uploadText"
    /\ downloadTextExecutionMode modes = mode_of (activityExecutionMap modes) "downloadText"
    /\ (Forall (fun entry => lists "uploadText" entry = false) entries ->
        uploadTextExecutionMode modes = JStr "default")
    /\ (Forall (fun entry => lists "downloadText" entry = false) entries ->
        downloadTextExecutionMode modes = JStr "default").
Proof.
  intros Hvalue Hall. unfold processProtectionScopeApiResponse.
  rewrite Hvalue. simpl.
  destruct (visit_entries_lookup entries (∅, false) Hall) as ([m ok] & -> & Hm).
  simpl in Hm.
  assert (Hexp : forall activity, m !! activity = expected_mode activity entries).
  { intros activity. rewrite Hm, lookup_empty. apply after_entries_none. }
  eexists. split; [done|]. simpl.
  split; [exact Hexp|].
  split; [intros activity Habs; rewrite Hexp; by apply expected_mode_absent|].
  split; [done|]. split; [done|].
  split; intros Habs; unfold mode_of; rewrite Hexp, expected_mode_absent by done; done.
Qed.

End ScopeResponse.

(** ** The label filter *)

Section LabelFilter.

Variable accepted : string.
Variable lookup : string -> outcome jsval.

(** The decision of one label task. *)
Definition kept (document : Document) : bool :=
  negb (falsy (label_id document)) &&
  match lookup (interpolate (label_id document)) with
  | Returned labelInfo => Js.includes accepted (rightsValue labelInfo)
  | Threw _ => false
  end.

Lemma labelTask_kept document :
  labelTask accepted lookup document = if kept document then Some document else None.
Proof.
  unfold labelTask, kept.
  destruct (falsy (label_id document)); simpl; [done|].
  by destruct (lookup _).
Qed.

Lemma filteredDocuments_filter documents :
  filteredDocuments accepted lookup documents = filter (fun d => kept d = true) documents.
Proof.
  unfold filteredDocuments.
  induction documents as [|d documents IH]; simpl; [done|].
  rewrite labelTask_kept.
  destruct (kept d) eqn:Hk.
  - rewrite filter_cons_True by done. f_equal. exact IH.
  - rewrite filter_cons_False by congruence. exact IH.
Qed.

Lemma filteredDocuments_app l1 l2 :
  filteredDocuments accepted lookup (l1 ++ l2)
  = filteredDocuments accepted lookup l1 ++ filteredDocuments accepted lookup l2.
Proof. unfold filteredDocuments. apply omap_app. Qed.

Lemma kept_spec document :
  kept document = true <->
  exists labelId labelInfo,
    label_id document = Some labelId /\ labelId ≠ EmptyString
    /\ lookup labelId = Returned labelInfo
    /\ Js.includes accepted (rightsValue labelInfo) = true.
Proof.
  unfold kept, falsy. split.
  - destruct (label_id document) as [labelId|]; simpl; [|done].
    destruct labelId as [|c labelId]; simpl; [done|].
    destruct (lookup _) as [labelInfo|] eqn:Hl; [|done].
    intros Hinc. by exists (String c labelId), labelInfo.
  - intros (labelId & labelInfo & -> & Hne & Hl & Hinc). simpl.
    rewrite Hl. destruct labelId; [done|]. exact Hinc.
Qed.

Lemma includes_empty s : Js.includes s EmptyString = true.
Proof. by destruct s. Qed.

(** C1, as the code has it.  The output keeps, in their order, exactly the
    documents that carry a non-empty [labelId] whose lookup returns a
    rights value (lower-cased; the empty string when it is no string)
    contained in the accepted-rights string; a document whose lookup fails
    is left out, and the other documents are decided as without it. *)
Theorem C1_label_filter_keeps_accepted_labelled (retrievedDocuments : list Document) :
  filteredDocuments accepted lookup retrievedDocuments
    = filter (fun d => kept d = true) retrievedDocuments
  /\ sublist (filteredDocuments accepted lookup retrievedDocuments) retrievedDocuments
  /\ (forall document,
        document ∈ filteredDocuments accepted lookup retrievedDocuments <->
        document ∈ retrievedDocuments
        /\ exists labelId labelInfo,
             label_id document = Some labelId /\ labelId ≠ EmptyString
             /\ lookup labelId = Returned labelInfo
             /\ Js.includes accepted (rightsValue labelInfo) = true)
  /\ (forall before document after message,
        retrievedDocuments = before ++ document :: after ->
        lookup (interpolate (label_id document)) = Threw message ->
        filteredDocuments accepted lookup retrievedDocuments
        = filteredDocuments accepted lookup before
          ++ filteredDocuments accepted lookup after).
Proof.
  split; [apply filteredDocuments_filter|].
  split; [rewrite filteredDocuments_filter; apply sublist_filter|].
  split.
  - intros document. rewrite filteredDocuments_filter, list_elem_of_filter, kept_spec.
    tauto.
  - intros before document after message -> Hfail.
    rewrite filteredDocuments_app. f_equal.
    unfold filteredDocuments at 1. simpl. rewrite labelTask_kept.
    unfold kept. rewrite Hfail. by rewrite andb_false_r.
Qed.

(** C9. A document with a non-empty [labelId] whose lookup returns label
    information without a string under [value[0].rights.value] has the
    empty string as its rights value and is kept, whatever the accepted
    rights are; a document whose lookup throws is dropped. *)
Theorem C9_missing_rights_value_is_accepted
    (document : Document) (labelId : string) (labelInfo : jsval) :
  label_id document = Some labelId ->
  labelId ≠ EmptyString ->
  lookup labelId = Returned labelInfo ->
  (forall s, opt_prop (opt_prop (opt_first (opt_prop labelInfo "value")) "rights") "value"
             ≠ JStr s) ->
  rightsValue labelInfo = EmptyString
  /\ labelTask accepted lookup document = Some document
  /\ (forall retrievedDocuments,
        document ∈ retrievedDocuments ->
        document ∈ filteredDocuments accepted lookup retrievedDocuments)
  /\ (forall other message,
        lookup (interpolate (label_id other)) = Threw message ->
        labelTask accepted lookup other = None).
Proof.
  intros Hid Hne Hl Hraw.
  assert (Hrights : rightsValue labelInfo = EmptyString).
  { unfold rightsValue. destruct (opt_prop _ "value") eqn:Hv; try done.
    by destruct (Hraw s). }
  assert (Hkept : kept document = true).
  { apply kept_spec. exists labelId, labelInfo. rewrite Hrights, includes_empty. done. }
  split; [done|]. split; [by rewrite labelTask_kept, Hkept|]. split.
  - intros retrievedDocuments Hin.
    rewrite filteredDocuments_filter. by apply list_elem_of_filter.
  - intros other message Hfail. rewrite labelTask_kept. unfold kept.
    rewrite Hfail. by rewrite andb_false_r.
Qed.

End LabelFilter.

Definition unlabelled_document : Document :=
  {| pageContent := "Rentals can be booked online."; source := Some "terms.pdf";
     label_id := None; label_name := None |}.

(** C1, as the spec has it, fails: a document without a [labelId] is not
    passed through, the filter drops it (its task answers [null] before
    any lookup). *)
Lemma C1_unlabelled_document_is_dropped :
  label_id unlabelled_document = None
  /\ filteredDocuments (acceptedAccessRight None) (fun _ => Returned JNull)
       [unlabelled_document] = []
  /\ ~ (forall accepted lookup retrievedDocuments document,
          document ∈ retrievedDocuments -> label_id document = None ->
          document ∈ filteredDocuments accepted lookup retrievedDocuments).
Proof.
  split; [done|]. split; [done|].
  intros H.
  specialize (H (acceptedAccessRight None) (fun _ => Returned JNull)
                [unlabelled_document] unlabelled_document).
  assert (Hin : unlabelled_document ∈ [unlabelled_document]) by apply list_elem_of_here.
  specialize (H Hin eq_refl). vm_compute in H. inversion H.
Qed.

(** ** Running the handler *)

Lemma bind_unfold {A B} (m : M A) (f : A -> M B) (w : World) :
  (m ≫= f) w = match m w with
                | (Val a, w') => f a w'
                | (Thrown e, w') => (Thrown e, w')
                | (Ret r, w') => (Ret r, w')
                end.
Proof. reflexivity. Qed.

Definition add_events (es : list Event) (w : World) : World :=
  {| store := store w; trace := trace w ++ es |}.

Lemma call_returned {A} (e : Event) (o : outcome A) (a : A) (w : World) :
  o = Returned a -> call e o w = (Val a, add_events [e] w).
Proof. by intros ->. Qed.

(** A relation between the world before and after a computation that
    holds however the computation ends. *)
Definition respects {A} (R : World -> World -> Prop) (m : M A) : Prop :=
  forall w, R w (m w).2.

Section Respects.

Variable R : World -> World -> Prop.
Hypothesis R_refl : forall w, R w w.
Hypothesis R_trans : forall w1 w2 w3, R w1 w2 -> R w2 w3 -> R w1 w3.

Lemma respects_ret {A} (a : A) : respects R (mret a).
Proof. intros w. apply R_refl. Qed.

Lemma respects_throw {A} (message : string) : respects R (@throw A message).
Proof. intros w. apply R_refl. Qed.

Lemma respects_return {A} (r : Response) : respects R (@return_ A r).
Proof. intros w. apply R_refl. Qed.

Lemma respects_await {A} (o : outcome A) : respects R (await o).
Proof. destruct o; intros w; apply R_refl. Qed.

Lemma respects_bind {A B} (m : M A) (f : A -> M B) :
  respects R m -> (forall a, respects R (f a)) -> respects R (m ≫= f).
Proof.
  intros Hm Hf w. rewrite bind_unfold.
  specialize (Hm w). destruct (m w) as [[a|e|r] w']; simpl in *; [|done..].
  eapply R_trans; [exact Hm | apply Hf].
Qed.

Lemma respects_call {A} (e : Event) (o : outcome A) :
  respects R (emits [e]) -> respects R (call e o).
Proof.
  intros He. unfold call. apply respects_bind; [exact He|].
  intros _. apply respects_await.
Qed.

End Respects.

(** Only events in [E] are added to the trace. *)
Definition appends (E : Event -> Prop) (w w' : World) : Prop :=
  exists es, trace w' = trace w ++ es /\ Forall E es.

Lemma appends_refl E w : appends E w w.
Proof. exists []. by rewrite app_nil_r. Qed.

Lemma appends_trans E w1 w2 w3 : appends E w1 w2 -> appends E w2 w3 -> appends E w1 w3.
Proof.
  intros (es1 & H1 & F1) (es2 & H2 & F2). exists (es1 ++ es2).
  split; [by rewrite H2, H1, app_assoc | by apply Forall_app].
Qed.

Lemma appends_emits E es : Forall E es -> respects (appends E) (emits es).
Proof. intros HF w. by exists es. Qed.

(** [frame S E]: the maps change within [S], and only events in [E] are
    added to the trace. *)
Definition frame (S : Store -> Store -> Prop) (E : Event -> Prop) (w w' : World) : Prop :=
  S (store w) (store w') /\ appends E w w'.

Definition same_store (s s' : Store) : Prop := s' = s.

Definition same_cache (s s' : Store) : Prop :=
  sessionProtectionDataMap s' = sessionProtectionDataMap s.

Definition same_sequences (s s' : Store) : Prop :=
  sessionSequenceMap s' = sessionSequenceMap s.

Section Frame.

Variable S : Store -> Store -> Prop.
Variable E : Event -> Prop.
Hypothesis S_refl : forall s, S s s.
Hypothesis S_trans : forall s1 s2 s3, S s1 s2 -> S s2 s3 -> S s1 s3.

Lemma frame_refl w : frame S E w w.
Proof. split; [apply S_refl | apply appends_refl]. Qed.

Lemma frame_trans w1 w2 w3 : frame S E w1 w2 -> frame S E w2 w3 -> frame S E w1 w3.
Proof.
  intros [HS1 HE1] [HS2 HE2].
  split; [by eapply S_trans | by eapply appends_trans].
Qed.

Lemma frame_emits es : Forall E es -> respects (frame S E) (emits es).
Proof. intros HF w. split; [apply S_refl | by apply appends_emits]. Qed.

Lemma frame_emit e : E e -> respects (frame S E) (emits [e]).
Proof. intros He. apply frame_emits. by repeat constructor. Qed.

Lemma frame_getSequence sessionId : respects (frame S E) (getSequence sessionId).
Proof. intros w. apply frame_refl. Qed.

Lemma frame_getProtectionData userId : respects (frame S E) (getProtectionData userId).
Proof. intros w. apply frame_refl. Qed.

End Frame.

Lemma same_store_refl s : same_store s s.
Proof. done. Qed.

Lemma same_store_trans s1 s2 s3 : same_store s1 s2 -> same_store s2 s3 -> same_store s1 s3.
Proof. unfold same_store. congruence. Qed.

Lemma same_cache_refl s : same_cache s s.
Proof. done. Qed.

Lemma same_cache_trans s1 s2 s3 : same_cache s1 s2 -> same_cache s2 s3 -> same_cache s1 s3.
Proof. unfold same_cache. congruence. Qed.

Lemma same_sequences_refl s : same_sequences s s.
Proof. done. Qed.

Lemma same_sequences_trans s1 s2 s3 :
  same_sequences s1 s2 -> same_sequences s2 s3 -> same_sequences s1 s3.
Proof. unfold same_sequences. congruence. Qed.

Lemma frame_setProtectionData E userId d :
  respects (frame same_sequences E) (setProtectionData userId d).
Proof.
  intros w. split; [done|]. exists []. split; [simpl; by rewrite app_nil_r | constructor].
Qed.

Lemma frame_setSequence E sessionId n : respects (frame same_cache E) (setSequence sessionId n).
Proof.
  intros w. split; [done|]. exists []. split; [simpl; by rewrite app_nil_r | constructor].
Qed.

Lemma frame_same_store_cache E w w' : frame same_store E w w' -> frame same_cache E w w'.
Proof. intros [HS HE]. split; [|done]. unfold same_cache. by rewrite HS. Qed.

Ltac store_refl :=
  first [apply same_store_refl | apply same_cache_refl | apply same_sequences_refl].

Ltac store_trans :=
  first [apply same_store_trans | apply same_cache_trans | apply same_sequences_trans].

Ltac frame_side :=
  first [apply frame_refl; store_refl | apply frame_trans; store_trans].

(** One step through a stage of the handler. *)
Ltac frame_step :=
  lazymatch goal with
  | |- respects _ (mret _) => apply respects_ret; intros ?; frame_side
  | |- respects _ (throw _) => apply respects_throw; intros ?; frame_side
  | |- respects _ (return_ _) => apply respects_return; intros ?; frame_side
  | |- respects _ (await _) => apply respects_await; intros ?; frame_side
  | |- respects _ (call _ _) =>
      apply respects_call;
      [intros ?; frame_side | intros ? ? ?; frame_side | apply frame_emit; [store_refl|]]
  | |- respects _ (emits _) => apply frame_emits; [store_refl|]
  | |- respects _ (setSequence _ _) => apply frame_setSequence
  | |- respects _ (setProtectionData _ _) => apply frame_setProtectionData
  | |- respects _ (getProtectionData _) => apply frame_getProtectionData; store_refl
  | |- respects _ (getSequence _) => apply frame_getSequence; store_refl
  | |- respects _ (mbind _ _) =>
      apply respects_bind; [intros ? ? ?; frame_side | | intros ?]
  | |- respects _ (if ?b then _ else _) => destruct b
  | |- respects _ (match ?x with _ => _ end) => destruct x
  | |- respects _ (let _ := _ in _) => cbv zeta
  end.

Section Stages.

Variable env : Env.
Variable E : Event -> Prop.

Lemma getAccessTokensthroughMSAL_frame userToken scopes :
  (forall e, is_identity_call e = true -> E e) ->
  respects (frame same_store E) (getAccessTokensthroughMSAL env userToken scopes).
Proof.
  intros HE. unfold getAccessTokensthroughMSAL.
  repeat frame_step; by apply HE.
Qed.

Lemma getPurviewAccessTokens_frame request :
  (forall e, is_identity_call e = true -> E e) ->
  respects (frame same_store E) (getPurviewAccessTokens env request).
Proof.
  intros HE. unfold getPurviewAccessTokens.
  destruct (bad_authorization _); [frame_step|].
  by apply getAccessTokensthroughMSAL_frame.
Qed.

Lemma resolveProtectionScope_frame userId accessToken :
  (forall e, is_scope_call e = true -> E e) ->
  respects (frame same_sequences E) (resolveProtectionScope env userId accessToken).
Proof.
  intros HE. unfold resolveProtectionScope. repeat frame_step. by apply HE.
Qed.

Lemma promptGating_frame question sessionId accessToken etagIdentifier mode currentSequence :
  (forall body, E (EvProcessContent accessToken etagIdentifier body)) ->
  respects (frame same_cache E)
    (promptGating env question sessionId accessToken etagIdentifier mode currentSequence).
Proof.
  intros HE. unfold promptGating. repeat frame_step; apply HE.
Qed.

Lemma responseGating_frame processed sessionId accessToken etagIdentifier mode currentSequence :
  (forall body, E (EvProcessContent accessToken etagIdentifier body)) ->
  respects (frame same_cache E)
    (responseGating env processed sessionId accessToken etagIdentifier mode currentSequence).
Proof.
  intros HE. unfold responseGating. repeat frame_step; apply HE.
Qed.

Lemma label_calls_retrieval appToken userName documents :
  Forall (fun e => is_retrieval_call e = true) (label_calls appToken userName documents).
Proof.
  unfold label_calls. induction documents as [|d documents IH]; simpl; [constructor|].
  destruct (falsy (label_id d)); [exact IH|]. by constructor.
Qed.

Lemma answering_frame question sessionId tokens :
  (forall e, is_retrieval_call e = true -> E e) ->
  (forall context, E (EvAnswerModel question context sessionId)) ->
  respects (frame same_store E) (answering env question sessionId tokens).
Proof.
  intros HR HA. unfold answering. repeat frame_step; try apply HA.
  - by apply HR.
  - eapply Forall_impl; [apply label_calls_retrieval | exact HR].
Qed.

Lemma titling_frame question :
  E EvGetHistoryContext -> (forall e, is_title_call e = true -> E e) ->
  respects (frame same_store E) (titling env question).
Proof.
  intros HH HT. unfold titling. repeat frame_step; try done.
  - by apply HT.
  - repeat constructor. by apply HT.
Qed.

Lemma reporting_frame question processed sessionId accessToken etagIdentifier up down seq :
  (forall task, off_etag task = etagIdentifier -> E (EvEnqueueOffline task)) ->
  respects (frame same_cache E)
    (reporting env question processed sessionId accessToken etagIdentifier up down seq).
Proof.
  intros HE. unfold reporting. repeat frame_step. by apply HE.
Qed.

End Stages.

(** ** Validation of the request *)

Definition unavailable : Response :=
  serviceUnavailable "Service temporarily unavailable. Please try again later.".

Definition invalid_body : Response :=
  badRequest "Invalid or missing messages in the request body".

(** The request passes the validation with this question, user and
    session. *)
Definition accepted_request (env : Env) (request : Request)
    (question user session : string) : Prop :=
  exists requestBody ms m,
    json request = Returned requestBody
    /\ messages requestBody = Some ms /\ last ms = Some m
    /\ content m = Some question /\ question ≠ EmptyString
    /\ userId request = Some user /\ user ≠ EmptyString
    /\ session = str_or (sessionId requestBody) (uuidv4 env)
    /\ session ≠ EmptyString.

Lemma is_empty_false s : s ≠ EmptyString -> Js.is_empty s = false.
Proof. by destruct s. Qed.

Lemma is_empty_false_inv s : Js.is_empty s = false -> s ≠ EmptyString.
Proof. by destruct s. Qed.

Lemma accepted_request_serving env request question userId sessionId w :
  accepted_request env request question userId sessionId ->
  postChats_try env request w = serving env request question userId sessionId w.
Proof.
  intros (requestBody & ms & m & Hjson & Hms & Hlast & Hq & Hqne & Hu & Hune & Hsid & Hsne).
  unfold postChats_try. rewrite bind_unfold, Hjson. simpl.
  rewrite bind_unfold, Hms. simpl. rewrite Hlast. simpl.
  rewrite Hq, Hu. unfold invalid_request. simpl. rewrite <- Hsid.
  rewrite !is_empty_false by done.
  destruct ms as [|m0 ms]; [done|]. simpl. done.
Qed.

(** How the [try] block starts: it throws or answers 400 without having
    done anything, or it goes on with a validated request. *)
Lemma postChats_try_cases env request w :
  (exists message, postChats_try env request w = (Thrown message, w))
  \/ postChats_try env request w = (Ret invalid_body, w)
  \/ (exists question userId sessionId,
        accepted_request env request question userId sessionId).
Proof.
  unfold postChats_try. rewrite bind_unfold.
  destruct (json request) as [requestBody|message] eqn:Hjson; simpl; [|eauto].
  rewrite bind_unfold.
  destruct (messages requestBody) as [ms|] eqn:Hms; simpl; [|eauto].
  destruct (last ms) as [m|] eqn:Hlast; simpl; [|eauto].
  match goal with
  | |- context [if ?b then _ else _] => destruct b eqn:Hinv; [by right; left|]
  end.
  right; right.
  apply orb_false_elim in Hinv as [Hinv Hsid].
  apply orb_false_elim in Hinv as [Hinv Hu].
  apply orb_false_elim in Hinv as [_ Hq].
  destruct (content m) as [question|] eqn:Hc; [|done].
  destruct (userId request) as [uid|] eqn:Hu'; [|done].
  exists question, uid, (str_or (sessionId requestBody) (uuidv4 env)).
  exists requestBody, ms, m. simpl in Hq, Hu.
  repeat split; try done; by apply is_empty_false_inv.
Qed.

(** C5, what the code does.  A body whose [messages] array is empty or
    absent, and a body that is no JSON, are answered with 503: the last
    message is read before the validation, the read throws, and the
    [catch] answers.  A missing question or user is answered with 400. *)
Theorem C5_empty_or_absent_messages_answer_503
    (env : Env) (st : Store) (auth user session : option string) :
  postChats env {| json := Returned {| messages := Some []; sessionId := session |};
                   authorization := auth; userId := user |} st
    = (unavailable, st, [])
  /\ postChats env {| json := Returned {| messages := None; sessionId := session |};
                      authorization := auth; userId := user |} st
    = (unavailable, st, [])
  /\ postChats env {| json := Threw "SyntaxError: Unexpected end of JSON input";
                      authorization := auth; userId := user |} st
    = (unavailable, st, [])
  /\ status unavailable = 503
  /\ (forall m,
        postChats env {| json := Returned {| messages := Some [m]; sessionId := session |};
                         authorization := auth; userId := None |} st
        = (invalid_body, st, []))
  /\ status invalid_body = 400.
Proof.
  repeat split; try done.
  intros m. unfold postChats, postChats_try. rewrite bind_unfold. simpl.
  rewrite bind_unfold. simpl.
  unfold invalid_request. simpl. rewrite orb_true_r. simpl. done.
Qed.

(** ** Token acquisition *)

(** An exchange that gives no access token: it throws, answers [null], or
    answers an empty token. *)
Definition no_access_token (o : outcome (option AuthenticationResult)) : bool :=
  match o with
  | Returned (Some r) => Js.is_empty (accessToken r)
  | _ => true
  end.

Definition tokens_unavailable (env : Env) (request : Request) : Prop :=
  bad_authorization (authorization request) = true
  \/ no_access_token
       (acquireTokenOnBehalfOf env (bearer_token request) (downstreamApiScope env)) = true
  \/ exists response,
       acquireTokenOnBehalfOf env (bearer_token request) (downstreamApiScope env)
         = Returned (Some response)
       /\ no_access_token
            (acquireTokenByClientCredential env [graph_default_scope]
               (tenant_authority response)) = true.

Ltac tokens_fail :=
  simpl; rewrite <- ?app_assoc; simpl;
  eexists _, _; split; [reflexivity | split; [repeat constructor | done]].

Lemma getPurviewAccessTokens_fails env request w :
  tokens_unavailable env request ->
  exists message es,
    getPurviewAccessTokens env request w = (Thrown message, add_events es w)
    /\ Forall (fun e => is_identity_call e = true) es
    /\ (bad_authorization (authorization request) = true ->
        es = [] /\ message = "Missing or invalid Authorization header").
Proof.
  intros Hfail. unfold getPurviewAccessTokens.
  destruct (bad_authorization (authorization request)) eqn:Hbad.
  { exists "Missing or invalid Authorization header", []. unfold add_events.
    rewrite app_nil_r. destruct w. by repeat split. }
  destruct Hfail as [Hfail|Hfail]; [congruence|].
  unfold getAccessTokensthroughMSAL. rewrite bind_unfold.
  destruct (acquireTokenOnBehalfOf env _ _) as [[response|]|message] eqn:Hobo; simpl;
    [|tokens_fail..].
  destruct (Js.is_empty (accessToken response)) eqn:Hempty; [tokens_fail|].
  destruct Hfail as [Hfail|(response' & Heq & Hfail)]; [simpl in Hfail; congruence|].
  injection Heq as <-. rewrite bind_unfold.
  destruct (acquireTokenByClientCredential env _ _) as [[appResult|]|message] eqn:Happ;
    simpl in *; [rewrite Hfail|..]; tokens_fail.
Qed.

(** C8. When the Authorization header is missing or does not start with
    "Bearer ", [getPurviewAccessTokens] throws and the request is answered
    with an error without any call having been made; with a well-formed
    header, when the on-behalf-of exchange or the client-credential
    exchange gives no access token, it throws as well, the request is
    answered with an error, nothing is stored, and the only calls made are
    those to the identity provider. *)
Theorem C8_no_tokens_no_downstream_call (env : Env) (request : Request) (st : Store) :
  tokens_unavailable env request ->
  (forall w, exists message w',
      getPurviewAccessTokens env request w = (Thrown message, w'))
  /\ status (postChats env request st).1.1 ≠ 200
  /\ (postChats env request st).1.2 = st
  /\ Forall (fun e => is_identity_call e = true) (postChats env request st).2
  /\ (bad_authorization (authorization request) = true ->
      (postChats env request st).2 = []).
Proof.
  intros Hfail. split.
  { intros w. destruct (getPurviewAccessTokens_fails env request w Hfail)
      as (message & es & H & _). eauto. }
  unfold postChats.
  destruct (postChats_try_cases env request {| store := st; trace := [] |})
    as [[message H]|[H|(question & uid & sid & Hacc)]].
  - rewrite H. simpl. by repeat split.
  - rewrite H. simpl. by repeat split.
  - rewrite (accepted_request_serving _ _ _ _ _ _ Hacc).
    unfold serving. rewrite bind_unfold. simpl. rewrite bind_unfold.
    destruct (getPurviewAccessTokens_fails env request {| store := st; trace := [] |} Hfail)
      as (message & es & -> & Hes & Hbad).
    simpl. repeat split; try done.
    intros Hb. by destruct (Hbad Hb).
Qed.

(** ** NDJSON lines *)

Fixpoint count (c : ascii) (s : string) : nat :=
  match s with
  | EmptyString => 0
  | String d s' => (if Ascii.eqb d c then 1 else 0) + count c s'
  end.

Lemma count_app c s1 s2 : count c (s1 +:+ s2) = count c s1 + count c s2.
Proof. induction s1 as [|d s1 IH]; simpl; [done|]. rewrite IH. lia. Qed.

Lemma escape_no_newline c : count Js.newline (Json.escape c) = 0.
Proof.
  destruct c as [b0 b1 b2 b3 b4 b5 b6 b7].
  destruct b0, b1, b2, b3, b4, b5, b6, b7; reflexivity.
Qed.

Lemma escape_all_no_newline s : count Js.newline (Json.escape_all s) = 0.
Proof.
  induction s as [|c s IH]; simpl; [done|].
  by rewrite count_app, escape_no_newline, IH.
Qed.

Lemma quote_no_newline s : count Js.newline (Json.quote s) = 0.
Proof.
  unfold Json.quote. cbn [count]. rewrite count_app, escape_all_no_newline. done.
Qed.

Lemma stringify_delta_no_newline content session :
  count Js.newline (Json.stringify_delta content session) = 0.
Proof.
  unfold Json.stringify_delta.
  rewrite !count_app, !quote_no_newline. reflexivity.
Qed.

(** A chunk is one NDJSON line: a text without line feed, then one. *)
Definition one_line (chunk : string) : Prop :=
  exists text, chunk = text +:+ String Js.newline EmptyString
               /\ count Js.newline text = 0.

Lemma ndjson_line_one_line content session : one_line (ndjson_line content session).
Proof. eexists. split; [reflexivity|]. apply stringify_delta_no_newline. Qed.

Lemma block_line_has_message session :
  Js.includes (ndjson_line block_message session) block_message = true.
Proof. vm_compute. reflexivity. Qed.

(** ** Blocked prompts and blocked answers *)

Definition block_response (session : string) : Response :=
  data (createJsonStreamForBlock session block_message) ndjson_headers.

Definition stored_sequence (st : Store) (session : string) : nat :=
  default 0 (sessionSequenceMap st !! session).

Lemma run_frame {A} (R : World -> World -> Prop) (m : M A) w r w' :
  respects R m -> m w = (r, w') -> R w w'.
Proof. intros H Hrun. specialize (H w). by rewrite Hrun in H. Qed.

(** The events of the stages before the prompt is evaluated. *)
Lemma before_gating_trace env request user st tokens w1 r w2 :
  getPurviewAccessTokens env request {| store := st; trace := [] |} = (Val tokens, w1) ->
  resolveProtectionScope env user (oboToken tokens) w1 = (r, w2) ->
  sessionSequenceMap (store w2) = sessionSequenceMap st
  /\ Forall (fun e => is_identity_call e = true \/ is_scope_call e = true) (trace w2).
Proof.
  intros H1 H2.
  pose (E := fun e => is_identity_call e = true \/ is_scope_call e = true).
  apply (run_frame (frame same_store E)) in H1;
    [|apply getPurviewAccessTokens_frame; unfold E; auto].
  apply (run_frame (frame same_sequences E)) in H2;
    [|apply resolveProtectionScope_frame; unfold E; auto].
  destruct H1 as [HS1 (es1 & Ht1 & HF1)], H2 as [HS2 (es2 & Ht2 & HF2)].
  simpl in *. unfold same_store in HS1. unfold same_sequences in HS2.
  split; [by rewrite HS2, HS1|].
  rewrite Ht2, Ht1. simpl. by apply Forall_app.
Qed.

(** C3. When "uploadText" resolves to "evaluateInline" and the evaluation
    of the prompt answers "restrictAccess", the handler answers with one
    chunk, the NDJSON line of the fixed block message; the evaluation is
    the last call made, no retrieval call and no model call is in the
    trace, and the sequence number of the session is stored, advanced by
    one. *)
Theorem C3_restricted_prompt_is_blocked
    (env : Env) (request : Request) (st : Store) (question user session : string)
    (tokens : PurviewTokens) (w1 w2 : World) (etagIdentifier : string) (down : jsval)
    (processContentResponse : string) (verdict : jsval) :
  let body :=
    constructProcessContentRequestBody question "BuildDemo-P4AI"
      (stored_sequence st session) session "uploadText"
      (str_or (AZURE_AD_API_ID env) EmptyString) in
  accepted_request env request question user session ->
  getPurviewAccessTokens env request {| store := st; trace := [] |} = (Val tokens, w1) ->
  resolveProtectionScope env user (oboToken tokens) w1
    = (Val (etagIdentifier, JStr "evaluateInline", down), w2) ->
  invokeProcessContentApi env (oboToken tokens) etagIdentifier body
    = Returned processContentResponse ->
  JSON_parse env processContentResponse = Returned verdict ->
  actionMode verdict = JStr "restrictAccess" ->
  (postChats env request st).1.1
    = data [ndjson_line block_message session] ndjson_headers
  /\ one_line (ndjson_line block_message session)
  /\ Js.includes (ndjson_line block_message session) block_message = true
  /\ (postChats env request st).2
     = trace w2 ++ [EvProcessContent (oboToken tokens) etagIdentifier body]
  /\ Forall (fun e => is_retrieval_call e = false /\ is_model_call e = false)
            (postChats env request st).2
  /\ sessionSequenceMap (postChats env request st).1.2 !! session
     = Some (stored_sequence st session + 1)
  /\ sessionProtectionDataMap (postChats env request st).1.2
     = sessionProtectionDataMap (store w2).
Proof.
  intros body Hacc Htok Hscope Hcall Hparse Haction.
  destruct (before_gating_trace _ _ _ _ _ _ _ _ Htok Hscope) as [Hseq Htrace].
  assert (Hrun : postChats env request st
                 = (block_response session,
                    {| sessionSequenceMap :=
                         <[session := stored_sequence st session + 1]>
                           (sessionSequenceMap (store w2));
                       sessionProtectionDataMap := sessionProtectionDataMap (store w2) |},
                    trace w2 ++ [EvProcessContent (oboToken tokens) etagIdentifier body])).
  { unfold postChats. rewrite (accepted_request_serving _ _ _ _ _ _ Hacc).
    unfold serving. rewrite bind_unfold. cbn [getSequence].
    change (default 0 (sessionSequenceMap (store {| store := st; trace := [] |}) !! session))
      with (stored_sequence st session).
    rewrite bind_unfold, Htok. rewrite bind_unfold, Hscope.
    unfold pipeline. cbv zeta.
    rewrite bind_unfold. unfold promptGating. cbn [is_str String.eqb Ascii.eqb Bool.eqb].
    fold body.
    rewrite bind_unfold.
    rewrite (call_returned _ _ _ _ Hcall).
    rewrite bind_unfold, Hparse. cbn [await mret M_ret].
    rewrite Haction. reflexivity. }
  rewrite Hrun. cbn [fst snd].
  split; [done|]. split; [apply ndjson_line_one_line|].
  split; [apply block_line_has_message|]. split; [done|].
  split.
  - apply Forall_app. split.
    + eapply Forall_impl; [exact Htrace|].
      intros e [He|He]; by destruct e.
    + by repeat constructor.
  - split; [|done]. cbn. apply lookup_insert_eq.
Qed.

(** When the prompt is let through, the maps are as before and the local
    sequence number counts the evaluation, if one was made. *)
Lemma promptGating_val env question session accessToken etagIdentifier up n w n' w' :
  promptGating env question session accessToken etagIdentifier up n w = (Val n', w') ->
  store w' = store w
  /\ n' = n + (if is_str up "evaluateInline" then 1 else 0).
Proof.
  unfold promptGating.
  destruct (is_str up "evaluateInline").
  - rewrite bind_unfold.
    destruct (invokeProcessContentApi env _ _ _) as [response|message]; simpl; [|done].
    rewrite bind_unfold.
    destruct (JSON_parse env response) as [verdict|message]; simpl; [|done].
    destruct (is_str (actionMode verdict) "restrictAccess"); simpl; [done|].
    intros [= <- <-]. done.
  - simpl. intros [= <- <-]. split; [done | lia].
Qed.

(** C10. When "downloadText" resolves to "evaluateInline" and the
    evaluation of the processed answer returns "restrictAccess", the
    handler answers with the block line; the evaluation is the last call
    made: the history context is not read, no title is generated and no
    offline evaluation is enqueued, whatever the title and the modes are;
    the stored sequence number counts the evaluation of the prompt, if one
    was made, and the evaluation of the answer. *)
Theorem C10_restricted_answer_skips_title_and_reporting
    (env : Env) (request : Request) (st : Store) (question user session : string)
    (tokens : PurviewTokens) (w1 w2 w3 w4 : World) (etagIdentifier : string) (up : jsval)
    (seq1 : nat) (processedLlmResponse processContentResponse : string) (verdict : jsval) :
  let body :=
    constructProcessContentRequestBody processedLlmResponse "BuildDemo-P4AI"
      seq1 session "downloadText" (str_or (AZURE_AD_API_ID env) EmptyString) in
  accepted_request env request question user session ->
  getPurviewAccessTokens env request {| store := st; trace := [] |} = (Val tokens, w1) ->
  resolveProtectionScope env user (oboToken tokens) w1
    = (Val (etagIdentifier, up, JStr "evaluateInline"), w2) ->
  promptGating env question session (oboToken tokens) etagIdentifier up
    (stored_sequence st session) w2 = (Val seq1, w3) ->
  answering env question session tokens w3 = (Val processedLlmResponse, w4) ->
  invokeProcessContentApi env (oboToken tokens) etagIdentifier body
    = Returned processContentResponse ->
  JSON_parse env processContentResponse = Returned verdict ->
  actionMode verdict = JStr "restrictAccess" ->
  (postChats env request st).1.1 = block_response session
  /\ (postChats env request st).2
     = trace w4 ++ [EvProcessContent (oboToken tokens) etagIdentifier body]
  /\ Forall (fun e => e ≠ EvGetHistoryContext /\ is_title_call e = false
                      /\ is_offline_call e = false)
            (postChats env request st).2
  /\ seq1 = stored_sequence st session + (if is_str up "evaluateInline" then 1 else 0)
  /\ sessionSequenceMap (postChats env request st).1.2 !! session = Some (seq1 + 1).
Proof.
  intros body Hacc Htok Hscope Hprompt Hanswer Hcall Hparse Haction.
  pose (E := fun e : Event => e ≠ EvGetHistoryContext /\ is_title_call e = false
                              /\ is_offline_call e = false).
  assert (Htrace : Forall E (trace w4)).
  { apply (run_frame (frame same_store E)) in Htok;
      [|apply getPurviewAccessTokens_frame; by intros []].
    apply (run_frame (frame same_sequences E)) in Hscope;
      [|apply resolveProtectionScope_frame; by intros []].
    pose proof Hprompt as Hprompt'.
    apply (run_frame (frame same_cache E)) in Hprompt';
      [|apply promptGating_frame; by intros].
    pose proof Hanswer as Hanswer'.
    apply (run_frame (frame same_store E)) in Hanswer';
      [|apply answering_frame; [by intros [] | by intros]].
    destruct Htok as [_ (es1 & Ht1 & HF1)], Hscope as [_ (es2 & Ht2 & HF2)],
      Hprompt' as [_ (es3 & Ht3 & HF3)], Hanswer' as [_ (es4 & Ht4 & HF4)].
    rewrite Ht4, Ht3, Ht2, Ht1. cbn [trace app].
    apply Forall_app; split; [|exact HF4].
    apply Forall_app; split; [|exact HF3].
    apply Forall_app; split; [exact HF1 | exact HF2]. }
  destruct (promptGating_val _ _ _ _ _ _ _ _ _ _ Hprompt) as [_ Hseq1].
  assert (Hrun : postChats env request st
                 = (block_response session,
                    {| sessionSequenceMap :=
                         <[session := seq1 + 1]> (sessionSequenceMap (store w4));
                       sessionProtectionDataMap := sessionProtectionDataMap (store w4) |},
                    trace w4 ++ [EvProcessContent (oboToken tokens) etagIdentifier body])).
  { unfold postChats. rewrite (accepted_request_serving _ _ _ _ _ _ Hacc).
    unfold serving. rewrite bind_unfold. cbn [getSequence].
    change (default 0 (sessionSequenceMap (store {| store := st; trace := [] |}) !! session))
      with (stored_sequence st session).
    rewrite bind_unfold, Htok. rewrite bind_unfold, Hscope.
    unfold pipeline. cbv zeta.
    rewrite bind_unfold, Hprompt. rewrite bind_unfold, Hanswer.
    rewrite bind_unfold. unfold responseGating.
    cbn [is_str String.eqb Ascii.eqb Bool.eqb]. fold body.
    rewrite bind_unfold.
    rewrite (call_returned _ _ _ _ Hcall).
    rewrite bind_unfold, Hparse. cbn [await mret M_ret].
    rewrite Haction. reflexivity. }
  rewrite Hrun. cbn [fst snd].
  split; [done|]. split; [done|]. split.
  - apply Forall_app. split; [exact Htrace|]. by repeat constructor.
  - split; [exact Hseq1|]. cbn. apply lookup_insert_eq.
Qed.

(** ** The scope cache *)


(** An event that carries an etag carries this one. *)
Definition uses_etag (etagIdentifier : string) (e : Event) : Prop :=
  match e with
  | EvProcessContent _ etag' _ => etag' = etagIdentifier
  | EvEnqueueOffline task => off_etag task = etagIdentifier
  | _ => True
  end.

Lemma respects_weaken {A} (R R' : World -> World -> Prop) (m : M A) :
  (forall w w', R w w' -> R' w w') -> respects R m -> respects R' m.
Proof. intros HR Hm w. apply HR, Hm. Qed.

Lemma pipeline_frame env question session tokens etagIdentifier up down seq :
  respects (frame same_cache (fun e => is_scope_call e = false /\ uses_etag etagIdentifier e))
    (pipeline env question session tokens etagIdentifier up down seq).
Proof.
  unfold pipeline. cbv zeta.
  apply respects_bind; [intros ? ? ?; frame_side | | intros ?].
  { apply promptGating_frame. by intros. }
  apply respects_bind; [intros ? ? ?; frame_side | | intros ?].
  { eapply respects_weaken; [apply frame_same_store_cache|].
    apply answering_frame; [by intros [] | by intros]. }
  apply respects_bind; [intros ? ? ?; frame_side | | intros ?].
  { apply responseGating_frame. by intros. }
  apply respects_bind; [intros ? ? ?; frame_side | | intros ?].
  { eapply respects_weaken; [apply frame_same_store_cache|].
    apply titling_frame; [done | by intros []]. }
  apply respects_bind; [intros ? ? ?; frame_side | | intros ?].
  { apply reporting_frame. by intros. }
  frame_step.
Qed.

Lemma str_or_nonempty o d : d ≠ EmptyString -> str_or o d ≠ EmptyString.
Proof.
  intros Hd. unfold str_or. destruct o as [s|]; [|done].
  destruct s; simpl; done.
Qed.


(** A cached user: no call, no write, the cached etag and modes. *)
Lemma resolveProtectionScope_cached env user accessToken w d :
  has_etag (sessionProtectionDataMap (store w) !! user) = Some d ->
  resolveProtectionScope env user accessToken w
  = (Val (Cache.etag d, mode_of (Cache.activityExecutionMap d) "uploadText",
          mode_of (Cache.activityExecutionMap d) "downloadText"), w).
Proof.
  intros Hd. unfold resolveProtectionScope. rewrite bind_unfold.
  cbn [getProtectionData]. by rewrite Hd.
Qed.



Lemma serve_cons env request rest st :
  serve ((env, request) :: rest) st
  = ((serve rest (postChats env request st).1.2).1,
     ((postChats env request st).1.1, (postChats env request st).2)
       :: (serve rest (postChats env request st).1.2).2).
Proof.
  simpl. destruct (postChats env request st) as [[r st'] tr]. simpl.
  by destruct (serve rest st').
Qed.



(** *** A request of a cached user *)







(** *** Requests that overlap *)

(** [resolveProtectionScope] up to its [await] (source lines 239-252):
    the entry of the cache is read and, when it has no etag, the scope
    call is issued. *)
Definition scope_begin (userId accessToken : string) : M (option Cache.entry) :=
  storedSessionData ← getProtectionData userId;
  match has_etag storedSessionData with
  | Some d => mret (Some d)
  | None => emits [EvProtectionScope accessToken];; mret None
  end.

(** [resolveProtectionScope] from the answer of the scope call on (source
    lines 252-272), when the handler is resumed. *)
Definition scope_resume (env : Env) (userId : string)
    (answer : outcome (jsval * option string)) : M (string * jsval * jsval) :=
  '(apiResponse, returnedEtag) ← await answer;
  let etagIdentifier := str_or returnedEtag "default" in
  modes ← await (processProtectionScopeApiResponse (AZURE_AD_API_ID env) apiResponse);
  setProtectionData userId
    {| Cache.etag := etagIdentifier;
       Cache.activityExecutionMap := activityExecutionMap modes |};;
  mret (etagIdentifier, uploadTextExecutionMode modes, downloadTextExecutionMode modes).

(** The two parts, run without anything in between, are
    [resolveProtectionScope]. *)
Lemma resolveProtectionScope_split env userId accessToken w :
  resolveProtectionScope env userId accessToken w
  = (d ← scope_begin userId accessToken;
     match d with
     | Some d =>
         mret (Cache.etag d,
               mode_of (Cache.activityExecutionMap d) "uploadText",
               mode_of (Cache.activityExecutionMap d) "downloadText")
     | None => scope_resume env userId (invokeProtectionScopeApi env accessToken)
     end) w.
Proof.
  unfold resolveProtectionScope, scope_begin, scope_resume, call.
  rewrite !bind_unfold. cbn [getProtectionData].
  destruct (has_etag (sessionProtectionDataMap (store w) !! userId)) as [d|];
    [reflexivity|].
  by destruct (invokeProtectionScopeApi env accessToken) as [[apiResponse returnedEtag]|].
Qed.

(** ** The citation rewrite *)

(** *** Strings *)

Fixpoint has (c : ascii) (s : string) : bool :=
  match s with
  | EmptyString => false
  | String d s' => Ascii.eqb d c || has c s'
  end.

Lemma has_app c s1 s2 : has c (s1 +:+ s2) = has c s1 || has c s2.
Proof. induction s1 as [|d s1 IH]; simpl; [done|]. by rewrite IH, orb_assoc. Qed.

Lemma append_cons c s t : String c s +:+ t = String c (s +:+ t).
Proof. reflexivity. Qed.

Lemma append_nil_l t : EmptyString +:+ t = t.
Proof. reflexivity. Qed.

Lemma append_nil_r s : s +:+ EmptyString = s.
Proof. induction s as [|c s IH]; [done|]. by rewrite append_cons, IH. Qed.

Lemma append_assoc s1 s2 s3 : (s1 +:+ s2) +:+ s3 = s1 +:+ (s2 +:+ s3).
Proof. induction s1 as [|c s1 IH]; [done|]. by rewrite !append_cons, IH. Qed.

Lemma length_append s1 s2 :
  String.length (s1 +:+ s2) = String.length s1 + String.length s2.
Proof. induction s1 as [|c s1 IH]; [done|]. rewrite append_cons. simpl. by rewrite IH. Qed.

Lemma prefix_append p t : String.prefix p (p +:+ t) = true.
Proof.
  induction p as [|c p IH]; [by destruct t|].
  rewrite append_cons. simpl.
  destruct (ascii_dec c c); [exact IH | done].
Qed.

Lemma prefix_inv p : forall s, String.prefix p s = true -> exists t, s = p +:+ t.
Proof.
  induction p as [|c p IH]; intros s Hp; [by exists s|].
  destruct s as [|d s]; [done|]. simpl in Hp.
  destruct (ascii_dec c d) as [->|]; [|done].
  destruct (IH s Hp) as [t ->]. by exists t.
Qed.

Lemma prefix_false_append p s t : String.prefix p (s +:+ t) = false -> String.prefix p s = false.
Proof.
  intros H. destruct (String.prefix p s) eqn:Hp; [|done].
  destruct (prefix_inv _ _ Hp) as [u ->].
  by rewrite append_assoc, prefix_append in H.
Qed.

(** Two ways of cutting one string. *)
Lemma append_eq_append a : forall b c d,
  a +:+ b = c +:+ d ->
  (exists m, a = c +:+ m /\ d = m +:+ b) \/ (exists m, c = a +:+ m /\ b = m +:+ d).
Proof.
  induction a as [|x a IH]; intros b c d H.
  - right. by exists c.
  - destruct c as [|y c].
    + left. exists (String x a). split; [done | exact (eq_sym H)].
    + rewrite !append_cons in H. injection H as -> H.
      destruct (IH _ _ _ H) as [[m [-> ->]]|[m [-> ->]]].
      * left. by exists m.
      * right. by exists m.
Qed.

(** The text up to the first occurrence of a character is determined. *)
Lemma first_occurrence c x : forall y a b,
  has c x = false -> has c y = false ->
  x +:+ String c a = y +:+ String c b -> x = y /\ a = b.
Proof.
  induction x as [|d x IH]; intros y a b Hx Hy H.
  - destruct y as [|e y]; [by injection H as ->|].
    rewrite append_nil_l, append_cons in H.
    injection H as <- _. simpl in Hy. by rewrite Ascii.eqb_refl in Hy.
  - simpl in Hx. apply orb_false_elim in Hx as [Hd Hx].
    destruct y as [|e y].
    + rewrite append_nil_l, append_cons in H.
      injection H as -> _. by rewrite Ascii.eqb_refl in Hd.
    + simpl in Hy. apply orb_false_elim in Hy as [_ Hy].
      rewrite !append_cons in H. injection H as -> H.
      destruct (IH _ _ _ Hx Hy H) as [-> ->]. done.
Qed.

(** [s] contains [t]. *)
Definition occurs (t s : string) : Prop := exists a b, s = a +:+ t +:+ b.

Lemma occurs_cons t c s : occurs t s -> occurs t (String c s).
Proof. intros (a & b & ->). by exists (String c a), b. Qed.

Lemma occurs_append_l t u s : occurs t s -> occurs t (u +:+ s).
Proof. intros (a & b & ->). exists (u +:+ a), b. by rewrite append_assoc. Qed.

Lemma includes_of_prefix s p : String.prefix p s = true -> Js.includes s p = true.
Proof. intros H. destruct s; cbn [Js.includes]; by rewrite H. Qed.

Lemma includes_occurs s p : occurs p s -> Js.includes s p = true.
Proof.
  intros (a & b & ->). induction a as [|c a IH].
  - rewrite append_nil_l. apply includes_of_prefix, prefix_append.
  - rewrite append_cons. cbn [Js.includes]. rewrite IH. apply orb_true_r.
Qed.

(** *** One [replaceAll] with a replacement without [$] *)

Section Literal.

Variable pat rep : string.
Hypothesis pat_nonempty : Js.is_empty pat = false.
Hypothesis rep_plain : has Js.dollar rep = false.

Lemma getSubstitution_plain matched before after : forall template,
  has Js.dollar template = false ->
  Replace.getSubstitution matched before after template = template.
Proof.
  induction template as [|c t IH]; intros H; simpl in *; [done|].
  apply orb_false_elim in H as [Hc Ht]. rewrite Hc. by rewrite IH.
Qed.

Lemma scan_before s : forall before before' skip,
  Replace.scan pat rep before skip s = Replace.scan pat rep before' skip s.
Proof.
  induction s as [|c s IH]; intros before before' skip; cbn [Replace.scan].
  - rewrite pat_nonempty. done.
  - destruct skip as [|k]; [|apply IH].
    rewrite pat_nonempty, !getSubstitution_plain by done.
    destruct (String.prefix pat (String c s));
      by rewrite (IH _ (before' +:+ String c EmptyString)).
Qed.

Lemma scan_skip u : forall before t,
  Replace.scan pat rep before (String.length u) (u +:+ t)
  = Replace.scan pat rep EmptyString 0 t.
Proof.
  induction u as [|c u IH]; intros before t.
  - apply scan_before.
  - rewrite append_cons. cbn [String.length Replace.scan]. apply IH.
Qed.

Lemma pat_cons : exists c p, pat = String c p.
Proof.
  generalize pat_nonempty. generalize pat.
  intros [|c p]; [done|]. eauto.
Qed.

Definition replaced (s : string) : string := Replace.replaceAll s pat rep.

Lemma replaced_match t : replaced (pat +:+ t) = rep +:+ replaced t.
Proof.
  unfold replaced, Replace.replaceAll.
  destruct pat_cons as (c & p & Hpat).
  assert (Hs : pat +:+ t = String c (p +:+ t)) by by rewrite Hpat.
  rewrite Hs. cbn [Replace.scan]. rewrite <- Hs.
  rewrite prefix_append, pat_nonempty.
  rewrite getSubstitution_plain by done.
  replace (String.length pat - 1) with (String.length p) by (rewrite Hpat; simpl; lia).
  by rewrite scan_skip.
Qed.

Lemma replaced_copy c s :
  String.prefix pat (String c s) = false ->
  replaced (String c s) = String c (replaced s).
Proof.
  intros Hp. unfold replaced, Replace.replaceAll. cbn [Replace.scan].
  rewrite Hp. f_equal. apply scan_before.
Qed.

End Literal.

(** *** Citation tokens *)

(** The token [[inner]]. *)
Definition token (inner : string) : string := "[" +:+ inner +:+ "]".

Definition bracket_free (s : string) : Prop :=
  has "["%char s = false /\ has "]"%char s = false.

Lemma token_append inner t :
  token inner +:+ t = String "["%char (inner +:+ String "]"%char t).
Proof. unfold token. by rewrite !append_cons, append_nil_l, append_assoc. Qed.

Lemma token_cons inner : token inner = String "["%char (inner +:+ "]").
Proof. reflexivity. Qed.

Lemma token_nonempty inner : Js.is_empty (token inner) = false.
Proof. reflexivity. Qed.

Lemma prefix_token_head inner c s :
  String.prefix (token inner) (String c s) = true -> c = "["%char.
Proof.
  rewrite token_cons. cbn [String.prefix].
  destruct (ascii_dec "[" c) as [<-|]; done.
Qed.

(** A token at the head of a text is the only token there. *)
Lemma token_head_unique x y t u :
  bracket_free x -> bracket_free y ->
  token x +:+ t = token y +:+ u -> x = y /\ t = u.
Proof.
  intros [_ Hx] [_ Hy]. rewrite !token_append. intros [= H].
  by apply (first_occurrence "]"%char).
Qed.

Section OnePass.

Variable f g : string.
Hypothesis f_free : bracket_free f.
Hypothesis g_free : bracket_free g.
Hypothesis g_plain : has Js.dollar g = false.

(** One turn of the loop, for a document with bare reference [token f]
    and formatted reference [token g]. *)
Definition pass (s : string) : string := Replace.replaceAll s (token f) (token g).

Lemma token_plain : has Js.dollar (token g) = false.
Proof. unfold token. rewrite !has_app, g_plain. reflexivity. Qed.

Lemma pass_nil : pass EmptyString = EmptyString.
Proof. reflexivity. Qed.

Lemma pass_match t : pass (token f +:+ t) = token g +:+ pass t.
Proof. apply replaced_match; [apply token_nonempty | apply token_plain]. Qed.

Lemma pass_copy c s :
  String.prefix (token f) (String c s) = false -> pass (String c s) = String c (pass s).
Proof. apply replaced_copy; [apply token_nonempty | apply token_plain]. Qed.

Lemma prefix_token x t :
  bracket_free x -> String.prefix (token f) (token x +:+ t) = true -> x = f.
Proof.
  intros Hx Hp. destruct (prefix_inv _ _ Hp) as [u Hu].
  by destruct (token_head_unique _ _ _ _ Hx f_free Hu).
Qed.

(** Text without an opening bracket is copied. *)
Lemma pass_plain u : forall s,
  has "["%char u = false -> pass (u +:+ s) = u +:+ pass s.
Proof.
  induction u as [|c u IH]; intros s Hu; [done|].
  simpl in Hu. apply orb_false_elim in Hu as [Hc Hu].
  rewrite !append_cons. rewrite pass_copy; [by rewrite IH|].
  destruct (String.prefix (token f) (String c (u +:+ s))) eqn:Hp; [|done].
  apply prefix_token_head in Hp. subst c. discriminate Hc.
Qed.

Lemma pass_closing x post :
  has "["%char x = false ->
  pass (x +:+ String "]"%char post) = x +:+ String "]"%char (pass post).
Proof.
  intros Hx. rewrite pass_plain by done. rewrite pass_copy; [done|].
  destruct (String.prefix _ _) eqn:Hp; [|done].
  by apply prefix_token_head in Hp.
Qed.

(** And what the pass copies without an opening bracket was there. *)
Lemma pass_plain_inv u : forall s r,
  has "["%char u = false -> pass s = u +:+ r -> exists t, s = u +:+ t /\ pass t = r.
Proof.
  induction u as [|c u IH]; intros s r Hu H; [by exists s|].
  simpl in Hu. apply orb_false_elim in Hu as [Hc Hu].
  destruct s as [|d s]; [done|].
  destruct (String.prefix (token f) (String d s)) eqn:Hp.
  - destruct (prefix_inv _ _ Hp) as [t Ht]. rewrite Ht, pass_match in H.
    rewrite token_append, append_cons in H. injection H as <- _. done.
  - rewrite pass_copy, append_cons in H by done. injection H as -> H.
    destruct (IH _ _ Hu H) as (t & -> & Ht). by exists t.
Qed.

Lemma pass_closing_inv x s b :
  has "["%char x = false ->
  pass s = x +:+ String "]"%char b -> exists t, s = x +:+ String "]"%char t.
Proof.
  intros Hx H. destruct (pass_plain_inv _ _ _ Hx H) as (t & -> & Ht).
  destruct t as [|e t]; [done|].
  destruct (String.prefix (token f) (String e t)) eqn:Hp.
  - destruct (prefix_inv _ _ Hp) as [u Hu]. rewrite Hu, pass_match in Ht.
    rewrite token_append in Ht. discriminate Ht.
  - rewrite pass_copy in Ht by done. injection Ht as -> _. by exists t.
Qed.

(** The pattern cannot start inside [pre] and run into a token that
    follows [pre]. *)
Lemma match_before_token pre x rest t :
  pre ≠ EmptyString ->
  pre +:+ token x +:+ rest = token f +:+ t ->
  exists m, pre = token f +:+ m /\ t = m +:+ token x +:+ rest.
Proof.
  intros Hpre H.
  destruct (append_eq_append _ _ _ _ H) as [(m & Hm & Ht)|(m & Hm & Ht)]; [by exists m|].
  destruct m as [|c m].
  { exists EmptyString. rewrite append_nil_r in Hm |- *. rewrite append_nil_l in Ht |- *.
    by split. }
  exfalso. rewrite token_append, append_cons in Ht. injection Ht as <- _.
  destruct pre as [|d pre]; [done|].
  rewrite token_cons, !append_cons in Hm. injection Hm as <- Hm.
  assert (Hhas : has "["%char (f +:+ "]") = false).
  { rewrite has_app. by destruct f_free as [-> _]. }
  rewrite Hm, has_app in Hhas. simpl in Hhas. by rewrite orb_true_r in Hhas.
Qed.

(** A token in the text is rewritten when it is the bare reference, and
    copied otherwise; the text around it is rewritten on its own. *)
Lemma pass_token x post : bracket_free x -> forall pre,
  pass (pre +:+ token x +:+ post)
  = pass pre +:+ (if decide (x = f) then token g else token x) +:+ pass post.
Proof.
  intros Hx pre.
  remember (String.length pre) as n eqn:Hn. revert pre Hn.
  induction n as [n IH] using lt_wf_ind. intros pre Hn.
  destruct pre as [|c pre].
  { rewrite append_nil_l, pass_nil, append_nil_l.
    case_decide as Hxf.
    - subst x. apply pass_match.
    - rewrite token_append, pass_copy.
      + rewrite pass_closing by apply Hx. by rewrite token_append.
      + rewrite <- token_append.
        destruct (String.prefix _ _) eqn:Hp; [|done].
        by apply prefix_token in Hp. }
  destruct (String.prefix (token f) (String c pre +:+ token x +:+ post)) eqn:Hp.
  - destruct (prefix_inv _ _ Hp) as [t Ht].
    assert (Hne : String c pre ≠ EmptyString) by done.
    destruct (match_before_token _ _ _ _ Hne Ht) as (m & Hm & ->).
    rewrite Hm, append_assoc, !pass_match, append_assoc. f_equal.
    apply (IH (String.length m)); [|done].
    rewrite Hn, Hm, length_append. simpl. lia.
  - rewrite append_cons in Hp |- *. rewrite pass_copy by done.
    rewrite (IH (String.length pre)) by (simpl in Hn; lia || done).
    rewrite pass_copy; [done|].
    rewrite <- append_cons in Hp. by apply prefix_false_append in Hp.
Qed.

(** A token in the result is the formatted reference, or was in the
    text and is not the bare reference. *)
Lemma pass_occurs x : bracket_free x -> forall s,
  occurs (token x) (pass s) ->
  x = g \/ (x ≠ f /\ occurs (token x) s).
Proof.
  intros Hx s.
  remember (String.length s) as n eqn:Hn. revert s Hn.
  induction n as [n IH] using lt_wf_ind. intros s Hn (a & b & H).
  destruct s as [|c s].
  { rewrite pass_nil in H. destruct a; discriminate. }
  destruct (String.prefix (token f) (String c s)) eqn:Hp.
  - destruct (prefix_inv _ _ Hp) as [t Ht]. rewrite Ht, pass_match in H.
    assert (Hlen : String.length t < n).
    { rewrite Hn, Ht, length_append. simpl. lia. }
    assert (Hrec : occurs (token x) (pass t) -> x = g \/ x ≠ f /\ occurs (token x) (String c s)).
    { intros Hocc. destruct (IH _ Hlen t eq_refl Hocc) as [?|[? ?]]; [by left|].
      right. split; [done|]. rewrite Ht. by apply occurs_append_l. }
    destruct (append_eq_append _ _ _ _ H) as [(m & Hm & Hr)|(m & Hm & Hr)].
    + destruct a as [|d a].
      * rewrite append_nil_l in Hm, H. subst m.
        left. by destruct (token_head_unique _ _ _ _ Hx g_free (eq_sym H)).
      * destruct m as [|e m].
        { apply Hrec. exists EmptyString, b. by rewrite append_nil_l in Hr |- *. }
        exfalso. rewrite token_append, append_cons in Hr. injection Hr as <- _.
        rewrite token_cons, !append_cons in Hm. injection Hm as <- Hm.
        assert (Hhas : has "["%char (g +:+ "]") = false).
        { rewrite has_app. by destruct g_free as [-> _]. }
        rewrite Hm, has_app in Hhas. simpl in Hhas. by rewrite orb_true_r in Hhas.
    + apply Hrec. by exists m, b.
  - rewrite pass_copy in H by done.
    destruct a as [|d a].
    + rewrite append_nil_l, token_append in H. injection H as -> H.
      destruct (pass_closing_inv _ _ _ (proj1 Hx) H) as (t & ->).
      rewrite <- token_append in Hp |- *.
      right. split.
      * intros ->. by rewrite prefix_append in Hp.
      * exists EmptyString, t. by rewrite append_nil_l.
    + rewrite append_cons in H. injection H as <- H.
      assert (Hlen : String.length s < n) by (simpl in Hn; lia).
      destruct (IH _ Hlen s eq_refl) as [?|[? ?]]; [by exists a, b | by left |].
      right. split; [done|]. by apply occurs_cons.
Qed.

End OnePass.

(** *** The loop over the retrieved documents *)

Definition filename (document : Document) : string := interpolate (source document).

Definition labelName (document : Document) : string :=
  str_or (label_name document) "Unknown".

(** The text between the brackets of the formatted reference. *)
Definition labelled (document : Document) : string :=
  filename document +:+ " (Label: " +:+ labelName document +:+ ")".

(** A text without brackets and without [$]. *)
Definition plain (s : string) : bool :=
  negb (has "["%char s) && negb (has "]"%char s) && negb (has Js.dollar s).

(** The source and the label name of the document are plain. *)
Definition plain_document (document : Document) : bool :=
  plain (filename document) && plain (labelName document).

(** No source is the labelled form of a source. *)
Definition collision_free (documents : list Document) : bool :=
  forallb (fun d => forallb (fun d' => negb (String.eqb (filename d) (labelled d')))
                            documents)
          documents.

Lemma bare_reference_token document : bare_reference document = token (filename document).
Proof. reflexivity. Qed.

Lemma formattedReference_token document :
  formattedReference document = token (labelled document).
Proof.
  unfold formattedReference, token, labelled.
  rewrite !append_assoc. reflexivity.
Qed.

Lemma plain_spec s : plain s = true -> bracket_free s /\ has Js.dollar s = false.
Proof.
  unfold plain, bracket_free. intros H.
  apply andb_prop in H as [H H3]. apply andb_prop in H as [H1 H2].
  apply negb_true_iff in H1, H2, H3. done.
Qed.

Lemma plain_append s1 s2 : plain s1 = true -> plain s2 = true -> plain (s1 +:+ s2) = true.
Proof.
  unfold plain. rewrite !has_app. intros H1 H2.
  apply andb_prop in H1 as [H1 Hc]. apply andb_prop in H1 as [Ha Hb].
  apply andb_prop in H2 as [H2 Hc']. apply andb_prop in H2 as [Ha' Hb'].
  apply negb_true_iff in Ha, Hb, Hc, Ha', Hb', Hc'.
  by rewrite Ha, Hb, Hc, Ha', Hb', Hc'.
Qed.

Lemma plain_labelled document :
  plain_document document = true -> plain (labelled document) = true.
Proof.
  intros H. apply andb_prop in H as [Hf Hl]. unfold labelled.
  repeat apply plain_append; done.
Qed.

Lemma rewrite_step_pass text document :
  rewrite_step text document = pass (filename document) (labelled document) text.
Proof.
  unfold rewrite_step, pass.
  by rewrite bare_reference_token, formattedReference_token.
Qed.

(** What the loop makes of the text between the brackets of a token. *)
Fixpoint cite (documents : list Document) (inner : string) : string :=
  match documents with
  | [] => inner
  | d :: rest =>
      cite rest (if decide (inner = filename d) then labelled d else inner)
  end.

Lemma cite_app l1 l2 inner : cite (l1 ++ l2) inner = cite l2 (cite l1 inner).
Proof. revert inner. induction l1 as [|d l1 IH]; intros inner; simpl; [done|]. apply IH. Qed.

Lemma cite_other documents inner :
  Forall (fun d => inner ≠ filename d) documents -> cite documents inner = inner.
Proof.
  induction 1 as [|d rest Hd _ IH]; simpl; [done|].
  by rewrite decide_False.
Qed.

Lemma rewriteCitations_token documents : forall inner pre post,
  forallb plain_document documents = true ->
  plain inner = true ->
  rewriteCitations documents (pre +:+ token inner +:+ post)
  = rewriteCitations documents pre +:+ token (cite documents inner)
    +:+ rewriteCitations documents post.
Proof.
  unfold rewriteCitations.
  induction documents as [|d rest IH]; intros inner pre post Hdocs Hinner; [done|].
  simpl in Hdocs. apply andb_prop in Hdocs as [Hd Hrest].
  pose proof (plain_labelled _ Hd) as Hl.
  apply andb_prop in Hd as [Hf _].
  destruct (plain_spec _ Hf) as [Hf1 _].
  destruct (plain_spec _ Hl) as [Hl1 Hl2].
  destruct (plain_spec _ Hinner) as [Hi1 _].
  cbn [fold_left cite]. rewrite !rewrite_step_pass.
  rewrite (pass_token _ _ Hf1 Hl2 _ _ Hi1).
  case_decide; by rewrite IH.
Qed.

Lemma rewriteCitations_occurs documents : forall inner text,
  forallb plain_document documents = true ->
  plain inner = true ->
  occurs (token inner) (rewriteCitations documents text) ->
  Exists (fun d => inner = labelled d) documents
  \/ (Forall (fun d => inner ≠ filename d) documents /\ occurs (token inner) text).
Proof.
  unfold rewriteCitations.
  induction documents as [|d rest IH]; intros inner text Hdocs Hinner Hocc.
  { right. by split. }
  simpl in Hdocs. apply andb_prop in Hdocs as [Hd Hrest].
  pose proof (plain_labelled _ Hd) as Hl.
  apply andb_prop in Hd as [Hf _].
  destruct (plain_spec _ Hf) as [Hf1 _].
  destruct (plain_spec _ Hl) as [Hl1 Hl2].
  destruct (plain_spec _ Hinner) as [Hi1 _].
  cbn [fold_left] in Hocc. rewrite rewrite_step_pass in Hocc.
  destruct (IH _ _ Hrest Hinner Hocc) as [Hex|[Hall Hocc']].
  - left. by apply Exists_cons_tl.
  - destruct (pass_occurs _ _ Hl1 Hl2 _ Hi1 _ Hocc') as [->|[Hne Hocc'']].
    + left. by apply Exists_cons_hd.
    + right. split; [by constructor | done].
Qed.

Lemma collision_free_spec documents d d' :
  collision_free documents = true -> d ∈ documents -> d' ∈ documents ->
  filename d ≠ labelled d'.
Proof.
  unfold collision_free. rewrite forallb_forall. intros H Hd Hd'.
  apply list_elem_of_In in Hd, Hd'.
  specialize (H d Hd). rewrite forallb_forall in H. specialize (H d' Hd').
  apply negb_true_iff in H. by apply String.eqb_neq in H.
Qed.

Lemma forallb_elem_of {A} (p : A -> bool) l x : forallb p l = true -> x ∈ l -> p x = true.
Proof. rewrite forallb_forall. intros H Hx. by apply H, list_elem_of_In. Qed.

(** C7, as the code has it.  When the sources and label names of the
    retrieved documents contain no bracket and no [$], and no source is
    itself the labelled form of a source, then after the loop the bare
    reference of no retrieved document occurs in the answer, and a bare
    reference in the text has become the formatted reference of the first
    retrieved document with that source, the text around it being
    rewritten on its own. *)
Theorem C7_citations_of_plain_documents_are_labelled
    (retrievedDocuments : list Document) (llmResponse : string) :
  forallb plain_document retrievedDocuments = true ->
  collision_free retrievedDocuments = true ->
  (forall document,
     document ∈ retrievedDocuments ->
     ~ occurs (bare_reference document) (rewriteCitations retrievedDocuments llmResponse))
  /\ (forall before document after pre post,
        retrievedDocuments = before ++ document :: after ->
        Forall (fun d => filename d ≠ filename document) before ->
        rewriteCitations retrievedDocuments (pre +:+ bare_reference document +:+ post)
        = rewriteCitations retrievedDocuments pre +:+ formattedReference document
          +:+ rewriteCitations retrievedDocuments post).
Proof.
  intros Hplain Hfree. split.
  - intros document Hin Hocc.
    assert (Hf : plain (filename document) = true).
    { pose proof (forallb_elem_of _ _ _ Hplain Hin) as Hd.
      by apply andb_prop in Hd as [? _]. }
    rewrite bare_reference_token in Hocc.
    destruct (rewriteCitations_occurs _ _ _ Hplain Hf Hocc) as [Hex|[Hall _]].
    + apply Exists_exists in Hex as (d' & Hd' & Heq).
      by apply (collision_free_spec _ document d' Hfree).
    + rewrite Forall_forall in Hall. by apply (Hall document).
  - intros before document after pre post Hdocs Hbefore.
    assert (Hin : document ∈ retrievedDocuments).
    { rewrite Hdocs. apply elem_of_app. right. apply list_elem_of_here. }
    assert (Hf : plain (filename document) = true).
    { pose proof (forallb_elem_of _ _ _ Hplain Hin) as Hd.
      by apply andb_prop in Hd as [? _]. }
    rewrite bare_reference_token, formattedReference_token.
    rewrite rewriteCitations_token by done.
    assert (Hcite : cite retrievedDocuments (filename document) = labelled document).
    { rewrite Hdocs, cite_app. rewrite (cite_other before).
      - cbn [cite]. rewrite decide_True by done. apply cite_other.
        apply Forall_forall. intros d' Hd' Heq.
        apply (collision_free_spec retrievedDocuments d' document Hfree); [|done|done].
        rewrite Hdocs. apply elem_of_app. right. by apply list_elem_of_further.
      - eapply Forall_impl; [exact Hbefore|]. intros d' Hne. congruence. }
    by rewrite Hcite.
Qed.

(** The answer stage rewrites over every retrieved document, kept by the
    label filter or not, and sends only the kept ones to the model. *)
Lemma answering_rewrites_retrieved env question session tokens w processed w' :
  answering env question session tokens w = (Val processed, w') ->
  exists retrievedDocuments responseStream,
    retriever_invoke env question = Returned retrievedDocuments
    /\ ragChain_stream env question
         (filteredDocuments (acceptedAccessRight (PURVIEW_ACCEPTED_ACCESS_RIGHTS env))
            (getLabelInfo env (appToken tokens) (userName tokens)) retrievedDocuments)
         session = Returned responseStream
    /\ processed = rewriteCitations retrievedDocuments (collectStream responseStream).
Proof.
  unfold answering. rewrite bind_unfold.
  destruct (initialise_backend env) as [[]|message]; simpl; [|done].
  rewrite bind_unfold.
  destruct (retriever_invoke env question) as [retrievedDocuments|message]; simpl; [|done].
  rewrite bind_unfold. cbn [emits]. rewrite bind_unfold.
  destruct (ragChain_stream env question _ session) as [responseStream|message] eqn:Hrag;
    simpl; [|done].
  intros [= <- _]. by exists retrievedDocuments, responseStream.
Qed.

(** ** Stored sequence numbers never decrease *)

Definition grows (st st' : Store) : Prop :=
  forall session, stored_sequence st session <= stored_sequence st' session.

Lemma grows_refl st : grows st st.
Proof. intros session. lia. Qed.

Lemma grows_trans st1 st2 st3 : grows st1 st2 -> grows st2 st3 -> grows st1 st3.
Proof. intros H1 H2 session. specialize (H1 session). specialize (H2 session). lia. Qed.

Lemma grows_same_sequences st st' : same_sequences st st' -> grows st st'.
Proof. intros H session. unfold stored_sequence. rewrite H. lia. Qed.

Lemma grows_setSequence session n w :
  stored_sequence (store w) session <= n ->
  grows (store w) (store (setSequence session n w).2).
Proof.
  intros Hn session'. unfold stored_sequence at 2. cbn.
  destruct (decide (session = session')) as [<-|Hne].
  - by rewrite lookup_insert_eq.
  - rewrite lookup_insert_ne by done. unfold stored_sequence. lia.
Qed.

(** The two inline evaluations: the maps grow, and when the text is let
    through they are unchanged and the local number has not decreased. *)
Ltac gating_sequence Hn :=
  match goal with
  | |- context [is_str ?mode "evaluateInline"] => destruct (is_str mode "evaluateInline")
  end;
  [ rewrite bind_unfold;
    match goal with
    | |- context [invokeProcessContentApi ?e ?a ?t ?b] =>
        destruct (invokeProcessContentApi e a t b) as [response|message]
    end; simpl; [|split; [apply grows_refl | done]];
    rewrite bind_unfold;
    match goal with
    | |- context [JSON_parse ?e ?r] => destruct (JSON_parse e r) as [verdict|message]
    end; simpl; [|split; [apply grows_refl | done]];
    match goal with
    | |- context [is_str ?v "restrictAccess"] => destruct (is_str v "restrictAccess")
    end; simpl;
    [ split; [|done];
      match goal with
      | |- grows _ ?st =>
          let session := fresh "session" in
          intros session; unfold stored_sequence at 2; cbn;
          match goal with
          | |- context [<[?k := _]> _ !! _] =>
              destruct (decide (k = session)) as [<-|Hne];
              [rewrite lookup_insert_eq; simpl; lia
              |rewrite lookup_insert_ne by done; unfold stored_sequence; lia]
          end
      end
    | split; [apply grows_refl|]; intros n' [= <-]; split; [lia | done] ]
  | simpl; split; [apply grows_refl|]; intros n' [= <-]; split; [lia | done] ].

Lemma promptGating_sequence env question session accessToken etagIdentifier up n w :
  stored_sequence (store w) session <= n ->
  let run := promptGating env question session accessToken etagIdentifier up n w in
  grows (store w) (store run.2)
  /\ forall n', run.1 = Val n' -> n <= n' /\ store run.2 = store w.
Proof. intros Hn. unfold promptGating. cbv zeta. gating_sequence Hn. Qed.

Lemma responseGating_sequence env processed session accessToken etagIdentifier down n w :
  stored_sequence (store w) session <= n ->
  let run := responseGating env processed session accessToken etagIdentifier down n w in
  grows (store w) (store run.2)
  /\ forall n', run.1 = Val n' -> n <= n' /\ store run.2 = store w.
Proof. intros Hn. unfold responseGating. cbv zeta. gating_sequence Hn. Qed.

Lemma reporting_sequence env question processed session accessToken etagIdentifier up down n w :
  stored_sequence (store w) session <= n ->
  grows (store w)
    (store (reporting env question processed session accessToken etagIdentifier up down n w).2).
Proof.
  intros Hn. unfold reporting.
  destruct (_ || _); [|apply grows_refl].
  cbv zeta. rewrite bind_unfold.
  destruct (enqueueOfflinePurviewTasksAsync env _) as [status|message]; simpl;
    [|apply grows_refl].
  intros session'. unfold stored_sequence at 2. cbn.
  destruct (decide (session = session')) as [<-|Hne].
  - rewrite lookup_insert_eq. simpl. lia.
  - rewrite lookup_insert_ne by done. unfold stored_sequence. lia.
Qed.

Lemma pipeline_sequence env question session tokens etagIdentifier up down n w :
  stored_sequence (store w) session <= n ->
  grows (store w)
    (store (pipeline env question session tokens etagIdentifier up down n w).2).
Proof.
  intros Hn. unfold pipeline. cbv zeta. rewrite bind_unfold.
  destruct (promptGating_sequence env question session (oboToken tokens) etagIdentifier
              up n w Hn) as [Hg1 Hv1]. cbv zeta in Hg1, Hv1.
  destruct (promptGating _ _ _ _ _ _ _ w) as [[n1|message|r] w1]; simpl in *; try done.
  destruct (Hv1 n1 eq_refl) as [Hn1 Hs1].
  rewrite bind_unfold.
  pose proof (answering_frame env (fun _ => True) question session tokens
                ltac:(done) ltac:(done) w1) as [Hs2 _].
  destruct (answering env question session tokens w1) as [[processed|message|r] w2];
    simpl in *; unfold same_store in Hs2; try (rewrite Hs2; done).
  rewrite bind_unfold.
  assert (Hn2 : stored_sequence (store w2) session <= n1) by (rewrite Hs2, Hs1; lia).
  destruct (responseGating_sequence env processed session (oboToken tokens) etagIdentifier
              down n1 w2 Hn2) as [Hg3 Hv3]. cbv zeta in Hg3, Hv3.
  assert (Hw2 : grows (store w) (store w2)) by (rewrite Hs2; done).
  destruct (responseGating _ _ _ _ _ _ _ w2) as [[n3|message|r] w3]; simpl in *;
    try (eapply grows_trans; done).
  destruct (Hv3 n3 eq_refl) as [Hn3 Hs3].
  rewrite bind_unfold.
  pose proof (titling_frame env (fun _ => True) question ltac:(done) ltac:(done) w3)
    as [Hs4 _].
  destruct (titling env question w3) as [[[]|message|r] w4];
    simpl in *; unfold same_store in Hs4; try (rewrite Hs4, Hs3; done).
  rewrite bind_unfold.
  assert (Hn4 : stored_sequence (store w4) session <= n3) by (rewrite Hs4, Hs3; lia).
  pose proof (reporting_sequence env question processed session (oboToken tokens)
                etagIdentifier up down n3 w4 Hn4) as Hg5.
  assert (Hw4 : grows (store w) (store w4)) by (rewrite Hs4, Hs3; done).
  destruct (reporting _ _ _ _ _ _ _ _ _ w4) as [[[]|message|r] w5]; simpl in *;
    eapply grows_trans; done.
Qed.

Lemma postChats_sequence env request st :
  grows st (postChats env request st).1.2.
Proof.
  unfold postChats.
  destruct (postChats_try_cases env request {| store := st; trace := [] |})
    as [[message H]|[H|(question & user & session & Hacc)]].
  - rewrite H. apply grows_refl.
  - rewrite H. apply grows_refl.
  - rewrite (accepted_request_serving _ _ _ _ _ _ Hacc).
    unfold serving. rewrite bind_unfold. cbn [getSequence]. rewrite bind_unfold.
    change (default 0 (sessionSequenceMap (store {| store := st; trace := [] |}) !! session))
      with (stored_sequence st session).
    pose proof (getPurviewAccessTokens_frame env (fun _ => True) request ltac:(done)
                  {| store := st; trace := [] |}) as [Hs1 _].
    destruct (getPurviewAccessTokens env request _) as [[tokens|message|r] w1];
      simpl in *; unfold same_store in Hs1; try (rewrite Hs1; apply grows_refl).
    rewrite bind_unfold.
    pose proof (resolveProtectionScope_frame env (fun _ => True) user (oboToken tokens)
                  ltac:(done) w1) as [Hs2 _].
    assert (Hg2 : grows st (store (resolveProtectionScope env user (oboToken tokens) w1).2)).
    { apply grows_same_sequences. unfold same_sequences in *. by rewrite Hs2, Hs1. }
    destruct (resolveProtectionScope env user (oboToken tokens) w1)
      as [[[[etagIdentifier up] down]|message|r] w2]; simpl in *; try done.
    assert (Hn : stored_sequence (store w2) session <= stored_sequence st session).
    { unfold stored_sequence, same_sequences in *. rewrite Hs2, Hs1. lia. }
    pose proof (pipeline_sequence env question session tokens etagIdentifier up down _ _ Hn)
      as Hg3.
    destruct (pipeline _ _ _ _ _ _ _ _ w2) as [[r|message|r] w3]; simpl in *;
      eapply grows_trans; done.
Qed.

(** Over any requests served one after the other, from any maps, no
    stored sequence number decreases. *)
Lemma stored_sequence_never_decreases requests : forall st,
  grows st (serve requests st).1.
Proof.
  induction requests as [|[env request] rest IH]; intros st; [apply grows_refl|].
  rewrite serve_cons. cbn [fst].
  eapply grows_trans; [apply postChats_sequence | apply IH].
Qed.

(** ** Scenarios *)

Definition scope_body (up down : string) : jsval :=
  JObj [("value",
         JArr [JObj [("activities", JStr "uploadText");
                     ("executionMode", JStr up);
                     ("locations", JArr [JObj [("value", JStr "app-id")]])];
               JObj [("activities", JStr "downloadText");
                     ("executionMode", JStr down)]])].

Definition allow_verdict : jsval := JObj [("policyActions", JArr [])].

Definition restrict_verdict : jsval :=
  JObj [("protectionScopeState", JStr "modified");
        ("policyActions", JArr [JObj [("action", JStr "restrictAccess")]])].

Definition general_label : jsval :=
  JObj [("value", JArr [JObj [("rights", JObj [("value", JStr "View")])]])].

Definition support_document : Document :=
  {| pageContent := "Rentals are booked from the search page.";
     source := Some "support.pdf"; label_id := Some "123456789";
     label_name := Some "General" |}.

(** An environment in which every collaborator answers: the scope gives
    the two modes, and the evaluation of the prompt and of the answer give
    the two verdicts ("restrict" or anything else). *)
Definition scenario (up down promptVerdict answerVerdict : string) : Env :=
  {| uuidv4 := "2f1c7a9e-0000-4000-8000-000000000001";
     AZURE_AD_API_ID := Some "app-id";
     AZURE_AD_GRAPH_SCOPE := None;
     PURVIEW_ACCEPTED_ACCESS_RIGHTS := Some "View,Edit";
     acquireTokenOnBehalfOf := fun _ _ =>
       Returned (Some {| accessToken := "obo-token"; tenantId := "tenant";
                         username := Some "alice@contoso.com" |});
     acquireTokenByClientCredential := fun _ _ =>
       Returned (Some {| accessToken := "app-token"; tenantId := "tenant";
                         username := None |});
     invokeProtectionScopeApi := fun _ => Returned (scope_body up down, Some "etag-1");
     invokeProcessContentApi := fun _ _ body =>
       Returned (if String.eqb (pc_activity body) "uploadText"
                 then promptVerdict else answerVerdict);
     JSON_parse := fun s =>
       Returned (if String.eqb s "restrict" then restrict_verdict else allow_verdict);
     initialise_backend := Returned ();
     retriever_invoke := fun _ => Returned [support_document];
     getLabelInfo := fun _ _ _ => Returned general_label;
     ragChain_stream := fun _ _ _ => Returned ["Use the search page "; "[support.pdf]"];
     chatHistory_getContext := Returned None;
     titleModel_invoke := fun _ => Returned "Booking rentals";
     enqueueOfflinePurviewTasksAsync := fun _ => Returned "queued" |}.

Definition chat_request (auth : option string) : Request :=
  {| json := Returned {| messages := Some [{| role := "user";
                                              content := Some "How to Search and Book Rentals?" |}];
                         sessionId := Some "123" |};
     authorization := auth;
     userId := Some "1" |}.

Definition signed_request : Request := chat_request (Some "Bearer user-token").

(** ** The sequence number of a session *)

Definition inline_prompt_env : Env := scenario "evaluateInline" "default" "allow" "allow".

Definition evaluations (tr : list Event) : list Event := List.filter is_evaluation_call tr.

(** C2, what the code does.  With "uploadText" evaluated inline and let
    through, and nothing reported offline, two requests of one session
    each make one evaluation, both with sequence number 0, and no sequence
    number is stored: the handler stores the number only when it blocks or
    enqueues. *)
Theorem C2_inline_evaluations_are_not_stored :
  let run := serve [(inline_prompt_env, signed_request); (inline_prompt_env, signed_request)]
                   empty_store in
  map (fun o => status o.1) run.2 = [200; 200]
  /\ map (fun o => map (fun e => match e with
                                 | EvProcessContent _ _ body => pc_sequence body
                                 | _ => 0
                                 end) (evaluations o.2)) run.2 = [[0]; [0]]
  /\ sessionSequenceMap run.1 !! "123" = None
  /\ stored_sequence run.1 "123" = 0.
Proof. vm_compute. by repeat split. Qed.

(** ** Citations: where the spec says too much *)

Definition bracketed_label_document : Document :=
  {| pageContent := "x"; source := Some "a.txt"; label_id := Some "1";
     label_name := Some "[a.txt]" |}.

Definition dollar_label_document : Document :=
  {| pageContent := "x"; source := Some "a.txt"; label_id := Some "1";
     label_name := Some "Top$&" |}.

(** C7, as the spec has it, fails.  A label name that holds the bare
    reference leaves the bare reference in the processed answer; and a
    label name with a replacement pattern of [replaceAll] is not written
    as it is. *)
Lemma C7_bare_reference_can_remain :
  rewriteCitations [bracketed_label_document] "See [a.txt]."
    = "See [a.txt (Label: [a.txt])]."
  /\ occurs (bare_reference bracketed_label_document)
            (rewriteCitations [bracketed_label_document] "See [a.txt].")
  /\ rewriteCitations [dollar_label_document] "See [a.txt]."
     = "See [a.txt (Label: Top[a.txt])]."
  /\ ~ occurs (formattedReference dollar_label_document)
              (rewriteCitations [dollar_label_document] "See [a.txt].")
  /\ ~ (forall retrievedDocuments llmResponse document,
          document ∈ retrievedDocuments ->
          ~ occurs (bare_reference document)
                   (rewriteCitations retrievedDocuments llmResponse)).
Proof.
  assert (Hocc : occurs (bare_reference bracketed_label_document)
                   (rewriteCitations [bracketed_label_document] "See [a.txt].")).
  { by exists "See [a.txt (Label: ", ")].". }
  split; [reflexivity|]. split; [exact Hocc|]. split; [reflexivity|]. split.
  - assert (Hno : Js.includes (rewriteCitations [dollar_label_document] "See [a.txt].")
                    (formattedReference dollar_label_document) = false) by reflexivity.
    intros Hyes. apply includes_occurs in Hyes. congruence.
  - intros H. apply (H [bracketed_label_document] "See [a.txt]." bracketed_label_document).
    + apply list_elem_of_here.
    + exact Hocc.
Qed.

(** ** The theorems at work on the scenarios *)

Definition conflicting_scope : jsval :=
  JObj [("value",
         JArr [JObj [("activities", JStr "uploadText, downloadText");
                     ("executionMode", JStr "evaluateOffline")];
               JObj [("activities", JStr "uploadText");
                     ("executionMode", JStr "evaluateInline")]])].

Lemma C4_witness :
  exists modes,
    processProtectionScopeApiResponse (Some "app-id") conflicting_scope = Returned modes
    /\ activityExecutionMap modes !! "uploadText" = Some (JStr "evaluateInline")
    /\ activityExecutionMap modes !! "downloadText" = Some (JStr "evaluateOffline")
    /\ activityExecutionMap modes !! "uploadFile" = None.
Proof.
  destruct (C4_inline_wins_else_first_mode (Some "app-id") conflicting_scope
              [JObj [("activities", JStr "uploadText, downloadText");
                     ("executionMode", JStr "evaluateOffline")];
               JObj [("activities", JStr "uploadText");
                     ("executionMode", JStr "evaluateInline")]])
    as (modes & Hrun & Hmode & Habsent & _).
  - reflexivity.
  - repeat constructor; discriminate.
  - exists modes. split; [exact Hrun|].
    split; [exact (Hmode "uploadText")|].
    split; [exact (Hmode "downloadText")|].
    apply Habsent. repeat constructor.
Defined.

Definition failing_lookup (labelId : string) : outcome jsval :=
  if String.eqb labelId "broken" then Threw "getLabelInfo failed" else Returned general_label.

Definition broken_document : Document :=
  {| pageContent := "y"; source := Some "terms.pdf"; label_id := Some "broken";
     label_name := Some "General" |}.

Lemma C1_witness :
  filteredDocuments "view,edit" failing_lookup
    [support_document; broken_document; support_document]
  = [support_document; support_document].
Proof.
  destruct (C1_label_filter_keeps_accepted_labelled "view,edit" failing_lookup
              [support_document; broken_document; support_document])
    as (_ & _ & _ & Hfail).
  exact (Hfail [support_document] broken_document [support_document]
               "getLabelInfo failed" eq_refl eq_refl).
Defined.

Definition label_without_rights : jsval := JObj [("value", JArr [JObj []])].

Lemma C9_witness :
  labelTask "view,edit" (fun _ => Returned label_without_rights) support_document
  = Some support_document.
Proof.
  refine (proj1 (proj2 (C9_missing_rights_value_is_accepted
            "view,edit" (fun _ => Returned label_without_rights) support_document
            "123456789" label_without_rights _ _ _ _))).
  - reflexivity.
  - discriminate.
  - reflexivity.
  - intros s. discriminate.
Defined.

Lemma C8_witness :
  (postChats inline_prompt_env (chat_request None) empty_store).2 = []
  /\ status (postChats inline_prompt_env (chat_request (Some "Basic dXNlcg==")) empty_store).1.1
     ≠ 200.
Proof.
  split.
  - refine (proj2 (proj2 (proj2 (proj2 (C8_no_tokens_no_downstream_call
              inline_prompt_env (chat_request None) empty_store _)))) _).
    + left. reflexivity.
    + reflexivity.
  - refine (proj1 (proj2 (C8_no_tokens_no_downstream_call
              inline_prompt_env (chat_request (Some "Basic dXNlcg==")) empty_store _))).
    left. reflexivity.
Defined.

Definition blocked_prompt_env : Env := scenario "evaluateInline" "default" "restrict" "allow".

Definition scenario_tokens : PurviewTokens :=
  {| oboToken := "obo-token"; userName := "alice@contoso.com"; appToken := "app-token" |}.

Definition question_text : string := "How to Search and Book Rentals?".

(** The world after the tokens are acquired, from the empty maps. *)
Definition world_with_tokens : World :=
  {| store := empty_store;
     trace := [EvAcquireTokenOnBehalfOf "user-token" [graph_default_scope];
               EvAcquireTokenByClientCredential [graph_default_scope]
                 "https://login.microsoftonline.com/tenant"] |}.

(** The world after the scope is resolved and cached for user "1". *)
Definition world_with_scope (up down : string) : World :=
  {| store :=
       {| sessionSequenceMap := ∅;
          sessionProtectionDataMap :=
            {["1" := {| Cache.etag := "etag-1";
                        Cache.activityExecutionMap :=
                          <["downloadText" := JStr down]> (<["uploadText" := JStr up]> ∅) |}]} |};
     trace := trace world_with_tokens ++ [EvProtectionScope "obo-token"] |}.

Lemma C3_witness :
  (postChats blocked_prompt_env signed_request empty_store).1.1
    = data [ndjson_line block_message "123"] ndjson_headers
  /\ sessionSequenceMap (postChats blocked_prompt_env signed_request empty_store).1.2 !! "123"
     = Some 1.
Proof.
  destruct (C3_restricted_prompt_is_blocked blocked_prompt_env signed_request empty_store
              question_text "1" "123" scenario_tokens world_with_tokens
              (world_with_scope "evaluateInline" "default") "etag-1" (JStr "default")
              "restrict" restrict_verdict)
    as (Hresponse & _ & _ & _ & _ & Hsequence & _).
  - do 3 eexists. repeat split; try reflexivity; discriminate.
  - vm_compute. reflexivity.
  - vm_compute. reflexivity.
  - vm_compute. reflexivity.
  - vm_compute. reflexivity.
  - vm_compute. reflexivity.
  - split; [exact Hresponse | exact Hsequence].
Defined.

(** The prompt goes to offline reporting, the answer is evaluated inline
    and restricted; the session has no title. *)
Definition blocked_answer_env : Env :=
  scenario "evaluateOffline" "evaluateInline" "allow" "restrict".

Definition world_with_answer : World :=
  {| store := store (world_with_scope "evaluateOffline" "evaluateInline");
     trace := trace (world_with_scope "evaluateOffline" "evaluateInline")
              ++ [EvRetrieve question_text;
                  EvGetLabelInfo "app-token" "alice@contoso.com" "123456789";
                  EvAnswerModel question_text [support_document] "123"] |}.

Lemma C10_witness :
  (postChats blocked_answer_env signed_request empty_store).1.1 = block_response "123"
  /\ Forall (fun e => e ≠ EvGetHistoryContext /\ is_title_call e = false
                      /\ is_offline_call e = false)
            (postChats blocked_answer_env signed_request empty_store).2
  /\ sessionSequenceMap (postChats blocked_answer_env signed_request empty_store).1.2 !! "123"
     = Some 1.
Proof.
  destruct (C10_restricted_answer_skips_title_and_reporting
              blocked_answer_env signed_request empty_store
              question_text "1" "123" scenario_tokens world_with_tokens
              (world_with_scope "evaluateOffline" "evaluateInline")
              (world_with_scope "evaluateOffline" "evaluateInline")
              world_with_answer "etag-1" (JStr "evaluateOffline") 0
              "Use the search page [support.pdf (Label: General)]"
              "restrict" restrict_verdict)
    as (Hresponse & _ & Htrace & _ & Hsequence).
  - do 3 eexists. repeat split; try reflexivity; discriminate.
  - vm_compute. reflexivity.
  - vm_compute. reflexivity.
  - vm_compute. reflexivity.
  - vm_compute. reflexivity.
  - vm_compute. reflexivity.
  - vm_compute. reflexivity.
  - vm_compute. reflexivity.
  - split; [exact Hresponse|]. split; [exact Htrace | exact Hsequence].
Defined.






Lemma C7_witness :
  rewriteCitations [support_document; broken_document]
    ("See " +:+ bare_reference support_document +:+ " and [other.pdf].")
  = rewriteCitations [support_document; broken_document] "See "
    +:+ formattedReference support_document
    +:+ rewriteCitations [support_document; broken_document] " and [other.pdf].".
Proof.
  refine (proj2 (C7_citations_of_plain_documents_are_labelled
            [support_document; broken_document] EmptyString _ _)
            [] support_document [broken_document] "See " " and [other.pdf]." _ _).
  - reflexivity.
  - reflexivity.
  - reflexivity.
  - constructor.
Defined.

(** * Further properties of the handler *)

(** ** How a request can end *)

(** [exits P m]: when [m] ends with a [return], the response is in [P]. *)
Definition exits {A} (P : Response -> Prop) (m : M A) : Prop :=
  forall w, match (m w).1 with Ret r => P r | _ => True end.

(** [yields Q m]: when [m] ends with a value, the value is in [Q]. *)
Definition yields {A} (Q : A -> Prop) (m : M A) : Prop :=
  forall w, match (m w).1 with Val a => Q a | _ => True end.

Lemma exits_bind {A B} P (m : M A) (f : A -> M B) :
  exits P m -> (forall a, exits P (f a)) -> exits P (m ≫= f).
Proof.
  intros Hm Hf w. rewrite bind_unfold. specialize (Hm w).
  destruct (m w) as [[a|e|r] w']; simpl in *; [apply Hf | done | done].
Qed.

Lemma yields_bind {A B} Q (m : M A) (f : A -> M B) :
  (forall a, yields Q (f a)) -> yields Q (m ≫= f).
Proof.
  intros Hf w. rewrite bind_unfold.
  destruct (m w) as [[a|e|r] w']; simpl; [apply Hf | done | done].
Qed.

Lemma exits_await {A} P (o : outcome A) : exits P (await o).
Proof. by destruct o. Qed.

Lemma exits_call {A} P e (o : outcome A) : exits P (call e o).
Proof. intros w. by destruct o. Qed.

Ltac exits_step :=
  lazymatch goal with
  | |- exits _ (mret _) => by intros ?
  | |- exits _ (throw _) => by intros ?
  | |- exits _ (await _) => apply exits_await
  | |- exits _ (call _ _) => apply exits_call
  | |- exits _ (emits _) => by intros ?
  | |- exits _ (setSequence _ _) => by intros ?
  | |- exits _ (setProtectionData _ _) => by intros ?
  | |- exits _ (getProtectionData _) => by intros ?
  | |- exits _ (getSequence _) => by intros ?
  | |- exits _ (return_ _) => intros ?; cbn
  | |- exits _ (mbind _ _) => apply exits_bind; [|intros ?]
  | |- exits _ (if ?b then _ else _) => destruct b
  | |- exits _ (match ?x with _ => _ end) => destruct x
  | |- exits _ (let _ := _ in _) => cbv zeta
  end.

Section Exits.

Variable env : Env.

Lemma getPurviewAccessTokens_exits request :
  exits (fun _ => False) (getPurviewAccessTokens env request).
Proof.
  unfold getPurviewAccessTokens, getAccessTokensthroughMSAL. repeat exits_step.
Qed.

Lemma resolveProtectionScope_exits user accessToken :
  exits (fun _ => False) (resolveProtectionScope env user accessToken).
Proof. unfold resolveProtectionScope. repeat exits_step. Qed.

Lemma promptGating_exits question session accessToken etagIdentifier up n :
  exits (fun r => r = block_response session)
    (promptGating env question session accessToken etagIdentifier up n).
Proof. unfold promptGating. repeat exits_step. done. Qed.

Lemma responseGating_exits processed session accessToken etagIdentifier down n :
  exits (fun r => r = block_response session)
    (responseGating env processed session accessToken etagIdentifier down n).
Proof. unfold responseGating. repeat exits_step. done. Qed.

Lemma answering_exits question session tokens :
  exits (fun _ => False) (answering env question session tokens).
Proof. unfold answering. repeat exits_step. Qed.

Lemma titling_exits question : exits (fun _ => False) (titling env question).
Proof. unfold titling. repeat exits_step. Qed.

Lemma reporting_exits question processed session accessToken etagIdentifier up down n :
  exits (fun _ => False)
    (reporting env question processed session accessToken etagIdentifier up down n).
Proof. unfold reporting. repeat exits_step. Qed.

Lemma exits_weaken {A} (P P' : Response -> Prop) (m : M A) :
  (forall r, P r -> P' r) -> exits P m -> exits P' m.
Proof. intros HP Hm w. specialize (Hm w). destruct (m w).1; auto. Qed.

Lemma serving_exits request question user session :
  exits (fun r => r = block_response session) (serving env request question user session).
Proof.
  unfold serving, pipeline.
  apply exits_bind; [by intros ?|intros n].
  apply exits_bind; [eapply exits_weaken; [|apply getPurviewAccessTokens_exits]; done|].
  intros tokens.
  apply exits_bind; [eapply exits_weaken; [|apply resolveProtectionScope_exits]; done|].
  intros [[etagIdentifier up] down]. cbv zeta.
  apply exits_bind; [apply promptGating_exits|intros n1].
  apply exits_bind; [eapply exits_weaken; [|apply answering_exits]; done|intros processed].
  apply exits_bind; [apply responseGating_exits|intros n2].
  apply exits_bind; [eapply exits_weaken; [|apply titling_exits]; done|intros []].
  apply exits_bind; [eapply exits_weaken; [|apply reporting_exits]; done|intros []].
  by intros ?.
Qed.

Lemma serving_yields request question user session :
  yields (fun r => exists content, r = data [ndjson_line content session] ndjson_headers)
    (serving env request question user session).
Proof.
  unfold serving, pipeline.
  apply yields_bind; intros n. apply yields_bind; intros tokens.
  apply yields_bind; intros [[etagIdentifier up] down]. cbv zeta.
  apply yields_bind; intros n1. apply yields_bind; intros processed.
  apply yields_bind; intros n2. apply yields_bind; intros [].
  apply yields_bind; intros []. intros w. simpl. by exists processed.
Qed.

End Exits.

(** The session of a request: the one in the body, or a fresh one. *)
Definition session_of (env : Env) (request : Request) : string :=
  match json request with
  | Returned requestBody => str_or (sessionId requestBody) (uuidv4 env)
  | Threw _ => EmptyString
  end.

Lemma accepted_request_session env request question user session :
  accepted_request env request question user session -> session = session_of env request.
Proof.
  intros (rb & ms & m & Hjson & _ & _ & _ & _ & _ & _ & -> & _).
  unfold session_of. by rewrite Hjson.
Qed.

(** X1. Whatever the request and whatever the collaborators answer, the
    response is the 400 of the validation, the 503 with its fixed text (the
    message of the error is not sent), or a stream of exactly one chunk, an
    NDJSON line for the session of the request, with the NDJSON headers. *)
Theorem postChats_response_shape (env : Env) (request : Request) (st : Store) :
  let r := (postChats env request st).1.1 in
  r = invalid_body
  \/ r = unavailable
  \/ exists content,
       r = data [ndjson_line content (session_of env request)] ndjson_headers
       /\ one_line (ndjson_line content (session_of env request)).
Proof.
  cbv zeta. unfold postChats.
  destruct (postChats_try_cases env request {| store := st; trace := [] |})
    as [[message H]|[H|(question & user & session & Hacc)]].
  - rewrite H. by right; left.
  - rewrite H. by left.
  - rewrite (accepted_request_serving _ _ _ _ _ _ Hacc).
    rewrite <- (accepted_request_session _ _ _ _ _ Hacc).
    pose proof (serving_exits env request question user session
                  {| store := st; trace := [] |}) as He.
    pose proof (serving_yields env request question user session
                  {| store := st; trace := [] |}) as Hy.
    destruct (serving env request question user session _) as [[r|message|r] w];
      simpl in *.
    + destruct Hy as [content ->]. right; right. exists content.
      split; [done | apply ndjson_line_one_line].
    + by right; left.
    + subst r. right; right. exists block_message.
      split; [done | apply ndjson_line_one_line].
Qed.

(** For a body of the declared type, the handler answers 400 exactly when
    the body is parsed, its [messages] array is not empty, and the content
    of the last message, the user or the session is missing or empty; and
    then nothing is called and nothing is stored. *)
Lemma typed_bad_request_iff (env : Env) (request : Request) (st : Store) :
  ((postChats env request st).1.1 = invalid_body <->
   exists requestBody ms m,
     json request = Returned requestBody
     /\ messages requestBody = Some ms /\ last ms = Some m
     /\ (falsy (content m) || falsy (userId request)
         || Js.is_empty (str_or (sessionId requestBody) (uuidv4 env))) = true)
  /\ ((postChats env request st).1.1 = invalid_body ->
      (postChats env request st).1.2 = st /\ (postChats env request st).2 = []).
Proof.
  unfold postChats.
  destruct (json request) as [requestBody|message] eqn:Hjson.
  2:{ unfold postChats_try. rewrite bind_unfold, Hjson. simpl. split; [|done].
      split; [done|]. by intros (? & ? & ? & ? & _). }
  destruct (messages requestBody) as [ms|] eqn:Hms.
  2:{ unfold postChats_try. rewrite bind_unfold, Hjson. simpl.
      rewrite bind_unfold, Hms. simpl. split; [|done].
      split; [done|]. intros (? & ? & ? & [= <-] & ? & _). congruence. }
  destruct (last ms) as [m|] eqn:Hlast.
  2:{ unfold postChats_try. rewrite bind_unfold, Hjson. simpl.
      rewrite bind_unfold, Hms. simpl. rewrite Hlast. simpl. split; [|done].
      split; [done|]. intros (? & ? & ? & [= <-] & ? & ? & _). congruence. }
  assert (Hlen : (length ms =? 0) = false) by (by destruct ms).
  destruct (falsy (content m) || falsy (userId request)
            || Js.is_empty (str_or (sessionId requestBody) (uuidv4 env))) eqn:Hbad.
  - assert (Hrun : postChats_try env request {| store := st; trace := [] |}
                   = (Ret invalid_body, {| store := st; trace := [] |})).
    { unfold postChats_try. rewrite bind_unfold, Hjson. simpl.
      rewrite bind_unfold, Hms. simpl. rewrite Hlast. simpl.
      unfold invalid_request. rewrite Hlen. simpl.
      rewrite <- !orb_assoc in Hbad |- *. by rewrite Hbad. }
    rewrite Hrun. simpl. split; [|done]. split; [|done].
    intros _. exists requestBody, ms, m. by rewrite Hbad.
  - assert (Hrun : postChats_try env request {| store := st; trace := [] |}
                   = serving env request (default EmptyString (content m))
                       (default EmptyString (userId request))
                       (str_or (sessionId requestBody) (uuidv4 env))
                       {| store := st; trace := [] |}).
    { unfold postChats_try. rewrite bind_unfold, Hjson. simpl.
      rewrite bind_unfold, Hms. simpl. rewrite Hlast. simpl.
      unfold invalid_request. rewrite Hlen. simpl.
      rewrite <- !orb_assoc in Hbad |- *. by rewrite Hbad. }
    rewrite Hrun.
    pose proof (serving_exits env request (default EmptyString (content m))
                  (default EmptyString (userId request))
                  (str_or (sessionId requestBody) (uuidv4 env))
                  {| store := st; trace := [] |}) as He.
    pose proof (serving_yields env request (default EmptyString (content m))
                  (default EmptyString (userId request))
                  (str_or (sessionId requestBody) (uuidv4 env))
                  {| store := st; trace := [] |}) as Hy.
    destruct (serving env request _ _ _ _) as [[r|message|r] w]; simpl in *.
    + destruct Hy as [content' ->]. split; [|done]. split; [done|].
      intros (? & ? & ? & [= <-] & Hms' & Hlast' & Hbad').
      rewrite Hms in Hms'. injection Hms' as <-. rewrite Hlast in Hlast'.
      injection Hlast' as <-. congruence.
    + split; [|done]. split; [done|].
      intros (? & ? & ? & [= <-] & Hms' & Hlast' & Hbad').
      rewrite Hms in Hms'. injection Hms' as <-. rewrite Hlast in Hlast'.
      injection Hlast' as <-. congruence.
    + subst r. split; [|done]. split; [done|].
      intros (? & ? & ? & [= <-] & Hms' & Hlast' & Hbad').
      rewrite Hms in Hms'. injection Hms' as <-. rewrite Hlast in Hlast'.
      injection Hlast' as <-. congruence.
Qed.

(** ** The body as the handler receives it *)

(** [request.json()] gives any JSON value, and the cast to
    [AIChatCompletionRequest] checks nothing: source lines 209-220 on any
    value.  [RequestBody] is the view of the bodies of the declared
    type. *)
Module Raw.

(** The last code unit of a string. *)
Fixpoint last_unit (s : string) : option ascii :=
  match s with
  | EmptyString => None
  | String c s' =>
      match s' with
      | EmptyString => Some c
      | String _ _ => last_unit s'
      end
  end.

(** [messages.at(-1)]: arrays and strings have [at]; a number, a boolean
    and an object of JSON have none that can be called. *)
Definition at_last (messages : jsval) : outcome jsval :=
  match messages with
  | JUndefined | JNull =>
      Threw "TypeError: cannot read properties of undefined (reading 'at')"
  | JArr items => Returned (default JUndefined (last items))
  | JStr text =>
      Returned (match last_unit text with
                | Some c => JStr (String c EmptyString)
                | None => JUndefined
                end)
  | JBool _ | JNum _ | JObj _ => Threw "TypeError: messages.at is not a function"
  end.

(** [messages.length === 0] *)
Definition length_is_zero (messages : jsval) : bool :=
  match messages with
  | JArr items => length items =? 0
  | JStr text => Js.is_empty text
  | JObj fields =>
      match assoc "length" fields with
      | JNum n => (n =? 0)%Z
      | _ => false
      end
  | _ => false
  end.

(** [chatContext?.sessionId || uuidv4()] *)
Definition session (uuid : string) (requestBody : jsval) : jsval :=
  or_else (opt_prop (opt_prop requestBody "context") "sessionId") (JStr uuid).

(** How lines 211-220 end: with a [TypeError] (answered 503 by the
    [catch]), with the 400, or with a question, a user and a session. *)
Inductive result : Type :=
| Throws
| BadRequest
| Accepted (question userId sessionId : jsval).

(** [body] is what [request.json()] gives, [userId] what [getUserId]
    gives. *)
Definition intake (uuid : string) (body : outcome jsval) (userId : jsval) : result :=
  match body with
  | Threw _ => Throws
  | Returned requestBody =>
      (* the destructuring of line 211 throws on [null] *)
      match prop requestBody "messages" with
      | None => Throws
      | Some messages =>
          let sessionId := session uuid requestBody in
          match at_last messages with
          | Threw _ => Throws
          | Returned lastMessage =>
              match prop lastMessage "content" with
              | None => Throws
              | Some question =>
                  if negb (truthy messages) || length_is_zero messages
                     || negb (truthy question) || negb (truthy userId)
                     || negb (truthy sessionId)
                  then BadRequest
                  else Accepted question userId sessionId
              end
          end
      end
  end.

(** A body of the declared type, as JSON. *)
Definition of_option (o : option string) : jsval :=
  match o with Some s => JStr s | None => JUndefined end.

Definition of_message (m : Message) : jsval :=
  JObj [("role", JStr (role m)); ("content", of_option (content m))].

Definition of_body (b : RequestBody) : jsval :=
  JObj [("messages", match messages b with
                     | Some ms => JArr (of_message <$> ms)
                     | None => JUndefined
                     end);
        ("context", JObj [("sessionId", of_option (sessionId b))])].

Definition of_json (o : outcome RequestBody) : outcome jsval :=
  match o with
  | Returned b => Returned (of_body b)
  | Threw e => Threw e
  end.

End Raw.

Lemma truthy_of_option o : truthy (Raw.of_option o) = negb (falsy o).
Proof. by destruct o. Qed.

Lemma session_typed uuid b :
  Raw.session uuid (Raw.of_body b) = JStr (str_or (sessionId b) uuid).
Proof.
  unfold Raw.session, Raw.of_body, or_else. cbn.
  destruct (sessionId b) as [s|]; cbn; [|done]. by destruct (Js.is_empty s).
Qed.

(** On a body of the declared type, the three ends are those of the typed
    handler. *)
Lemma intake_typed (env : Env) (request : Request) :
  Raw.intake (uuidv4 env) (Raw.of_json (json request)) (Raw.of_option (userId request))
  = match json request with
    | Threw _ => Raw.Throws
    | Returned requestBody =>
        match messages requestBody with
        | None => Raw.Throws
        | Some ms =>
            match last ms with
            | None => Raw.Throws
            | Some m =>
                if falsy (content m) || falsy (userId request)
                   || Js.is_empty (str_or (sessionId requestBody) (uuidv4 env))
                then Raw.BadRequest
                else Raw.Accepted (Raw.of_option (content m))
                       (Raw.of_option (userId request))
                       (JStr (str_or (sessionId requestBody) (uuidv4 env)))
            end
        end
    end.
Proof.
  destruct (json request) as [requestBody|message]; [|done].
  unfold Raw.of_json, Raw.intake. rewrite session_typed.
  change (prop (Raw.of_body requestBody) "messages")
    with (Some (match messages requestBody with
                | Some ms => JArr (Raw.of_message <$> ms)
                | None => JUndefined
                end)).
  destruct (messages requestBody) as [ms|]; [|done].
  cbn [Raw.at_last]. rewrite fmap_last.
  destruct (last ms) as [m|] eqn:Hlast; [|done].
  cbn [fmap option_fmap option_map default from_option id].
  change (prop (Raw.of_message m) "content") with (Some (Raw.of_option (content m))).
  assert (Hlen : (length (Raw.of_message <$> ms) =? 0) = false).
  { destruct ms; [done|]. done. }
  cbn [truthy negb orb Raw.length_is_zero]. rewrite Hlen. cbn [orb].
  rewrite !truthy_of_option, !negb_involutive. cbn [truthy]. done.
Qed.

Lemma last_unit_some text c : Raw.last_unit text = Some c -> Js.is_empty text = false.
Proof. by destruct text. Qed.

Lemma last_unit_none text : Raw.last_unit text = None -> text = EmptyString.
Proof.
  induction text as [|c text IH]; [done|]. cbn [Raw.last_unit].
  destruct text as [|c' text]; [done|]. intros H. by specialize (IH H).
Qed.

(** X2. Lines 209-220 on any JSON body.  The validation answers 400
    exactly when the body is not [null], its [messages] is an array or a
    string with a last element, that element is not [null], and the
    content read from it, the user id or the session id is falsy.  An
    empty array never gives 400: reading the last message throws before
    the validation, as does [messages] that is absent, [null], a number, a
    boolean or an object, and an array that ends in [null]; a non-empty
    string as [messages] gives 400, its last character having no content.
    On a body of the declared type this is when the typed handler answers
    400, and it then calls nothing and stores nothing. *)
Theorem bad_request_on_any_body :
  (forall uuid body userId,
     Raw.intake uuid body userId = Raw.BadRequest <->
     exists requestBody messages lastMessage question,
       body = Returned requestBody
       /\ prop requestBody "messages" = Some messages
       /\ ((exists items, messages = JArr items /\ last items = Some lastMessage)
           \/ (exists text c,
                 messages = JStr text /\ Raw.last_unit text = Some c
                 /\ lastMessage = JStr (String c EmptyString)))
       /\ prop lastMessage "content" = Some question
       /\ truthy question && truthy userId && truthy (Raw.session uuid requestBody) = false)
  /\ (forall env request st,
        ((postChats env request st).1.1 = invalid_body <->
         Raw.intake (uuidv4 env) (Raw.of_json (json request))
           (Raw.of_option (userId request)) = Raw.BadRequest)
        /\ ((postChats env request st).1.1 = invalid_body ->
            (postChats env request st).1.2 = st /\ (postChats env request st).2 = []))
  /\ (forall uuid userId text,
        text ≠ EmptyString ->
        Raw.intake uuid (Returned (JObj [("messages", JStr text)])) userId = Raw.BadRequest)
  /\ (forall uuid userId items,
        Raw.intake uuid (Returned (JObj [("messages", JArr (items ++ [JNull]))])) userId
        = Raw.Throws)
  /\ (forall uuid userId,
        Raw.intake uuid (Returned (JObj [("messages", JArr [])])) userId = Raw.Throws
        /\ Raw.intake uuid (Returned (JObj [])) userId = Raw.Throws
        /\ Raw.intake uuid (Returned JNull) userId = Raw.Throws).
Proof.
  assert (Hiff : forall uuid body userId,
     Raw.intake uuid body userId = Raw.BadRequest <->
     exists requestBody messages lastMessage question,
       body = Returned requestBody
       /\ prop requestBody "messages" = Some messages
       /\ ((exists items, messages = JArr items /\ last items = Some lastMessage)
           \/ (exists text c,
                 messages = JStr text /\ Raw.last_unit text = Some c
                 /\ lastMessage = JStr (String c EmptyString)))
       /\ prop lastMessage "content" = Some question
       /\ truthy question && truthy userId && truthy (Raw.session uuid requestBody) = false).
  { intros uuid body userId. unfold Raw.intake. split.
    - destruct body as [requestBody|message]; [|done].
      destruct (prop requestBody "messages") as [messages|] eqn:Hmessages; [|done].
      destruct (Raw.at_last messages) as [lastMessage|message] eqn:Hlast; [|done].
      destruct (prop lastMessage "content") as [question|] eqn:Hcontent; [|done].
      destruct (_ || _) eqn:Hbad; [|done]. intros _.
      exists requestBody, messages, lastMessage, question.
      split; [done|]. split; [done|].
      assert (Hshape : (exists items, messages = JArr items /\ last items = Some lastMessage)
                \/ (exists text c,
                      messages = JStr text /\ Raw.last_unit text = Some c
                      /\ lastMessage = JStr (String c EmptyString))).
      { destruct messages as [| |b|n|text|items|fields]; try discriminate Hlast.
        - cbn in Hlast. destruct (Raw.last_unit text) as [c|] eqn:Hc.
          + injection Hlast as <-. right. by exists text, c.
          + injection Hlast as <-. discriminate Hcontent.
        - cbn in Hlast. destruct (last items) as [x|] eqn:Hx.
          + injection Hlast as <-. left. by exists items.
          + injection Hlast as <-. discriminate Hcontent. }
      split; [exact Hshape|]. split; [done|].
      assert (Hfirst : negb (truthy messages) || Raw.length_is_zero messages = false).
      { destruct Hshape as [(items & -> & Hitems) | (text & c & -> & Hc & _)].
        - cbn. by destruct items.
        - cbn. rewrite (last_unit_some _ _ Hc). done. }
      rewrite Hfirst in Hbad. cbn [orb] in Hbad.
      destruct (truthy question), (truthy userId), (truthy (Raw.session uuid requestBody));
        done.
    - intros (requestBody & messages & lastMessage & question & -> & -> & Hshape & Hcontent
              & Hbad).
      assert (Hlast : Raw.at_last messages = Returned lastMessage
                      /\ negb (truthy messages) || Raw.length_is_zero messages = false).
      { destruct Hshape as [(items & -> & Hitems) | (text & c & -> & Hc & ->)].
        - cbn. rewrite Hitems. split; [done|]. by destruct items.
        - cbn. rewrite Hc, (last_unit_some _ _ Hc). done. }
      destruct Hlast as [-> ->]. rewrite Hcontent. cbn [orb].
      destruct (truthy question), (truthy userId), (truthy (Raw.session uuid requestBody));
        done. }
  split; [exact Hiff|]. split; [|split; [|split]].
  - intros env request st.
    destruct (typed_bad_request_iff env request st) as [Htyped Hquiet].
    split; [|exact Hquiet]. rewrite Htyped, intake_typed. split.
    + intros (requestBody & ms & m & -> & -> & -> & ->). done.
    + destruct (json request) as [requestBody|] eqn:Hjson; [|done].
      destruct (messages requestBody) as [ms|] eqn:Hms; [|done].
      destruct (last ms) as [m|] eqn:Hlast; [|done].
      destruct (_ || _) eqn:Hbad; [|done]. intros _. by exists requestBody, ms, m.
  - intros uuid userId text Htext. apply Hiff.
    destruct (Raw.last_unit text) as [c|] eqn:Hc.
    + exists (JObj [("messages", JStr text)]), (JStr text), (JStr (String c EmptyString)),
        JUndefined.
      split; [done|]. split; [done|]. split; [right; by exists text, c|]. done.
    + by apply last_unit_none in Hc.
  - intros uuid userId items. unfold Raw.intake. cbn. by rewrite last_snoc.
  - done.
Qed.

(** ** What a trace can hold *)

Lemma frame_appends {A} S E (m : M A) : respects (frame S E) m -> respects (appends E) m.
Proof. intros H w. by destruct (H w). Qed.

Section Traces.

Variable env : Env.
Variable E : Event -> Prop.

(** The stages compose: when each of them adds only events in [E], so
    does the handler. *)
Lemma serving_appends request question user session :
  respects (appends E) (getPurviewAccessTokens env request) ->
  (forall accessToken, respects (appends E) (resolveProtectionScope env user accessToken)) ->
  (forall accessToken etagIdentifier up n,
     respects (appends E)
       (promptGating env question session accessToken etagIdentifier up n)) ->
  (forall tokens, respects (appends E) (answering env question session tokens)) ->
  (forall processed accessToken etagIdentifier down n,
     respects (appends E)
       (responseGating env processed session accessToken etagIdentifier down n)) ->
  respects (appends E) (titling env question) ->
  (forall processed accessToken etagIdentifier up down n,
     respects (appends E)
       (reporting env question processed session accessToken etagIdentifier up down n)) ->
  respects (appends E) (serving env request question user session).
Proof.
  intros Htok Hscope Hprompt Hanswer Hresponse Htitle Hreport.
  unfold serving, pipeline.
  apply respects_bind; [apply appends_trans | intros w; apply appends_refl | intros n].
  apply respects_bind; [apply appends_trans | apply Htok | intros tokens].
  apply respects_bind; [apply appends_trans | apply Hscope |].
  intros [[etagIdentifier up] down]. cbv zeta.
  apply respects_bind; [apply appends_trans | apply Hprompt | intros n1].
  apply respects_bind; [apply appends_trans | apply Hanswer | intros processed].
  apply respects_bind; [apply appends_trans | apply Hresponse | intros n2].
  apply respects_bind; [apply appends_trans | apply Htitle | intros []].
  apply respects_bind; [apply appends_trans | apply Hreport | intros []].
  intros w. apply appends_refl.
Qed.

Lemma postChats_trace request st :
  (forall question user session,
     accepted_request env request question user session ->
     respects (appends E) (serving env request question user session)) ->
  Forall E (postChats env request st).2.
Proof.
  intros Hserving. unfold postChats.
  destruct (postChats_try_cases env request {| store := st; trace := [] |})
    as [[message H]|[H|(question & user & session & Hacc)]].
  - rewrite H. constructor.
  - rewrite H. constructor.
  - rewrite (accepted_request_serving _ _ _ _ _ _ Hacc).
    destruct (Hserving _ _ _ Hacc {| store := st; trace := [] |}) as (es & Ht & HF).
    simpl in Ht.
    destruct (serving env request question user session _) as [[r|message|r] w];
      simpl in *; by rewrite Ht.
Qed.

End Traces.

(** X3. When the session already has a title, no request makes a title
    call: the context of the history is read, and neither the title model
    nor the title setter is called. *)
Theorem titled_session_makes_no_title_call
    (env : Env) (request : Request) (st : Store) (title : string) :
  chatHistory_getContext env = Returned (Some title) ->
  title ≠ EmptyString ->
  Forall (fun e => is_title_call e = false) (postChats env request st).2.
Proof.
  intros Htitle Hne.
  pose (E := fun e : Event => is_title_call e = false).
  apply postChats_trace. intros question user session _.
  apply serving_appends.
  - eapply frame_appends, getPurviewAccessTokens_frame. by intros [].
  - intros. eapply frame_appends, resolveProtectionScope_frame. by intros [].
  - intros. eapply frame_appends, promptGating_frame. by intros.
  - intros. eapply frame_appends, answering_frame; [by intros [] | by intros].
  - intros. eapply frame_appends, responseGating_frame. by intros.
  - intros w. unfold titling. rewrite bind_unfold, Htitle. simpl.
    rewrite (is_empty_false _ Hne). simpl.
    exists [EvGetHistoryContext]. split; [done|]. by repeat constructor.
  - intros. eapply frame_appends, reporting_frame. by intros.
Qed.

(** The documents the label filter keeps, for the tokens of a request. *)
Definition accepted_context (env : Env) (question : string) (context : list Document)
  : Prop :=
  exists retrievedDocuments appToken userName,
    retriever_invoke env question = Returned retrievedDocuments
    /\ context = filteredDocuments (acceptedAccessRight (PURVIEW_ACCEPTED_ACCESS_RIGHTS env))
                   (getLabelInfo env appToken userName) retrievedDocuments
    /\ Forall (fun d => d ∈ retrievedDocuments
                        /\ kept (acceptedAccessRight (PURVIEW_ACCEPTED_ACCESS_RIGHTS env))
                                (getLabelInfo env appToken userName) d = true)
              context.

Lemma answering_accepted_context env question session tokens :
  respects (appends (fun e => match e with
                              | EvAnswerModel q context _ => accepted_context env q context
                              | _ => True
                              end))
    (answering env question session tokens).
Proof.
  intros w. unfold answering. rewrite bind_unfold.
  destruct (initialise_backend env) as [[]|message]; simpl; [|apply appends_refl].
  rewrite bind_unfold.
  destruct (retriever_invoke env question) as [retrievedDocuments|message] eqn:Hret; simpl.
  2:{ exists [EvRetrieve question]. split; [done|]. by repeat constructor. }
  rewrite bind_unfold. cbn [emits]. rewrite bind_unfold.
  set (context := filteredDocuments _ _ retrievedDocuments).
  assert (Hctx : accepted_context env question context).
  { exists retrievedDocuments, (appToken tokens), (userName tokens).
    split; [done|]. split; [done|].
    apply Forall_forall. intros d Hd. subst context.
    rewrite filteredDocuments_filter in Hd. by apply list_elem_of_filter in Hd as [? ?]. }
  assert (Hcalls : Forall (fun e => match e with
                                    | EvAnswerModel q context _ => accepted_context env q context
                                    | _ => True
                                    end)
                     (label_calls (appToken tokens) (userName tokens) retrievedDocuments)).
  { eapply Forall_impl; [apply label_calls_retrieval|]. by intros []. }
  destruct (ragChain_stream env question context session) as [stream|message]; simpl.
  - eexists ([EvRetrieve question] ++ label_calls _ _ retrievedDocuments
             ++ [EvAnswerModel question context session]).
    split; [by rewrite <- !app_assoc|].
    apply Forall_app. split; [by repeat constructor|].
    apply Forall_app. split; [done | by repeat constructor].
  - eexists ([EvRetrieve question] ++ label_calls _ _ retrievedDocuments
             ++ [EvAnswerModel question context session]).
    split; [by rewrite <- !app_assoc|].
    apply Forall_app. split; [by repeat constructor|].
    apply Forall_app. split; [done | by repeat constructor].
Qed.

(** X4. In every request, what the answer model is given as context is
    the output of the label filter on the documents retrieved for the
    question: each document of the context was retrieved, carries a label
    whose lookup returned, and has accepted rights. *)
Theorem model_context_is_filtered (env : Env) (request : Request) (st : Store) :
  Forall (fun e => match e with
                   | EvAnswerModel q context _ => accepted_context env q context
                   | _ => True
                   end)
         (postChats env request st).2.
Proof.
  apply postChats_trace. intros question user session _.
  apply serving_appends.
  - eapply frame_appends, getPurviewAccessTokens_frame. by intros [].
  - intros. eapply frame_appends, resolveProtectionScope_frame. by intros [].
  - intros. eapply frame_appends, promptGating_frame. by intros.
  - intros. apply answering_accepted_context.
  - intros. eapply frame_appends, responseGating_frame. by intros.
  - eapply frame_appends, titling_frame; [done | by intros []].
  - intros. eapply frame_appends, reporting_frame. by intros.
Qed.

(** ** The sequence numbers of one request *)

(** The sequence numbers sent with the evaluations of a trace, and with
    its offline tasks. *)
Definition sent_sequences (tr : list Event) : list nat :=
  omap (fun e => match e with
                 | EvProcessContent _ _ body => Some (pc_sequence body)
                 | _ => None
                 end) tr.

Definition offline_sequences (tr : list Event) : list nat :=
  omap (fun e => match e with
                 | EvEnqueueOffline task => Some (off_sequence task)
                 | _ => None
                 end) tr.

Definition quiet (e : Event) : Prop :=
  is_evaluation_call e = false /\ is_offline_call e = false.

Lemma sent_sequences_quiet es : Forall quiet es -> sent_sequences es = [].
Proof.
  induction 1 as [|e es [He _] _ IH]; [done|].
  unfold sent_sequences in *. simpl. destruct e; try done.
Qed.

Lemma offline_sequences_quiet es : Forall quiet es -> offline_sequences es = [].
Proof.
  induction 1 as [|e es [_ He] _ IH]; [done|].
  unfold offline_sequences in *. simpl. destruct e; try done.
Qed.

Lemma sent_sequences_app a b :
  sent_sequences (a ++ b) = sent_sequences a ++ sent_sequences b.
Proof. apply omap_app. Qed.

Lemma offline_sequences_app a b :
  offline_sequences (a ++ b) = offline_sequences a ++ offline_sequences b.
Proof. apply omap_app. Qed.

Section Accounting.

Variable env : Env.
Variable session : string.
Variable n0 : nat.                          (* the stored number at the start *)
Variable m0 : gmap string nat.              (* the stored numbers at the start *)

(** In the middle of a request: [k] evaluations were made, with the
    numbers [n0], ..., nothing was enqueued and nothing was stored. *)
Definition midway (k : nat) (w : World) : Prop :=
  sent_sequences (trace w) = seq n0 k
  /\ offline_sequences (trace w) = []
  /\ sessionSequenceMap (store w) = m0.

(** At the end of a request. *)
Definition accounted (w : World) : Prop :=
  exists k,
    k <= 2
    /\ sent_sequences (trace w) = seq n0 k
    /\ ((offline_sequences (trace w) = []
         /\ (sessionSequenceMap (store w) = m0
             \/ sessionSequenceMap (store w) = <[session := n0 + k]> m0))
        \/ (offline_sequences (trace w) = [n0 + k]
            /\ (sessionSequenceMap (store w) = m0
                \/ sessionSequenceMap (store w) = <[session := n0 + k + 2]> m0))).

Lemma midway_accounted k w : k <= 2 -> midway k w -> accounted w.
Proof. intros Hk (Hs & Ho & Hm). exists k. split; [done|]. split; [done|]. left. auto. Qed.

Lemma midway_quiet {A} S (m : M A) k w :
  respects (frame S quiet) m ->
  sessionSequenceMap (store (m w).2) = sessionSequenceMap (store w) ->
  midway k w -> midway k (m w).2.
Proof.
  intros Hm Hseq (Hs & Ho & Hmap). destruct (Hm w) as [_ (es & Ht & HF)].
  unfold midway. rewrite Ht, Hseq, sent_sequences_app, offline_sequences_app.
  rewrite (sent_sequences_quiet es), (offline_sequences_quiet es), !app_nil_r by done.
  done.
Qed.

Lemma midway_evaluated k w w' accessToken etagIdentifier body :
  midway k w -> pc_sequence body = n0 + k ->
  trace w' = trace w ++ [EvProcessContent accessToken etagIdentifier body] ->
  sent_sequences (trace w') = seq n0 (S k) /\ offline_sequences (trace w') = [].
Proof.
  intros (Hs & Ho & _) Hb Ht.
  rewrite Ht, sent_sequences_app, offline_sequences_app, Hs, Ho.
  by rewrite seq_S, <- Hb.
Qed.

(** One inline evaluation, for the prompt and for the answer. *)
Lemma promptGating_accounting question accessToken etagIdentifier up k w :
  midway k w -> k <= 1 ->
  let run := promptGating env question session accessToken etagIdentifier up (n0 + k) w in
  match run.1 with
  | Val n' => exists j, j <= 1 /\ n' = n0 + (k + j) /\ midway (k + j) run.2
  | _ => accounted run.2
  end.
Proof.
  intros Hmid Hk. cbv zeta. unfold promptGating.
  match goal with
  | |- context [is_str ?mode "evaluateInline"] => destruct (is_str mode "evaluateInline")
  end.
  - rewrite bind_unfold.
    match goal with
    | |- context [call ?e (invokeProcessContentApi ?v ?a ?t ?b)] =>
        pose proof (midway_evaluated _ _ (add_events [e] w) a t b Hmid eq_refl eq_refl)
          as [Hsent Hoff];
        destruct (invokeProcessContentApi v a t b) as [response|message]
    end; simpl.
    2:{ exists (S k). split; [lia|]. split; [exact Hsent|]. left. split; [exact Hoff|].
        left. apply Hmid. }
    rewrite bind_unfold.
    destruct (JSON_parse env response) as [verdict|message]; simpl.
    2:{ exists (S k). split; [lia|]. split; [exact Hsent|]. left. split; [exact Hoff|].
        left. apply Hmid. }
    destruct (is_str (actionMode verdict) "restrictAccess"); simpl.
    + exists (S k). split; [lia|]. split; [exact Hsent|]. left. split; [exact Hoff|].
      right. cbn. destruct Hmid as (_ & _ & ->).
      by replace (n0 + S k) with (n0 + k + 1) by lia.
    + exists 1. split; [lia|]. split; [lia|].
      replace (k + 1) with (S k) by lia. split; [exact Hsent|]. split; [exact Hoff|].
      apply Hmid.
  - simpl. exists 0. split; [lia|]. split; [lia|]. by rewrite Nat.add_0_r.
Qed.

Lemma responseGating_accounting processed accessToken etagIdentifier down k w :
  midway k w -> k <= 1 ->
  let run := responseGating env processed session accessToken etagIdentifier down (n0 + k) w in
  match run.1 with
  | Val n' => exists j, j <= 1 /\ n' = n0 + (k + j) /\ midway (k + j) run.2
  | _ => accounted run.2
  end.
Proof.
  intros Hmid Hk. cbv zeta. unfold responseGating.
  match goal with
  | |- context [is_str ?mode "evaluateInline"] => destruct (is_str mode "evaluateInline")
  end.
  - rewrite bind_unfold.
    match goal with
    | |- context [call ?e (invokeProcessContentApi ?v ?a ?t ?b)] =>
        pose proof (midway_evaluated _ _ (add_events [e] w) a t b Hmid eq_refl eq_refl)
          as [Hsent Hoff];
        destruct (invokeProcessContentApi v a t b) as [response|message]
    end; simpl.
    2:{ exists (S k). split; [lia|]. split; [exact Hsent|]. left. split; [exact Hoff|].
        left. apply Hmid. }
    rewrite bind_unfold.
    destruct (JSON_parse env response) as [verdict|message]; simpl.
    2:{ exists (S k). split; [lia|]. split; [exact Hsent|]. left. split; [exact Hoff|].
        left. apply Hmid. }
    destruct (is_str (actionMode verdict) "restrictAccess"); simpl.
    + exists (S k). split; [lia|]. split; [exact Hsent|]. left. split; [exact Hoff|].
      right. cbn. destruct Hmid as (_ & _ & ->).
      by replace (n0 + S k) with (n0 + k + 1) by lia.
    + exists 1. split; [lia|]. split; [lia|].
      replace (k + 1) with (S k) by lia. split; [exact Hsent|]. split; [exact Hoff|].
      apply Hmid.
  - simpl. exists 0. split; [lia|]. split; [lia|]. by rewrite Nat.add_0_r.
Qed.

Lemma reporting_accounting question processed accessToken etagIdentifier up down k w :
  midway k w -> k <= 2 ->
  accounted
    (reporting env question processed session accessToken etagIdentifier up down (n0 + k) w).2.
Proof.
  intros Hmid Hk. unfold reporting.
  destruct (_ || _); [|by apply (midway_accounted k)].
  cbv zeta. rewrite bind_unfold.
  destruct Hmid as (Hs & Ho & Hm).
  destruct (enqueueOfflinePurviewTasksAsync env _) as [status|message]; simpl.
  - exists k. split; [done|]. cbn [trace store sessionSequenceMap].
    rewrite sent_sequences_app, offline_sequences_app, Hs, Ho, Hm.
    split; [apply app_nil_r|]. right. split; [done|]. by right.
  - exists k. split; [done|]. cbn [trace store sessionSequenceMap].
    rewrite sent_sequences_app, offline_sequences_app, Hs, Ho, Hm.
    split; [apply app_nil_r|]. right. split; [done|]. by left.
Qed.

Lemma pipeline_accounting question tokens etagIdentifier up down w :
  midway 0 w ->
  accounted (pipeline env question session tokens etagIdentifier up down n0 w).2.
Proof.
  intros Hmid. unfold pipeline. cbv zeta. rewrite bind_unfold.
  pose proof (promptGating_accounting question (oboToken tokens) etagIdentifier up 0 w
                Hmid ltac:(lia)) as H1.
  cbv zeta in H1. rewrite Nat.add_0_r in H1.
  destruct (promptGating _ _ _ _ _ _ _ w) as [[n1|message|r] w1]; simpl in *; try done.
  destruct H1 as (k1 & Hk1 & -> & Hmid1).
  rewrite bind_unfold.
  assert (Hquiet : respects (frame same_store quiet) (answering env question session tokens)).
  { apply answering_frame; [by intros [] | by intros]. }
  pose proof (midway_quiet _ _ k1 w1 Hquiet) as Hmid2.
  destruct (Hquiet w1) as [Hs2 _]. unfold same_store in Hs2.
  specialize (Hmid2 ltac:(by rewrite Hs2) Hmid1).
  destruct (answering env question session tokens w1) as [[processed|message|r] w2];
    simpl in *; try (apply (midway_accounted k1); [lia | done]).
  rewrite bind_unfold.
  pose proof (responseGating_accounting processed (oboToken tokens) etagIdentifier down
                k1 w2 Hmid2 Hk1) as H3.
  cbv zeta in H3.
  destruct (responseGating _ _ _ _ _ _ _ w2) as [[n3|message|r] w3]; simpl in *; try done.
  destruct H3 as (k3 & Hk3 & -> & Hmid3).
  rewrite bind_unfold.
  assert (Hquiet4 : respects (frame same_store quiet) (titling env question)).
  { apply titling_frame; [done | by intros []]. }
  pose proof (midway_quiet _ _ (k1 + k3) w3 Hquiet4) as Hmid4.
  destruct (Hquiet4 w3) as [Hs4 _]. unfold same_store in Hs4.
  specialize (Hmid4 ltac:(by rewrite Hs4) Hmid3).
  destruct (titling env question w3) as [[[]|message|r] w4];
    simpl in *; try (apply (midway_accounted (k1 + k3)); [lia | done]).
  rewrite bind_unfold.
  pose proof (reporting_accounting question processed (oboToken tokens) etagIdentifier
                up down (k1 + k3) w4 Hmid4 ltac:(lia)) as H5.
  destruct (reporting _ _ _ _ _ _ _ _ _ w4) as [[[]|message|r] w5]; simpl in *; done.
Qed.

End Accounting.

(** X5. The sequence numbers of one request.  With [n] the number stored
    for the session when the request starts, the evaluations of the
    request, at most two, carry the numbers [n], [n + 1] in this order; an
    offline task, at most one, carries [n + k] where [k] is the number of
    evaluations made; and the stored numbers are left as they were, or the
    number of the session is set to [n + k] (on a block) or to [n + k + 2]
    (after an offline task).  No other session's number changes. *)
Theorem sequence_numbers_of_a_request
    (env : Env) (request : Request) (st : Store) (question user session : string) :
  accepted_request env request question user session ->
  let n := stored_sequence st session in
  let tr := (postChats env request st).2 in
  let stored := sessionSequenceMap (postChats env request st).1.2 in
  exists k,
    k <= 2
    /\ sent_sequences tr = seq n k
    /\ ((offline_sequences tr = []
         /\ (stored = sessionSequenceMap st
             \/ stored = <[session := n + k]> (sessionSequenceMap st)))
        \/ (offline_sequences tr = [n + k]
            /\ (stored = sessionSequenceMap st
                \/ stored = <[session := n + k + 2]> (sessionSequenceMap st)))).
Proof.
  intros Hacc n tr stored. subst tr stored.
  change (accounted session n (sessionSequenceMap st)
            {| store := (postChats env request st).1.2;
               trace := (postChats env request st).2 |}).
  assert (Hfinal : forall r w,
            postChats_try env request {| store := st; trace := [] |} = (r, w) ->
            accounted session n (sessionSequenceMap st) w).
  { intros r w. rewrite (accepted_request_serving _ _ _ _ _ _ Hacc).
    unfold serving. rewrite bind_unfold. cbn [getSequence].
    change (default 0 (sessionSequenceMap (store {| store := st; trace := [] |}) !! session))
      with n.
    rewrite bind_unfold.
    assert (Hmid0 : midway n (sessionSequenceMap st) 0 {| store := st; trace := [] |}) by done.
    assert (Hq1 : respects (frame same_store quiet) (getPurviewAccessTokens env request)).
    { apply getPurviewAccessTokens_frame. by intros []. }
    pose proof (midway_quiet n (sessionSequenceMap st) _ _ 0
                  {| store := st; trace := [] |} Hq1) as Hmid1.
    destruct (Hq1 {| store := st; trace := [] |}) as [Hs1 _]. unfold same_store in Hs1.
    specialize (Hmid1 ltac:(by rewrite Hs1) Hmid0).
    destruct (getPurviewAccessTokens env request _) as [[tokens|message|r1] w1];
      simpl in *; try (intros [= <- <-]; by apply (midway_accounted _ _ _ 0); [lia|]).
    rewrite bind_unfold.
    assert (Hq2 : respects (frame same_sequences quiet)
                    (resolveProtectionScope env user (oboToken tokens))).
    { apply resolveProtectionScope_frame. by intros []. }
    pose proof (midway_quiet n (sessionSequenceMap st) _ _ 0 w1 Hq2) as Hmid2.
    destruct (Hq2 w1) as [Hs2 _]. unfold same_sequences in Hs2.
    specialize (Hmid2 Hs2 Hmid1).
    destruct (resolveProtectionScope env user (oboToken tokens) w1)
      as [[[[etagIdentifier up] down]|message|r2] w2];
      simpl in *; try (intros [= <- <-]; by apply (midway_accounted _ _ _ 0); [lia|]).
    intros Hpipe.
    pose proof (pipeline_accounting env session n (sessionSequenceMap st) question tokens
                  etagIdentifier up down w2 Hmid2) as Hacc2.
    by rewrite Hpipe in Hacc2. }
  unfold postChats.
  destruct (postChats_try env request _) as [[r|message|r] w] eqn:Htry;
    simpl; specialize (Hfinal _ _ eq_refl); by destruct w.
Qed.

(** ** Filling the scope cache *)

(** The entry stored after a scope call. *)
Definition scope_entry (returnedEtag : option string) (modes : ScopeModes) : Cache.entry :=
  {| Cache.etag := str_or returnedEtag "default";
     Cache.activityExecutionMap := activityExecutionMap modes |}.

(** The scope of a user is resolved from the cache, without any effect;
    or the scope call and the reading of its response both succeed and
    the entry is stored; or one of them fails and nothing is stored. *)
Lemma resolveProtectionScope_cases env user accessToken w :
  let run := resolveProtectionScope env user accessToken w in
  (exists d, has_etag (sessionProtectionDataMap (store w) !! user) = Some d /\ run.2 = w)
  \/ (has_etag (sessionProtectionDataMap (store w) !! user) = None
      /\ trace run.2 = trace w ++ [EvProtectionScope accessToken]
      /\ sessionSequenceMap (store run.2) = sessionSequenceMap (store w)
      /\ ((exists apiResponse returnedEtag modes,
             invokeProtectionScopeApi env accessToken = Returned (apiResponse, returnedEtag)
             /\ processProtectionScopeApiResponse (AZURE_AD_API_ID env) apiResponse
                = Returned modes
             /\ sessionProtectionDataMap (store run.2)
                = <[user := scope_entry returnedEtag modes]>
                    (sessionProtectionDataMap (store w))
             /\ run.1 = Val (str_or returnedEtag "default",
                             uploadTextExecutionMode modes, downloadTextExecutionMode modes))
          \/ ((exists message, run.1 = Thrown message)
              /\ store run.2 = store w
              /\ (match invokeProtectionScopeApi env accessToken with
                  | Threw _ => True
                  | Returned (apiResponse, _) =>
                      exists message,
                        processProtectionScopeApiResponse (AZURE_AD_API_ID env) apiResponse
                        = Threw message
                  end)))).
Proof.
  cbv zeta.
  destruct (has_etag (sessionProtectionDataMap (store w) !! user)) as [d|] eqn:Hd.
  { left. exists d. split; [done|]. by rewrite (resolveProtectionScope_cached _ _ _ _ _ Hd). }
  right. split; [done|].
  unfold resolveProtectionScope. rewrite bind_unfold. cbn [getProtectionData].
  rewrite Hd, bind_unfold.
  destruct (invokeProtectionScopeApi env accessToken) as [[apiResponse returnedEtag]|message];
    simpl.
  2:{ split; [done|]. split; [done|]. right. split; [by eexists|]. done. }
  destruct (processProtectionScopeApiResponse _ apiResponse) as [modes|message] eqn:Hread;
    simpl.
  - split; [done|]. split; [done|]. left. by exists apiResponse, returnedEtag, modes.
  - split; [done|]. split; [done|]. right. split; [by eexists|]. split; [done|]. by eexists.
Qed.

(** X6. A request leaves the scope cache as it is, or adds one entry:
    for the user of the request, who had none, after a scope call that
    returned and whose response could be read; the entry holds the etag
    returned, "default" when none was, and the activity map read from the
    response. *)
Theorem scope_cache_of_a_request (env : Env) (request : Request) (st : Store) :
  let cache' := sessionProtectionDataMap (postChats env request st).1.2 in
  cache' = sessionProtectionDataMap st
  \/ exists user accessToken apiResponse returnedEtag modes,
       userId request = Some user
       /\ has_etag (sessionProtectionDataMap st !! user) = None
       /\ invokeProtectionScopeApi env accessToken = Returned (apiResponse, returnedEtag)
       /\ processProtectionScopeApiResponse (AZURE_AD_API_ID env) apiResponse = Returned modes
       /\ cache' = <[user := scope_entry returnedEtag modes]> (sessionProtectionDataMap st)
       /\ Cache.etag (scope_entry returnedEtag modes) ≠ EmptyString.
Proof.
  cbv zeta.
  assert (Hfinal : forall r w,
            postChats_try env request {| store := st; trace := [] |} = (r, w) ->
            sessionProtectionDataMap (store w) = sessionProtectionDataMap st
            \/ exists user accessToken apiResponse returnedEtag modes,
                 userId request = Some user
                 /\ has_etag (sessionProtectionDataMap st !! user) = None
                 /\ invokeProtectionScopeApi env accessToken
                    = Returned (apiResponse, returnedEtag)
                 /\ processProtectionScopeApiResponse (AZURE_AD_API_ID env) apiResponse
                    = Returned modes
                 /\ sessionProtectionDataMap (store w)
                    = <[user := scope_entry returnedEtag modes]> (sessionProtectionDataMap st)
                 /\ Cache.etag (scope_entry returnedEtag modes) ≠ EmptyString).
  { intros r w.
    destruct (postChats_try_cases env request {| store := st; trace := [] |})
      as [[message H]|[H|(question & user & session & Hacc)]].
    - rewrite H. intros [= <- <-]. by left.
    - rewrite H. intros [= <- <-]. by left.
    - rewrite (accepted_request_serving _ _ _ _ _ _ Hacc).
      destruct Hacc as (rb & ms & m & _ & _ & _ & _ & _ & Huser & _).
      unfold serving. rewrite bind_unfold. cbn [getSequence]. rewrite bind_unfold.
      pose proof (getPurviewAccessTokens_frame env (fun _ => True) request ltac:(done)
                    {| store := st; trace := [] |}) as [Hs1 _]. unfold same_store in Hs1.
      destruct (getPurviewAccessTokens env request _) as [[tokens|message|r1] w1];
        simpl in *; try (intros [= <- <-]; left; by rewrite Hs1).
      rewrite bind_unfold.
      pose proof (resolveProtectionScope_cases env user (oboToken tokens) w1) as Hcases.
      cbv zeta in Hcases. rewrite Hs1 in Hcases.
      destruct (resolveProtectionScope env user (oboToken tokens) w1)
        as [rs w2]; simpl in Hcases.
      assert (Hafter : sessionProtectionDataMap (store w2) = sessionProtectionDataMap st
                \/ exists user accessToken apiResponse returnedEtag modes,
                     userId request = Some user
                     /\ has_etag (sessionProtectionDataMap st !! user) = None
                     /\ invokeProtectionScopeApi env accessToken
                        = Returned (apiResponse, returnedEtag)
                     /\ processProtectionScopeApiResponse (AZURE_AD_API_ID env) apiResponse
                        = Returned modes
                     /\ sessionProtectionDataMap (store w2)
                        = <[user := scope_entry returnedEtag modes]>
                            (sessionProtectionDataMap st)
                     /\ Cache.etag (scope_entry returnedEtag modes) ≠ EmptyString).
      { destruct Hcases as [(d & _ & ->)|(Hnone & _ & _ & [Hok|(_ & Hst & _)])].
        - left. by rewrite Hs1.
        - destruct Hok as (apiResponse & returnedEtag & modes & Hcall & Hread & Hmap & _).
          right. exists user, (oboToken tokens), apiResponse, returnedEtag, modes.
          repeat split; try done. by apply str_or_nonempty.
        - left. by rewrite Hst. }
      destruct rs as [[[etagIdentifier up] down]|message|r2];
        try (intros [= <- <-]; exact Hafter).
      intros Hpipe.
      apply (run_frame _ _ _ _ _ (pipeline_frame _ _ _ _ _ _ _ _)) in Hpipe.
      destruct Hpipe as [Hs3 _]. unfold same_cache in Hs3. by rewrite Hs3. }
  unfold postChats.
  destruct (postChats_try env request _) as [[r|message|r] w];
    simpl; exact (Hfinal _ _ eq_refl).
Qed.

(** *** When the scope response cannot be read *)

Definition missing (entry : jsval) : bool :=
  match entry with JNull | JUndefined => true | _ => false end.

Lemma visit_entries_missing appId entries : forall acc,
  Exists (fun entry => missing entry = true) entries ->
  exists message, visit_entries appId acc entries = Threw message.
Proof.
  induction entries as [|entry rest IH]; intros acc Hex; [by inversion Hex|].
  simpl. unfold visit_entry.
  destruct (prop entry "activities") eqn:Hp; [|by eexists].
  apply IH. inversion Hex as [? ? Hm|]; subst; [|done].
  destruct entry; simpl in Hm, Hp; congruence.
Qed.

Lemma chars_present s : Forall (fun entry => entry ≠ JNull /\ entry ≠ JUndefined) (chars s).
Proof. induction s as [|c s IH]; simpl; by constructor. Qed.

(** X7. The scope response is read exactly when its [value] is an array
    without a [null] entry (or a string): a response that is [null], that
    has no [value], whose [value] is something else, or whose array holds
    one [null] entry anywhere, makes the function throw. *)
Theorem scope_response_throws_iff (appId : option string) (apiResponse : jsval) :
  (exists message, processProtectionScopeApiResponse appId apiResponse = Threw message)
  <-> match prop apiResponse "value" with
      | Some (JArr entries) => Exists (fun entry => missing entry = true) entries
      | Some (JStr _) => False
      | _ => True
      end.
Proof.
  unfold processProtectionScopeApiResponse.
  destruct (prop apiResponse "value") as [[| | | |s|entries|]|] eqn:Hv; simpl;
    try (split; [done | by eexists]).
  - destruct (visit_entries_lookup appId (chars s) (∅, false) (chars_present s))
      as ([m ok] & -> & _).
    split; [by intros [? ?] | done].
  - split.
    + intros [message H].
      destruct (decide (Exists (fun entry => missing entry = true) entries)) as [|Hno];
        [done|].
      apply not_Exists_Forall in Hno; [|intros e; apply _].
      assert (Hall : Forall (fun entry => entry ≠ JNull /\ entry ≠ JUndefined) entries).
      { eapply Forall_impl; [exact Hno|]. intros e He. unfold compose in He.
        split; intros ->; by apply He. }
      destruct (visit_entries_lookup appId entries (∅, false) Hall) as ([m ok] & Hrun & _).
      by rewrite Hrun in H.
    + intros Hex.
      destruct (visit_entries_missing appId entries (∅, false) Hex) as [message ->].
      by eexists.
Qed.

(** ** Failures on the way *)

(** X8. For a user without cached scope, a scope call that throws, or a
    scope response that cannot be read, ends the request with 503: the
    scope call is the last call made, nothing is cached and nothing is
    stored. *)
Theorem failed_scope_lookup_answers_503
    (env : Env) (request : Request) (st : Store) (question user session : string)
    (tokens : PurviewTokens) (w1 : World) :
  accepted_request env request question user session ->
  getPurviewAccessTokens env request {| store := st; trace := [] |} = (Val tokens, w1) ->
  has_etag (sessionProtectionDataMap st !! user) = None ->
  match invokeProtectionScopeApi env (oboToken tokens) with
  | Threw _ => True
  | Returned (apiResponse, _) =>
      exists message,
        processProtectionScopeApiResponse (AZURE_AD_API_ID env) apiResponse = Threw message
  end ->
  postChats env request st
  = (unavailable, st, trace w1 ++ [EvProtectionScope (oboToken tokens)]).
Proof.
  intros Hacc Htok Hnone Hfail.
  pose proof Htok as Hframe.
  apply (run_frame (frame same_store (fun _ => True))) in Hframe;
    [|by apply getPurviewAccessTokens_frame].
  destruct Hframe as [Hs1 _]. simpl in Hs1. unfold same_store in Hs1.
  unfold postChats. rewrite (accepted_request_serving _ _ _ _ _ _ Hacc).
  unfold serving. rewrite bind_unfold. cbn [getSequence].
  rewrite bind_unfold, Htok, bind_unfold.
  unfold resolveProtectionScope. rewrite bind_unfold. cbn [getProtectionData].
  rewrite Hs1, Hnone, bind_unfold.
  destruct (invokeProtectionScopeApi env (oboToken tokens))
    as [[apiResponse returnedEtag]|message]; simpl.
  - destruct Hfail as [message ->]. simpl. by rewrite Hs1.
  - by rewrite Hs1.
Qed.

(** An evaluation that cannot be used: the call throws, or its body is
    no JSON. *)
Definition evaluation_fails (env : Env) (accessToken etagIdentifier : string)
    (body : ProcessContentRequest) : Prop :=
  match invokeProcessContentApi env accessToken etagIdentifier body with
  | Threw _ => True
  | Returned response => exists message, JSON_parse env response = Threw message
  end.

(** X9. When the prompt is to be evaluated inline and the evaluation
    cannot be used, the request is answered with 503: the evaluation is
    the last call made, no retrieval and no model call is made, and the
    maps are as the scope resolution left them (no sequence number is
    stored). *)
Theorem failed_prompt_evaluation_answers_503
    (env : Env) (request : Request) (st : Store) (question user session : string)
    (tokens : PurviewTokens) (w1 w2 : World) (etagIdentifier : string) (down : jsval) :
  let body :=
    constructProcessContentRequestBody question "BuildDemo-P4AI"
      (stored_sequence st session) session "uploadText"
      (str_or (AZURE_AD_API_ID env) EmptyString) in
  accepted_request env request question user session ->
  getPurviewAccessTokens env request {| store := st; trace := [] |} = (Val tokens, w1) ->
  resolveProtectionScope env user (oboToken tokens) w1
    = (Val (etagIdentifier, JStr "evaluateInline", down), w2) ->
  evaluation_fails env (oboToken tokens) etagIdentifier body ->
  postChats env request st
  = (unavailable, store w2,
     trace w2 ++ [EvProcessContent (oboToken tokens) etagIdentifier body])
  /\ sessionSequenceMap (store w2) = sessionSequenceMap st
  /\ Forall (fun e => is_retrieval_call e = false /\ is_model_call e = false)
            (postChats env request st).2.
Proof.
  intros body Hacc Htok Hscope Hfail.
  destruct (before_gating_trace _ _ _ _ _ _ _ _ Htok Hscope) as [Hseq Htrace].
  assert (Hrun : postChats env request st
                 = (unavailable, store w2,
                    trace w2 ++ [EvProcessContent (oboToken tokens) etagIdentifier body])).
  { unfold postChats. rewrite (accepted_request_serving _ _ _ _ _ _ Hacc).
    unfold serving. rewrite bind_unfold. cbn [getSequence].
    change (default 0 (sessionSequenceMap (store {| store := st; trace := [] |}) !! session))
      with (stored_sequence st session).
    rewrite bind_unfold, Htok. rewrite bind_unfold, Hscope.
    unfold pipeline. cbv zeta.
    rewrite bind_unfold. unfold promptGating. cbn [is_str String.eqb Ascii.eqb Bool.eqb].
    fold body. rewrite bind_unfold. unfold evaluation_fails in Hfail.
    destruct (invokeProcessContentApi env (oboToken tokens) etagIdentifier body)
      as [response|message]; simpl; [|done].
    destruct Hfail as [message ->]. done. }
  rewrite Hrun. split; [done|]. split; [done|]. cbn [snd].
  apply Forall_app. split.
  - eapply Forall_impl; [exact Htrace|]. intros e [He|He]; by destruct e.
  - by repeat constructor.
Qed.

(** X10. When the answer is to be evaluated inline and that evaluation
    cannot be used, the request is answered with 503 although the model
    has answered: the evaluation is the last call made, the answer is not
    sent, and the maps are as they were after the answer stage. *)
Theorem failed_answer_evaluation_answers_503
    (env : Env) (request : Request) (st : Store) (question user session : string)
    (tokens : PurviewTokens) (w1 w2 w3 w4 : World) (etagIdentifier : string) (up : jsval)
    (seq1 : nat) (processedLlmResponse : string) :
  let body :=
    constructProcessContentRequestBody processedLlmResponse "BuildDemo-P4AI"
      seq1 session "downloadText" (str_or (AZURE_AD_API_ID env) EmptyString) in
  accepted_request env request question user session ->
  getPurviewAccessTokens env request {| store := st; trace := [] |} = (Val tokens, w1) ->
  resolveProtectionScope env user (oboToken tokens) w1
    = (Val (etagIdentifier, up, JStr "evaluateInline"), w2) ->
  promptGating env question session (oboToken tokens) etagIdentifier up
    (stored_sequence st session) w2 = (Val seq1, w3) ->
  answering env question session tokens w3 = (Val processedLlmResponse, w4) ->
  evaluation_fails env (oboToken tokens) etagIdentifier body ->
  postChats env request st
  = (unavailable, store w4,
     trace w4 ++ [EvProcessContent (oboToken tokens) etagIdentifier body])
  /\ store w4 = store w2.
Proof.
  intros body Hacc Htok Hscope Hprompt Hanswer Hfail.
  split.
  - unfold postChats. rewrite (accepted_request_serving _ _ _ _ _ _ Hacc).
    unfold serving. rewrite bind_unfold. cbn [getSequence].
    change (default 0 (sessionSequenceMap (store {| store := st; trace := [] |}) !! session))
      with (stored_sequence st session).
    rewrite bind_unfold, Htok. rewrite bind_unfold, Hscope.
    unfold pipeline. cbv zeta.
    rewrite bind_unfold, Hprompt. rewrite bind_unfold, Hanswer.
    rewrite bind_unfold. unfold responseGating.
    cbn [is_str String.eqb Ascii.eqb Bool.eqb]. fold body.
    rewrite bind_unfold. unfold evaluation_fails in Hfail.
    destruct (invokeProcessContentApi env (oboToken tokens) etagIdentifier body)
      as [response|message]; simpl; [|done].
    destruct Hfail as [message ->]. done.
  - destruct (promptGating_val _ _ _ _ _ _ _ _ _ _ Hprompt) as [Hs3 _].
    apply (run_frame (frame same_store (fun _ => True))) in Hanswer;
      [|by apply answering_frame].
    destruct Hanswer as [Hs4 _]. unfold same_store in Hs4. by rewrite Hs4, Hs3.
Qed.

(** X11. A request that is not blocked.  After the title step, when
    neither mode is "evaluateOffline" the processed answer is sent as one
    NDJSON line and nothing more is called or stored; when one is, the
    offline task is enqueued with the question, the processed answer and
    the local sequence number, and then either the answer is sent and the
    sequence number of the session is stored, advanced by two, or, the
    enqueue having thrown, the request is answered with 503 and nothing is
    stored. *)
Theorem unblocked_request_outcome
    (env : Env) (request : Request) (st : Store) (question user session : string)
    (tokens : PurviewTokens) (w1 w2 w3 w4 w5 w6 : World) (etagIdentifier : string)
    (up down : jsval) (seq1 seq2 : nat) (processedLlmResponse : string) :
  let task :=
    {| off_accessToken := oboToken tokens; off_etag := etagIdentifier;
       off_uploadMode := up; off_downloadMode := down;
       off_question := question; off_response := processedLlmResponse;
       off_sessionId := session; off_sequence := seq2 |} in
  let answer := data [ndjson_line processedLlmResponse session] ndjson_headers in
  accepted_request env request question user session ->
  getPurviewAccessTokens env request {| store := st; trace := [] |} = (Val tokens, w1) ->
  resolveProtectionScope env user (oboToken tokens) w1
    = (Val (etagIdentifier, up, down), w2) ->
  promptGating env question session (oboToken tokens) etagIdentifier up
    (stored_sequence st session) w2 = (Val seq1, w3) ->
  answering env question session tokens w3 = (Val processedLlmResponse, w4) ->
  responseGating env processedLlmResponse session (oboToken tokens) etagIdentifier down
    seq1 w4 = (Val seq2, w5) ->
  titling env question w5 = (Val (), w6) ->
  postChats env request st
  = if is_str down "evaluateOffline" || is_str up "evaluateOffline" then
      match enqueueOfflinePurviewTasksAsync env task with
      | Returned _ =>
          (answer,
           {| sessionSequenceMap := <[session := seq2 + 2]> (sessionSequenceMap (store w6));
              sessionProtectionDataMap := sessionProtectionDataMap (store w6) |},
           trace w6 ++ [EvEnqueueOffline task])
      | Threw _ => (unavailable, store w6, trace w6 ++ [EvEnqueueOffline task])
      end
    else (answer, store w6, trace w6).
Proof.
  intros task answer Hacc Htok Hscope Hprompt Hanswer Hresponse Htitle.
  unfold postChats. rewrite (accepted_request_serving _ _ _ _ _ _ Hacc).
  unfold serving. rewrite bind_unfold. cbn [getSequence].
  change (default 0 (sessionSequenceMap (store {| store := st; trace := [] |}) !! session))
    with (stored_sequence st session).
  rewrite bind_unfold, Htok. rewrite bind_unfold, Hscope.
  unfold pipeline. cbv zeta.
  rewrite bind_unfold, Hprompt. rewrite bind_unfold, Hanswer.
  rewrite bind_unfold, Hresponse. rewrite bind_unfold, Htitle.
  rewrite bind_unfold. unfold reporting.
  destruct (is_str down "evaluateOffline" || is_str up "evaluateOffline").
  - cbv zeta. fold task. rewrite bind_unfold.
    destruct (enqueueOfflinePurviewTasksAsync env task) as [status|message]; done.
  - done.
Qed.

(** * The bearer token, from the web app to the handler *)

(** ** [split] *)

(** The text before the first [sep]. *)
Fixpoint upto (sep : ascii) (s : string) : string :=
  match s with
  | EmptyString => EmptyString
  | String c s' => if Ascii.eqb c sep then EmptyString else String c (upto sep s')
  end.

Lemma split_nonempty sep s : Js.split sep s ≠ [].
Proof.
  destruct s as [|c s]; simpl; [done|].
  destruct (Ascii.eqb c sep); [done|]. by destruct (Js.split sep s).
Qed.

Lemma split_first sep s : nth 0 (Js.split sep s) EmptyString = upto sep s.
Proof.
  induction s as [|c s IH]; simpl; [done|].
  destruct (Ascii.eqb c sep); [done|].
  pose proof (split_nonempty sep s) as Hne.
  destruct (Js.split sep s) as [|h t]; [done|]. simpl in *. by rewrite IH.
Qed.

Lemma split_cut sep a b :
  has sep a = false -> Js.split sep (a +:+ String sep b) = a :: Js.split sep b.
Proof.
  induction a as [|c a IH]; intros Ha.
  - rewrite append_nil_l. simpl. by rewrite Ascii.eqb_refl.
  - simpl in Ha. apply orb_false_elim in Ha as [Hc Ha].
    rewrite append_cons. simpl. rewrite Hc, IH by done. done.
Qed.

Lemma upto_all sep s : has sep s = false -> upto sep s = s.
Proof.
  induction s as [|c s IH]; simpl; [done|].
  intros H. apply orb_false_elim in H as [Hc Hs]. by rewrite Hc, IH.
Qed.

Lemma upto_clean sep s : has sep (upto sep s) = false.
Proof.
  induction s as [|c s IH]; simpl; [done|].
  destruct (Ascii.eqb c sep) eqn:Hc; [done|]. simpl. by rewrite Hc, IH.
Qed.

Lemma upto_cut sep a b : has sep a = false -> upto sep (a +:+ String sep b) = a.
Proof.
  induction a as [|c a IH]; intros Ha.
  - rewrite append_nil_l. simpl. by rewrite Ascii.eqb_refl.
  - simpl in Ha. apply orb_false_elim in Ha as [Hc Ha].
    rewrite append_cons. simpl. by rewrite Hc, IH.
Qed.

Lemma bearer_accepted text : bad_authorization (Some ("Bearer " +:+ text)) = false.
Proof.
  unfold bad_authorization, Js.startsWith. rewrite negb_false_iff. apply prefix_append.
Qed.

Lemma bearer_token_upto body user text :
  bearer_token {| json := body; authorization := Some ("Bearer " +:+ text); userId := user |}
  = upto " "%char text.
Proof.
  unfold bearer_token. cbn [authorization default from_option id].
  change ("Bearer " +:+ text) with ("Bearer" +:+ String " "%char text).
  rewrite split_cut by reflexivity. cbn [nth]. apply split_first.
Qed.

(** X12. The Authorization header is accepted exactly when it is
    "Bearer " followed by some text; the token handed to MSAL is then that
    text up to its first space (all of it when it has none, the empty
    string when it starts with a space). *)
Theorem bearer_token_of_header (header : string) (user : option string)
    (body : outcome RequestBody) :
  (bad_authorization (Some header) = false <-> exists text, header = "Bearer " +:+ text)
  /\ (forall text,
        header = "Bearer " +:+ text ->
        let request := {| json := body; authorization := Some header; userId := user |} in
        bearer_token request = upto " "%char text
        /\ has " "%char (bearer_token request) = false
        /\ (has " "%char text = false -> bearer_token request = text)).
Proof.
  split.
  - split.
    + unfold bad_authorization, Js.startsWith. rewrite negb_false_iff. apply prefix_inv.
    + intros [text ->]. apply bearer_accepted.
  - intros text -> request. unfold request. rewrite bearer_token_upto.
    split; [done|]. split; [apply upto_clean|]. apply upto_all.
Qed.

(** ** Header values *)

Module Http.

(** HTTP whitespace: TAB, LF, CR and SP. *)
Definition is_whitespace (c : ascii) : bool :=
  let n := Js.code c in
  (n =? 9) || (n =? 10) || (n =? 13) || (n =? 32).

Fixpoint strip_start (s : string) : string :=
  match s with
  | EmptyString => EmptyString
  | String c s' => if is_whitespace c then strip_start s' else s
  end.

Fixpoint strip_end (s : string) : string :=
  match s with
  | EmptyString => EmptyString
  | String c s' =>
      let r := strip_end s' in
      if is_whitespace c && Js.is_empty r then EmptyString else String c r
  end.

(** A value is normalized: its leading and trailing HTTP whitespace is
    removed. *)
Definition normalize (value : string) : string := strip_end (strip_start value).

(** A normalized value is a header value when it holds no NUL, LF or
    CR. *)
Fixpoint valid (value : string) : bool :=
  match value with
  | EmptyString => true
  | String c s' =>
      let n := Js.code c in
      negb ((n =? 0) || (n =? 10) || (n =? 13)) && valid s'
  end.

(** [headers.set(name, value)] for a valid name: the value the header
    gets, or the [TypeError]. *)
Definition set_value (value : string) : outcome string :=
  if valid (normalize value) then Returned (normalize value)
  else Threw "TypeError: invalid header value".

(** Every code unit is HTTP whitespace. *)
Fixpoint blank (s : string) : bool :=
  match s with
  | EmptyString => true
  | String c s' => is_whitespace c && blank s'
  end.

(** No code unit is HTTP whitespace or NUL. *)
Fixpoint plain (s : string) : bool :=
  match s with
  | EmptyString => true
  | String c s' => negb (is_whitespace c) && negb (Js.code c =? 0) && plain s'
  end.

End Http.

Lemma strip_end_blank s : Js.is_empty (Http.strip_end s) = Http.blank s.
Proof.
  induction s as [|c s IH]; [done|]. cbn [Http.strip_end Http.blank]. rewrite IH.
  destruct (Http.is_whitespace c); [|done]. cbn [andb]. by destruct (Http.blank s).
Qed.

Lemma strip_end_plain s : Http.plain s = true -> Http.strip_end s = s.
Proof.
  induction s as [|c s IH]; [done|]. cbn [Http.strip_end Http.plain].
  intros [[Hc _]%andb_prop Hs]%andb_prop. apply negb_true_iff in Hc.
  by rewrite Hc, IH.
Qed.

Lemma valid_plain s : Http.plain s = true -> Http.valid s = true.
Proof.
  induction s as [|c s IH]; [done|]. cbn [Http.valid Http.plain].
  intros [[Hc Hnul]%andb_prop Hs]%andb_prop. rewrite IH by done.
  unfold Http.is_whitespace in Hc. cbv zeta in *.
  apply negb_true_iff in Hc. apply negb_true_iff in Hnul.
  apply orb_false_elim in Hc as [Hc _]. apply orb_false_elim in Hc as [Hc Hcr].
  apply orb_false_elim in Hc as [_ Hlf]. by rewrite Hnul, Hlf, Hcr.
Qed.

Lemma plain_no_space s : Http.plain s = true -> has " "%char s = false.
Proof.
  induction s as [|c s IH]; [done|]. cbn [has Http.plain].
  intros [[Hc _]%andb_prop Hs]%andb_prop. rewrite IH by done.
  apply negb_true_iff in Hc. destruct (Ascii.eqb_spec c " "%char) as [->|]; [|done].
  discriminate.
Qed.

Lemma plain_not_blank s : Http.plain s = true -> s <> EmptyString -> Http.blank s = false.
Proof.
  destruct s as [|c s]; [done|]. cbn [Http.plain Http.blank].
  intros [[Hc _]%andb_prop _]%andb_prop _. apply negb_true_iff in Hc. by rewrite Hc.
Qed.

Lemma normalize_bearer text :
  Http.normalize ("Bearer " +:+ text)
  = if Http.blank text then "Bearer" else "Bearer " +:+ Http.strip_end text.
Proof.
  rewrite <- strip_end_blank.
  change (Http.normalize ("Bearer " +:+ text))
    with ("Bearer" +:+ (if Js.is_empty (Http.strip_end text) then EmptyString
                        else String " "%char (Http.strip_end text))).
  by destruct (Js.is_empty (Http.strip_end text)).
Qed.

(** ** The web app *)

Module Webapp.

(** *** [getUserId] of [auth.ts] *)

(** [accounts] holds the [homeAccountId] of the cached accounts. *)
Definition getUserId (accounts : list string) : option string :=
  match accounts with
  | homeAccountId :: _ => Some (nth 0 (Js.split "."%char homeAccountId) EmptyString)
  | [] => None
  end.

(** *** The [fetch] override of the chat client *)

(** The first argument of [fetch]: a string, or a [URL] or [Request]. *)
Inductive input : Type :=
| Url (url : string)
| Object.

(** What reaches [originalFetch]: the input, and the value that the
    Authorization header has, if it was set. *)
Inductive fetched : Type :=
| Fetch (i : input) (authorization : option string).

(** [fetch(input, init)]: [acquireToken] is what the call of
    [acquireToken()] gives; the result is whether the token was asked for,
    and the request made or the error thrown.  [new Headers(init?.headers)]
    is taken to return; [headers.set] normalizes the value and throws when
    it is no header value. *)
Definition fetch (acquireToken : outcome (option string)) (i : input)
  : bool * outcome fetched :=
  let url := match i with Url u => u | Object => EmptyString end in
  if Js.includes url "api/chats/stream" then
    match acquireToken with
    | Returned token =>
        if falsy token
        then (true, Threw "Failed to acquire token. User may not be signed in.")
        else
          match Http.set_value ("Bearer " +:+ interpolate token) with
          | Returned value => (true, Returned (Fetch i (Some value)))
          | Threw e => (true, Threw e)
          end
    | Threw e => (true, Threw e)
    end
  else (false, Returned (Fetch i None)).

End Webapp.

(** X13. A [homeAccountId] gives the user id: its text up to the first
    dot, which holds no dot; the whole id when there is no dot; and no
    user id when no account is cached. *)
Theorem webapp_user_id (accounts : list string) :
  match accounts with
  | [] => Webapp.getUserId accounts = None
  | homeAccountId :: _ =>
      Webapp.getUserId accounts = Some (upto "."%char homeAccountId)
      /\ has "."%char (upto "."%char homeAccountId) = false
      /\ (forall uid utid,
            homeAccountId = uid +:+ String "."%char utid -> has "."%char uid = false ->
            Webapp.getUserId accounts = Some uid)
  end.
Proof.
  destruct accounts as [|homeAccountId rest]; [done|].
  unfold Webapp.getUserId. rewrite split_first.
  split; [done|]. split; [apply upto_clean|].
  intros uid utid -> Huid. by rewrite upto_cut.
Qed.

(** X14. The chat client and the handler.  A request to a URL string
    that holds "api/chats/stream" is made only when a non-empty token was
    acquired, and its Authorization header is "Bearer <token>" as
    [Headers.set] leaves it: without trailing HTTP whitespace, and without
    NUL, LF or CR (a value that holds one makes [set] throw, and nothing
    is sent).  A token of HTTP whitespace only gives the header "Bearer",
    which the handler rejects; any other token gives "Bearer " and the
    token without its trailing whitespace, which the handler accepts; and
    a token without HTTP whitespace and NUL is sent as it is and read back
    by the handler.  Any other request, and any request given as a [URL]
    or [Request] object, is made without asking for a token. *)
Theorem chat_client_sends_bearer_token (acquireToken : outcome (option string))
    (i : Webapp.input) :
  match Webapp.fetch acquireToken i with
  | (asked, Returned (Webapp.Fetch i' (Some header))) =>
      asked = true /\ i' = i
      /\ (exists url, i = Webapp.Url url /\ Js.includes url "api/chats/stream" = true)
      /\ (exists token,
            acquireToken = Returned (Some token) /\ token ≠ EmptyString
            /\ header = Http.normalize ("Bearer " +:+ token)
            /\ Http.valid header = true
            /\ (if Http.blank token
                then header = "Bearer" /\ bad_authorization (Some header) = true
                else header = "Bearer " +:+ Http.strip_end token
                     /\ bad_authorization (Some header) = false)
            /\ (Http.plain token = true ->
                header = "Bearer " +:+ token
                /\ forall body user,
                     bearer_token {| json := body; authorization := Some header;
                                     userId := user |} = token))
  | (asked, Returned (Webapp.Fetch i' None)) =>
      asked = false /\ i' = i
      /\ match i with
         | Webapp.Url url => Js.includes url "api/chats/stream" = false
         | Webapp.Object => True
         end
  | (asked, Threw _) =>
      asked = true
      /\ (exists url, i = Webapp.Url url /\ Js.includes url "api/chats/stream" = true)
      /\ match acquireToken with
         | Returned token =>
             falsy token = true
             \/ (exists text,
                   token = Some text
                   /\ Http.valid (Http.normalize ("Bearer " +:+ text)) = false
                   /\ Http.plain text = false)
         | Threw _ => True
         end
  end.
Proof.
  unfold Webapp.fetch.
  destruct (Js.includes _ "api/chats/stream") eqn:Hurl.
  - assert (Hi : exists url, i = Webapp.Url url /\ Js.includes url "api/chats/stream" = true).
    { destruct i as [url|]; [by exists url | done]. }
    destruct acquireToken as [token|message]; [|done].
    destruct (falsy token) eqn:Hfalsy; [by auto|].
    destruct token as [token|]; [|done]. cbn [interpolate falsy] in *.
    unfold Http.set_value.
    destruct (Http.valid (Http.normalize ("Bearer " +:+ token))) eqn:Hvalid.
    + split; [done|]. split; [done|]. split; [exact Hi|].
      exists token. split; [done|]. split; [by apply is_empty_false_inv|].
      split; [done|]. split; [exact Hvalid|].
      rewrite normalize_bearer. split.
      * destruct (Http.blank token); [by split|].
        split; [done | apply bearer_accepted].
      * intros Hplain.
        rewrite (plain_not_blank _ Hplain) by by apply is_empty_false_inv.
        rewrite (strip_end_plain _ Hplain). split; [done|].
        intros body user. rewrite bearer_token_upto.
        by apply upto_all, plain_no_space.
    + split; [done|]. split; [exact Hi|]. right. exists token.
      split; [done|]. split; [done|].
      destruct (Http.plain token) eqn:Hplain; [|done].
      rewrite normalize_bearer in Hvalid.
      rewrite (plain_not_blank _ Hplain) in Hvalid by by apply is_empty_false_inv.
      rewrite (strip_end_plain _ Hplain) in Hvalid.
      change (Http.valid ("Bearer " +:+ token)) with (Http.valid token) in Hvalid.
      by rewrite (valid_plain _ Hplain) in Hvalid.
  - split; [done|]. split; [done|]. by destruct i.
Qed.

(** Two tokens that [Headers.set] does not leave as they are. *)
Lemma chat_client_whitespace_token :
  Webapp.fetch (Returned (Some (String (ascii_of_nat 9) EmptyString)))
    (Webapp.Url "/api/chats/stream")
  = (true, Returned (Webapp.Fetch (Webapp.Url "/api/chats/stream") (Some "Bearer")))
  /\ exists message,
       Webapp.fetch (Returned (Some (String "a" (String (ascii_of_nat 10) "b"))))
         (Webapp.Url "/api/chats/stream")
       = (true, Threw message).
Proof. split; [reflexivity|]. eexists. reflexivity. Qed.

(** * The NDJSON stream *)

(** [createJsonStream] (source lines 610-628): the chunks the generator
    yields for the chunks it is given. *)
Fixpoint createJsonStream (chunks : list string) (sessionId : string) : list string :=
  match chunks with
  | [] => []
  | chunk :: rest =>
      if Js.is_empty chunk then createJsonStream rest sessionId
      else ndjson_line chunk sessionId :: createJsonStream rest sessionId
  end.

(** ** Reading a JSON string back *)

Module JsonRead.

Definition unhex (c : ascii) : option nat :=
  let n := Js.code c in
  if (48 <=? n) && (n <=? 57) then Some (n - 48)
  else if (97 <=? n) && (n <=? 102) then Some (n - 87)
  else if (65 <=? n) && (n <=? 70) then Some (n - 55)
  else None.

(** The character a two-character escape stands for. *)
Definition unescape (c : ascii) : option ascii :=
  let n := Js.code c in
  if n =? 98 then Some (ascii_of_nat 8)
  else if n =? 116 then Some (ascii_of_nat 9)
  else if n =? 110 then Some (ascii_of_nat 10)
  else if n =? 102 then Some (ascii_of_nat 12)
  else if n =? 114 then Some (ascii_of_nat 13)
  else if n =? 34 then Some c
  else if n =? 92 then Some c
  else if n =? 47 then Some c
  else None.

Definition push (c : ascii) (r : option (string * string)) : option (string * string) :=
  match r with
  | Some (text, rest) => Some (String c text, rest)
  | None => None
  end.

(** The characters of a JSON string after its opening quote, up to the
    closing quote, and what follows it. *)
Fixpoint read (s : string) : option (string * string) :=
  match s with
  | EmptyString => None
  | String c s1 =>
      if Ascii.eqb c Js.dquote then Some (EmptyString, s1)
      else if Ascii.eqb c Js.backslash then
        match s1 with
        | EmptyString => None
        | String d s2 =>
            if Ascii.eqb d "u"%char then
              match s2 with
              | String h1 (String h2 (String h3 (String h4 s3))) =>
                  match unhex h1, unhex h2, unhex h3, unhex h4 with
                  | Some a, Some b, Some e, Some f =>
                      push (ascii_of_nat (((a * 16 + b) * 16 + e) * 16 + f)) (read s3)
                  | _, _, _, _ => None
                  end
              | _ => None
              end
            else
              match unescape d with
              | Some x => push x (read s2)
              | None => None
              end
        end
      else push c (read s1)
  end.

End JsonRead.

Lemma read_escape c t :
  JsonRead.read (Json.escape c +:+ t) = JsonRead.push c (JsonRead.read t).
Proof.
  destruct c as [[] [] [] [] [] [] [] []]; reflexivity.
Qed.

Lemma read_escape_all s rest :
  JsonRead.read (Json.escape_all s +:+ String Js.dquote rest) = Some (s, rest).
Proof.
  induction s as [|c s IH]; [reflexivity|].
  cbn [Json.escape_all]. by rewrite append_assoc, read_escape, IH.
Qed.

Lemma quote_append s rest :
  Json.quote s +:+ rest = String Js.dquote (Json.escape_all s +:+ String Js.dquote rest).
Proof. unfold Json.quote. by rewrite append_cons, append_assoc. Qed.

Lemma quote_inj a b r1 r2 :
  Json.quote a +:+ r1 = Json.quote b +:+ r2 -> a = b /\ r1 = r2.
Proof.
  rewrite !quote_append. intros H. injection H as H.
  apply (f_equal JsonRead.read) in H. rewrite !read_escape_all in H.
  by injection H.
Qed.

Lemma append_inv_head p a b : p +:+ a = p +:+ b -> a = b.
Proof.
  induction p as [|c p IH]; [done|]. rewrite !append_cons. intros H.
  injection H as H. by apply IH.
Qed.

Lemma stringify_delta_inj c1 s1 c2 s2 t1 t2 :
  Json.stringify_delta c1 s1 +:+ t1 = Json.stringify_delta c2 s2 +:+ t2 ->
  c1 = c2 /\ s1 = s2.
Proof.
  unfold Json.stringify_delta. rewrite !append_assoc. intros H.
  do 5 apply append_inv_head in H.
  apply quote_inj in H as [-> H]. split; [done|].
  do 9 apply append_inv_head in H.
  by apply quote_inj in H as [-> _].
Qed.

Lemma collectStream_from acc stream :
  fold_left String.append stream acc = acc +:+ collectStream stream.
Proof.
  unfold collectStream. revert acc.
  induction stream as [|chunk stream IH]; intros acc; cbn [fold_left].
  - by rewrite append_nil_r.
  - rewrite append_nil_l, IH, (IH chunk). by rewrite append_assoc.
Qed.

Lemma collectStream_cons chunk stream :
  collectStream (chunk :: stream) = chunk +:+ collectStream stream.
Proof. unfold collectStream at 1. cbn [fold_left]. rewrite append_nil_l. apply collectStream_from. Qed.

(** X15. A chunk of the stream is read in one way only: two chunks are
    equal only when they carry the same content and the same session. *)
Theorem ndjson_line_is_read_one_way (content1 session1 content2 session2 : string) :
  ndjson_line content1 session1 = ndjson_line content2 session2
  <-> content1 = content2 /\ session1 = session2.
Proof.
  split; [|by intros [-> ->]]. unfold ndjson_line. apply stringify_delta_inj.
Qed.

(** X16. The streamed answer.  [createJsonStream] yields one-line chunks;
    however its chunks are read as messages, their contents in order make
    the text that [collectStream] makes of the chunks it was given, none
    is empty, and each names the session.  For one message it yields what
    [createJsonStreamForBlock] yields, unless the message is empty, for
    which it yields nothing. *)
Theorem streamed_chunks_carry_the_text (chunks : list string) (session : string) :
  Forall one_line (createJsonStream chunks session)
  /\ (forall contents : list (string * string),
        createJsonStream chunks session = map (fun m => ndjson_line m.1 m.2) contents ->
        collectStream (map fst contents) = collectStream chunks
        /\ Forall (fun m => m.1 ≠ EmptyString /\ m.2 = session) contents)
  /\ (forall message,
        createJsonStream [message] session
        = if Js.is_empty message then [] else createJsonStreamForBlock session message).
Proof.
  split; [|split].
  - induction chunks as [|chunk chunks IH]; simpl; [done|].
    destruct (Js.is_empty chunk); [done|].
    constructor; [apply ndjson_line_one_line | done].
  - induction chunks as [|chunk chunks IH]; intros contents Hread.
    + destruct contents; [done|discriminate].
    + rewrite collectStream_cons. simpl in Hread.
      destruct (Js.is_empty chunk) eqn:Hchunk.
      * destruct chunk; [|discriminate]. rewrite append_nil_l. by apply IH.
      * destruct contents as [|[content sid] contents]; [discriminate|].
        cbn [map fst snd] in Hread.
        assert (Hline : ndjson_line chunk session = ndjson_line content sid)
          by congruence.
        assert (Hrest : createJsonStream chunks session
                        = map (fun m => ndjson_line m.1 m.2) contents) by congruence.
        unfold ndjson_line in Hline. apply stringify_delta_inj in Hline as [-> ->].
        destruct (IH _ Hrest) as [Htext Hall].
        simpl. rewrite collectStream_cons, Htext. split; [done|].
        constructor; [|done]. split; [by apply is_empty_false_inv | done].
  - intros message. simpl. by destruct (Js.is_empty message).
Qed.

(** * The further properties at work on the scenarios *)

(** [base] with other answers of the scope lookup, of the evaluation, of
    the chat history and of the offline queue. *)
Definition scenario_with
    (scope : string -> outcome (jsval * option string))
    (evaluate : string -> string -> ProcessContentRequest -> outcome string)
    (history : outcome (option string))
    (enqueue : OfflineTask -> outcome string)
    (base : Env) : Env :=
  {| uuidv4 := uuidv4 base;
     AZURE_AD_API_ID := AZURE_AD_API_ID base;
     AZURE_AD_GRAPH_SCOPE := AZURE_AD_GRAPH_SCOPE base;
     PURVIEW_ACCEPTED_ACCESS_RIGHTS := PURVIEW_ACCEPTED_ACCESS_RIGHTS base;
     acquireTokenOnBehalfOf := acquireTokenOnBehalfOf base;
     acquireTokenByClientCredential := acquireTokenByClientCredential base;
     invokeProtectionScopeApi := scope;
     invokeProcessContentApi := evaluate;
     JSON_parse := JSON_parse base;
     initialise_backend := initialise_backend base;
     retriever_invoke := retriever_invoke base;
     getLabelInfo := getLabelInfo base;
     ragChain_stream := ragChain_stream base;
     chatHistory_getContext := history;
     titleModel_invoke := titleModel_invoke base;
     enqueueOfflinePurviewTasksAsync := enqueue |}.

(** The world in which [m] leaves [w]. *)
Definition after {A} (m : M A) (w : World) : World := (m w).2.

Definition plain_env : Env := scenario "default" "default" "allow" "allow".

(** The session has a title already. *)
Definition titled_env : Env :=
  scenario_with (invokeProtectionScopeApi plain_env) (invokeProcessContentApi plain_env)
    (Returned (Some "Rentals")) (enqueueOfflinePurviewTasksAsync plain_env) plain_env.

Lemma titled_session_witness :
  Forall (fun e => is_title_call e = false)
         (postChats titled_env signed_request empty_store).2.
Proof.
  apply (titled_session_makes_no_title_call titled_env signed_request empty_store "Rentals");
    [reflexivity | discriminate].
Defined.

(** The prompt is evaluated inline, the answer is reported offline. *)
Definition reporting_env : Env := scenario "evaluateInline" "evaluateOffline" "allow" "allow".

Lemma sequence_numbers_witness :
  let tr := (postChats reporting_env signed_request empty_store).2 in
  let stored := sessionSequenceMap (postChats reporting_env signed_request empty_store).1.2 in
  exists k,
    k <= 2
    /\ sent_sequences tr = seq 0 k
    /\ ((offline_sequences tr = []
         /\ (stored = ∅ \/ stored = <["123" := 0 + k]> ∅))
        \/ (offline_sequences tr = [0 + k]
            /\ (stored = ∅ \/ stored = <["123" := 0 + k + 2]> ∅))).
Proof.
  apply (sequence_numbers_of_a_request reporting_env signed_request empty_store
           question_text "1" "123").
  do 3 eexists. repeat split; try reflexivity; discriminate.
Defined.

(** The scope lookup fails. *)
Definition failing_scope_env : Env :=
  scenario_with (fun _ => Threw "scope lookup failed") (invokeProcessContentApi plain_env)
    (chatHistory_getContext plain_env) (enqueueOfflinePurviewTasksAsync plain_env) plain_env.

Lemma failed_scope_lookup_witness :
  postChats failing_scope_env signed_request empty_store
  = (unavailable, empty_store,
     trace world_with_tokens ++ [EvProtectionScope "obo-token"]).
Proof.
  apply (failed_scope_lookup_answers_503 failing_scope_env signed_request empty_store
           question_text "1" "123" scenario_tokens world_with_tokens).
  - do 3 eexists. repeat split; try reflexivity; discriminate.
  - vm_compute. reflexivity.
  - vm_compute. reflexivity.
  - exact I.
Defined.

(** The evaluations fail; both texts are to be evaluated inline. *)
Definition inline_env : Env := scenario "evaluateInline" "evaluateInline" "allow" "allow".

Definition failing_evaluation_env : Env :=
  scenario_with (invokeProtectionScopeApi inline_env) (fun _ _ _ => Threw "evaluation failed")
    (chatHistory_getContext inline_env) (enqueueOfflinePurviewTasksAsync inline_env)
    inline_env.

Lemma failed_prompt_evaluation_witness :
  (postChats failing_evaluation_env signed_request empty_store).1.1 = unavailable
  /\ sessionSequenceMap (postChats failing_evaluation_env signed_request empty_store).1.2 = ∅
  /\ Forall (fun e => is_retrieval_call e = false /\ is_model_call e = false)
            (postChats failing_evaluation_env signed_request empty_store).2.
Proof.
  destruct (failed_prompt_evaluation_answers_503 failing_evaluation_env signed_request
              empty_store question_text "1" "123" scenario_tokens world_with_tokens
              (world_with_scope "evaluateInline" "evaluateInline") "etag-1"
              (JStr "evaluateInline"))
    as (Hrun & Hsequences & Hcalls).
  - do 3 eexists. repeat split; try reflexivity; discriminate.
  - vm_compute. reflexivity.
  - vm_compute. reflexivity.
  - exact I.
  - rewrite Hrun. split; [reflexivity|]. split; [reflexivity|].
    rewrite Hrun in Hcalls. exact Hcalls.
Defined.

(** The evaluation of the prompt allows it, the one of the answer fails. *)
Definition failing_answer_evaluation_env : Env :=
  scenario_with (invokeProtectionScopeApi inline_env)
    (fun _ _ body =>
       if String.eqb (pc_activity body) "uploadText" then Returned "allow"
       else Threw "evaluation failed")
    (chatHistory_getContext inline_env) (enqueueOfflinePurviewTasksAsync inline_env)
    inline_env.

Definition world_with_prompt_evaluated : World :=
  after (promptGating failing_answer_evaluation_env question_text "123" "obo-token" "etag-1"
           (JStr "evaluateInline") 0)
        (world_with_scope "evaluateInline" "evaluateInline").

Definition scenario_answer : string := "Use the search page [support.pdf (Label: General)]".

Lemma failed_answer_evaluation_witness :
  (postChats failing_answer_evaluation_env signed_request empty_store).1.1 = unavailable
  /\ (postChats failing_answer_evaluation_env signed_request empty_store).1.2
     = store (world_with_scope "evaluateInline" "evaluateInline").
Proof.
  destruct (failed_answer_evaluation_answers_503 failing_answer_evaluation_env signed_request
              empty_store question_text "1" "123" scenario_tokens world_with_tokens
              (world_with_scope "evaluateInline" "evaluateInline")
              world_with_prompt_evaluated
              (after (answering failing_answer_evaluation_env question_text "123"
                        scenario_tokens) world_with_prompt_evaluated)
              "etag-1" (JStr "evaluateInline") 1 scenario_answer)
    as (Hrun & Hstore).
  - do 3 eexists. repeat split; try reflexivity; discriminate.
  - vm_compute. reflexivity.
  - vm_compute. reflexivity.
  - vm_compute. reflexivity.
  - vm_compute. reflexivity.
  - exact I.
  - rewrite Hrun. cbn [fst snd]. split; [reflexivity | exact Hstore].
Defined.

Definition world_with_prompt_allowed : World :=
  after (promptGating reporting_env question_text "123" "obo-token" "etag-1"
           (JStr "evaluateInline") 0)
        (world_with_scope "evaluateInline" "evaluateOffline").

Definition world_with_reported_answer : World :=
  after (answering reporting_env question_text "123" scenario_tokens)
        world_with_prompt_allowed.

Definition world_with_title : World :=
  after (titling reporting_env question_text) world_with_reported_answer.

Lemma unblocked_request_witness :
  (postChats reporting_env signed_request empty_store).1.1
    = data [ndjson_line scenario_answer "123"] ndjson_headers
  /\ sessionSequenceMap (postChats reporting_env signed_request empty_store).1.2 !! "123"
     = Some 3.
Proof.
  pose proof (unblocked_request_outcome reporting_env signed_request empty_store
                question_text "1" "123" scenario_tokens world_with_tokens
                (world_with_scope "evaluateInline" "evaluateOffline")
                world_with_prompt_allowed world_with_reported_answer
                world_with_reported_answer world_with_title
                "etag-1" (JStr "evaluateInline") (JStr "evaluateOffline") 1 1
                scenario_answer) as Hrun.
  cbv zeta in Hrun. rewrite Hrun.
  - split; vm_compute; reflexivity.
  - do 3 eexists. repeat split; try reflexivity; discriminate.
  - vm_compute. reflexivity.
  - vm_compute. reflexivity.
  - vm_compute. reflexivity.
  - vm_compute. reflexivity.
  - vm_compute. reflexivity.
  - vm_compute. reflexivity.
Defined.

(** * [security.ts] *)

Module Security.

(** [v ?? d] *)
Definition nullish (v : jsval) : bool :=
  match v with JUndefined | JNull => true | _ => false end.

Definition coalesce (v d : jsval) : jsval := if nullish v then d else v.

Section GetUserId.

(** [Buffer.from(s, 'base64').toString('ascii')] and [JSON.parse]. *)
Variable from_base64 : string -> string.
Variable JSON_parse : string -> outcome jsval.

(** The [try] block: [userId] after it, from the header
    [x-ms-client-principal]. *)
Definition principal_userId (header : option string) : jsval :=
  let token := from_base64 (default EmptyString header) in
  let infos := if Js.is_empty token then Returned (JStr token) else JSON_parse token in
  match infos with
  | Returned infos => opt_prop infos "userId"
  | Threw _ => JUndefined
  end.

(** [getUserId(request, body)]: [header] is the principal header, [query]
    is [request.query.get('userId')]. *)
Definition getUserId (header : option string) (body : jsval) (query : option string)
  : jsval :=
  coalesce (principal_userId header)
    (coalesce (opt_prop (opt_prop body "context") "userId")
       (coalesce (match query with Some s => JStr s | None => JNull end) JUndefined)).

End GetUserId.

(** *** [getCredentials] *)

(** A [DefaultAzureCredential], by the options it was made with. *)
Inductive Credential : Type :=
| DefaultCredential
| TenantCredential (tenantId : option string).

(** [getCredentials()]: the module's [credentials] before, the credential
    returned and [credentials] after. *)
Definition getCredentials (AZURE_ENV_TYPE AZURE_TENANT_ID : option string)
    (credentials : option Credential) : Credential * option Credential :=
  let made :=
    match AZURE_ENV_TYPE with
    | Some t => if String.eqb t "dev" then TenantCredential AZURE_TENANT_ID
                else DefaultCredential
    | None => DefaultCredential
    end in
  let credentials := match credentials with Some c => c | None => made end in
  (credentials, Some credentials).

End Security.

(** X17. The user id of a request is never [null]; it is [undefined]
    exactly when the principal, the body and the query give none; a
    principal header that decodes to nothing or to text that is not JSON
    counts as giving none; and a source is used only when the ones before
    it give none, so that an empty string from the principal or from the
    body is the user id, whatever the later sources hold. *)
Theorem user_id_comes_from_the_first_source
    (from_base64 : string -> string) (JSON_parse : string -> outcome jsval)
    (header : option string) (body : jsval) (query : option string) :
  let principal := Security.principal_userId from_base64 JSON_parse header in
  let context := opt_prop (opt_prop body "context") "userId" in
  let userId := Security.getUserId from_base64 JSON_parse header body query in
  userId ≠ JNull
  /\ (userId = JUndefined <->
      Security.nullish principal = true /\ Security.nullish context = true /\ query = None)
  /\ (Security.nullish principal = false -> userId = principal)
  /\ (Security.nullish principal = true -> Security.nullish context = false ->
      userId = context)
  /\ (Security.nullish principal = true -> Security.nullish context = true ->
      forall s, query = Some s -> userId = JStr s)
  /\ ((from_base64 (default EmptyString header) = EmptyString
       \/ exists message,
            JSON_parse (from_base64 (default EmptyString header)) = Threw message) ->
      principal = JUndefined).
Proof.
  intros principal context userId.
  assert (Hlast : (from_base64 (default EmptyString header) = EmptyString
                   \/ exists message,
                        JSON_parse (from_base64 (default EmptyString header)) = Threw message) ->
                  principal = JUndefined).
  { unfold principal, Security.principal_userId. intros [Hempty | [message Hthrow]].
    - by rewrite Hempty.
    - destruct (Js.is_empty _) eqn:Htoken; [|by rewrite Hthrow].
      destruct (from_base64 _); [done | discriminate]. }
  assert (Hid : userId = Security.coalesce principal
                  (Security.coalesce context
                     (Security.coalesce
                        (match query with Some s => JStr s | None => JNull end) JUndefined)))
    by reflexivity.
  clearbody principal context userId. subst userId. unfold Security.coalesce.
  split; [|split; [|split; [|split; [|split; [|exact Hlast]]]]].
  - destruct principal, context, query; simpl; discriminate.
  - destruct principal, context, query; simpl; split; try done; intuition discriminate.
  - intros H. by rewrite H.
  - intros Hp Hc. by rewrite Hp, Hc.
  - intros Hp Hc s ->. by rewrite Hp, Hc.
Qed.

(** * [postDocuments] *)

Module Documents.

(** An entry of the form data: a string, or a file with its name. *)
Inductive FormValue : Type :=
| Text (value : string)
| File (name : string).

(** [v.toString()] *)
Definition toString (v : FormValue) : string :=
  match v with Text s => s | File _ => "[object File]" end.

(** [v.name] *)
Definition name (v : FormValue) : option string :=
  match v with File n => Some n | Text _ => None end.

Definition Form : Type := list (string * FormValue).

(** [form.get(k)]: the first entry of that name. *)
Fixpoint get (k : string) (form : Form) : option FormValue :=
  match form with
  | [] => None
  | (k', v) :: rest => if String.eqb k k' then Some v else get k rest
  end.

(** [form.has(k)] *)
Definition has (k : string) (form : Form) : bool :=
  existsb (fun entry => String.eqb k entry.1) form.

(** A loaded document: its text, and of its metadata the source and the
    label ([label_id], [label_name]). *)
Record RawDocument : Type := {
  pageContent : string;
  source : option string;
  label_metadata : option (string * string);
}.

Inductive Response : Type :=
| badRequest (message : string)
| serviceUnavailable (message : string)
| ok (message : string).

Definition status (r : Response) : nat :=
  match r with
  | badRequest _ => 400
  | serviceUnavailable _ => 503
  | ok _ => 200
  end.

(** The configuration of one request, and what each collaborator
    answers. *)
Record Env : Type := {
  AZURE_STORAGE_URL : option string;
  AZURE_STORAGE_CONTAINER_NAME : option string;
  AZURE_OPENAI_API_ENDPOINT : option string;
  AZURE_COSMOSDB_NOSQL_ENDPOINT : option string;
  AZURE_ENV_TYPE : option string;
  AZURE_TENANT_ID : option string;
  formData : outcome Form;
  (* [resources] of the query of the existence check: the ids found *)
  existingDocuments : option string -> outcome (option (list string));
  (* [resources] of the query before the deletion *)
  documentsToDelete : option string -> outcome (option (list string));
  loader_load : FormValue -> outcome (list RawDocument);
  splitDocuments : list RawDocument -> outcome (list RawDocument);
  cosmos_fromDocuments : list RawDocument -> outcome unit;
  (* [(await fs.stat(folder)).isDirectory()] *)
  fs_stat : outcome bool;
  faiss_load : outcome unit;
  faiss_addDocuments : list RawDocument -> outcome unit;
  faiss_fromDocuments : list RawDocument -> outcome unit;
  faiss_save : outcome unit;
  file_arrayBuffer : outcome unit;
  blob_upload : outcome unit;
}.

(** The calls that leave the process. *)
Inductive Event : Type :=
| EvQuery (endpoint : string) (credentials : Security.Credential) (filename : option string)
| EvDelete (id : string)
| EvLoad (file : FormValue)
| EvSplit (rawDocument : list RawDocument)
| EvCosmosStore (documents : list RawDocument) (credentials : Security.Credential)
    (endpoint : option string)
| EvStat
| EvFaissLoad
| EvFaissAdd (documents : list RawDocument)
| EvFaissFromDocuments (documents : list RawDocument)
| EvFaissSave
| EvArrayBuffer
| EvUpload (storageUrl containerName : string) (filename : option string)
    (credentials : Security.Credential).

(** The module variable [credentials] of [security.ts], and the calls
    made. *)
Record World : Type := {
  credentials : option Security.Credential;
  trace : list Event;
}.

Inductive res (A : Type) : Type :=
| Val (a : A)
| Thrown (message : string)
| Ret (r : Response).
Arguments Val {A} a.
Arguments Thrown {A} message.
Arguments Ret {A} r.

Definition D (A : Type) : Type := World -> res A * World.

Definition ret {A} (a : A) : D A := fun w => (Val a, w).

Definition bind {A B} (m : D A) (f : A -> D B) : D B := fun w =>
  match m w with
  | (Val a, w') => f a w'
  | (Thrown e, w') => (Thrown e, w')
  | (Ret r, w') => (Ret r, w')
  end.

Definition throw {A} (message : string) : D A := fun w => (Thrown message, w).

Definition return_ {A} (r : Response) : D A := fun w => (Ret r, w).

(** [try { m } catch { handler }] *)
Definition catch {A} (m : D A) (handler : string -> D A) : D A := fun w =>
  match m w with
  | (Thrown e, w') => handler e w'
  | other => other
  end.

Definition emits (es : list Event) : D unit :=
  fun w => (Val (), {| credentials := credentials w; trace := trace w ++ es |}).

(** A call of a collaborator: recorded, then awaited. *)
Definition call {A} (e : Event) (o : outcome A) : D A :=
  bind (emits [e]) (fun _ => match o with Returned a => ret a | Threw m => throw m end).

Definition getCredentials (env : Env) : D Security.Credential := fun w =>
  let r := Security.getCredentials (AZURE_ENV_TYPE env) (AZURE_TENANT_ID env) (credentials w) in
  (Val r.1, {| credentials := r.2; trace := trace w |}).

(** [resources && resources.length > 0] *)
Definition found (resources : option (list string)) : bool :=
  match resources with
  | Some (_ :: _) => true
  | _ => false
  end.

Definition configured (o : option string) : bool := negb (falsy o).

(** Lines 52-81: [shouldUpdate]. *)
Definition checkExisting (env : Env) (filename : option string) : D bool :=
  match AZURE_OPENAI_API_ENDPOINT env, AZURE_COSMOSDB_NOSQL_ENDPOINT env with
  | Some openAi, Some cosmosEndpoint =>
      if Js.is_empty openAi || Js.is_empty cosmosEndpoint then ret false
      else
        catch
          (bind (getCredentials env) (fun credentials =>
           bind (call (EvQuery cosmosEndpoint credentials filename)
                      (existingDocuments env filename)) (fun existing =>
           ret (found existing))))
          (fun _ => ret false)
  | _, _ => ret false
  end.

(** Lines 84-99: the document is loaded, its first page gets the source
    and the label, and it is split. *)
Definition loadDocuments (env : Env) (file : FormValue) (filename : option string)
    (labelId labelName : string) : D (list RawDocument) :=
  bind (call (EvLoad file) (loader_load env file)) (fun rawDocument =>
  match rawDocument with
  | [] => throw "TypeError: cannot read properties of undefined (reading 'metadata')"
  | first :: rest =>
      let rawDocument :=
        {| pageContent := pageContent first; source := filename;
           label_metadata := Some (labelId, labelName) |} :: rest in
      call (EvSplit rawDocument) (splitDocuments env rawDocument)
  end).

(** Lines 107-136: the chunks stored for the file are deleted; the
    deletions are not awaited. *)
Definition deleteExisting (env : Env) (credentials : Security.Credential)
    (filename : option string) (shouldUpdate : bool) : D unit :=
  match AZURE_COSMOSDB_NOSQL_ENDPOINT env with
  | Some cosmosEndpoint =>
      if shouldUpdate && negb (Js.is_empty cosmosEndpoint) then
        catch
          (bind (call (EvQuery cosmosEndpoint credentials filename)
                      (documentsToDelete env filename)) (fun resources =>
           if found resources then emits (map EvDelete (default [] resources))
           else ret ()))
          (fun _ => ret ())
      else ret ()
  | None => ret ()
  end.

(** [checkFolderExists] *)
Definition checkFolderExists (env : Env) : D bool :=
  catch (call EvStat (fs_stat env)) (fun _ => ret false).

(** Lines 102-161: the chunks are stored. *)
Definition storeDocuments (env : Env) (filename : option string) (shouldUpdate : bool)
    (documents : list RawDocument) : D unit :=
  if configured (AZURE_OPENAI_API_ENDPOINT env) then
    bind (getCredentials env) (fun credentials =>
    bind (getCredentials env) (fun _ =>
    bind (deleteExisting env credentials filename shouldUpdate) (fun _ =>
    call (EvCosmosStore documents credentials (AZURE_COSMOSDB_NOSQL_ENDPOINT env))
         (cosmos_fromDocuments env documents))))
  else
    bind (checkFolderExists env) (fun folderExists =>
    if folderExists then
      bind (call EvFaissLoad (faiss_load env)) (fun _ =>
      bind (call (EvFaissAdd documents) (faiss_addDocuments env documents)) (fun _ =>
      call EvFaissSave (faiss_save env)))
    else
      bind (call (EvFaissFromDocuments documents) (faiss_fromDocuments env documents)) (fun _ =>
      call EvFaissSave (faiss_save env))).

(** Lines 163-176: the file is uploaded to the blob storage. *)
Definition uploadFile (env : Env) (filename : option string) : D unit :=
  match AZURE_STORAGE_URL env, AZURE_STORAGE_CONTAINER_NAME env with
  | Some storageUrl, Some containerName =>
      if Js.is_empty storageUrl || Js.is_empty containerName then ret ()
      else
        bind (getCredentials env) (fun credentials =>
        bind (call EvArrayBuffer (file_arrayBuffer env)) (fun _ =>
        call (EvUpload storageUrl containerName filename credentials) (blob_upload env)))
  | _, _ => ret ()
  end.

Definition labelId (parsedForm : Form) : string :=
  str_or (option_map toString (get "labelId" parsedForm)) "123456789".

Definition labelName (parsedForm : Form) : string :=
  str_or (option_map toString (get "labelName" parsedForm)) "General".

(** The message of line 31; the name of the field is in double quotes. *)
Definition missing_file : string :=
  "Required field " +:+ String Js.dquote ("file" +:+ String Js.dquote
    " is missing from form data.").

(** Lines 44-178: the file of the form is indexed and uploaded.  The
    constructors of the clients, of the loader and of the splitter are
    taken to return. *)
Definition processFile (env : Env) (parsedForm : Form) (file : FormValue) : D Response :=
  let filename := name file in
  bind (checkExisting env filename) (fun shouldUpdate =>
  bind (loadDocuments env file filename (labelId parsedForm) (labelName parsedForm))
    (fun documents =>
  bind (storeDocuments env filename shouldUpdate documents) (fun _ =>
  bind (uploadFile env filename) (fun _ =>
  ret (ok "PDF file uploaded successfully."))))).

(** The [try] block of the handler. *)
Definition postDocuments_try (env : Env) : D Response :=
  bind (match formData env with Returned f => ret f | Threw m => throw m end)
    (fun parsedForm =>
  if negb (has "file" parsedForm)
  then return_ (badRequest missing_file)
  else
    match get "file" parsedForm with
    | None => throw "TypeError: cannot read properties of null (reading 'name')"
    | Some file => processFile env parsedForm file
    end).

Definition unavailable : Response :=
  serviceUnavailable "Service temporarily unavailable. Please try again later.".

(** [postDocuments]: from the module's [credentials], the response, the
    [credentials] left, and the calls made. *)
Definition postDocuments (env : Env) (credentials0 : option Security.Credential)
  : Response * option Security.Credential * list Event :=
  match postDocuments_try env {| credentials := credentials0; trace := [] |} with
  | (Val r, w) | (Ret r, w) => (r, credentials w, trace w)
  | (Thrown _, w) => (unavailable, credentials w, trace w)
  end.

End Documents.

Lemma has_get k form :
  Documents.has k form = true -> exists v, Documents.get k form = Some v.
Proof.
  induction form as [|[k' v] form IH]; simpl; [done|].
  destruct (String.eqb k k'); [by exists v|]. exact IH.
Qed.

Section DocumentsLogic.

Import Documents.

Variable env : Env.
Variable credentials0 : option Security.Credential.

(** The credential of the process: the one held, or else the one the
    first call makes. *)
Definition credential : Security.Credential :=
  (Security.getCredentials (AZURE_ENV_TYPE env) (AZURE_TENANT_ID env) credentials0).1.

Definition held (c : option Security.Credential) : Prop :=
  c = credentials0 \/ c = Some credential.

(** From a world that holds the credential, [m] leaves one that does,
    makes only calls that satisfy [P], and gives a value that satisfies [Q]
    or returns a response that satisfies [R]. *)
Definition triple {A} (P : Event -> Prop) (Q : A -> Prop) (R : Response -> Prop)
    (m : D A) : Prop :=
  forall w, held (credentials w) ->
    held (credentials (m w).2)
    /\ (exists es, trace (m w).2 = trace w ++ es /\ Forall P es)
    /\ match (m w).1 with
       | Val a => Q a
       | Ret r => R r
       | Thrown _ => True
       end.

Section Rules.

Context {A B : Type} (P : Event -> Prop) (R : Response -> Prop).

Lemma triple_ret (Q : A -> Prop) a : Q a -> triple P Q R (ret a).
Proof.
  intros Ha w Hw. split; [done|]. split; [|done].
  exists []. by rewrite app_nil_r.
Qed.

Lemma triple_throw (Q : A -> Prop) e : triple P Q R (throw e).
Proof.
  intros w Hw. split; [done|]. split; [|done].
  exists []. by rewrite app_nil_r.
Qed.

Lemma triple_bind (Q' : A -> Prop) (Q : B -> Prop) m f :
  triple P Q' R m -> (forall a, Q' a -> triple P Q R (f a)) -> triple P Q R (bind m f).
Proof.
  intros Hm Hf w Hw. unfold bind.
  destruct (Hm w Hw) as (Hheld & (es & Htrace & Hes) & Hres).
  destruct (m w) as [[a|e|r] w1]; cbn [fst snd] in *.
  - destruct (Hf a Hres w1 Hheld) as (Hheld' & (es' & Htrace' & Hes') & Hres').
    split; [done|]. split; [|done].
    exists (es ++ es'). rewrite Htrace', Htrace, app_assoc. split; [done|].
    by apply Forall_app.
  - split; [done|]. split; [|done]. by exists es.
  - split; [done|]. split; [|done]. by exists es.
Qed.

Lemma triple_catch (Q : A -> Prop) m handler :
  triple P Q R m -> (forall e, triple P Q R (handler e)) -> triple P Q R (catch m handler).
Proof.
  intros Hm Hh w Hw. unfold catch.
  destruct (Hm w Hw) as (Hheld & (es & Htrace & Hes) & Hres).
  destruct (m w) as [[a|e|r] w1]; cbn [fst snd] in *.
  - split; [done|]. split; [|done]. by exists es.
  - destruct (Hh e w1 Hheld) as (Hheld' & (es' & Htrace' & Hes') & Hres').
    split; [done|]. split; [|done].
    exists (es ++ es'). rewrite Htrace', Htrace, app_assoc. split; [done|].
    by apply Forall_app.
  - split; [done|]. split; [|done]. by exists es.
Qed.

Lemma triple_emits (Q : unit -> Prop) es : Forall P es -> Q () -> triple P Q R (emits es).
Proof. intros Hes Hq w Hw. split; [done|]. split; [|done]. by exists es. Qed.

Lemma triple_call (Q : A -> Prop) e o :
  P e -> (forall a, o = Returned a -> Q a) -> triple P Q R (call e o).
Proof.
  intros He Ho w Hw. unfold call, bind, emits. cbn [fst snd].
  destruct o as [a|message]; cbn [ret throw fst snd credentials trace].
  - split; [done|]. split; [|by apply Ho]. exists [e]. split; [done|]. by constructor.
  - split; [done|]. split; [|done]. exists [e]. split; [done|]. by constructor.
Qed.

Lemma triple_getCredentials (Q : Security.Credential -> Prop) :
  Q credential -> triple P Q R (getCredentials env).
Proof.
  intros Hq w Hw. unfold getCredentials. cbn [fst snd credentials trace].
  assert (Hmade : (Security.getCredentials (AZURE_ENV_TYPE env) (AZURE_TENANT_ID env)
                     (credentials w)).1 = credential).
  { destruct Hw as [-> | ->]; [done|]. reflexivity. }
  split; [|split].
  - right. unfold Security.getCredentials in *. cbn [fst snd] in *. by rewrite Hmade.
  - exists []. by rewrite app_nil_r.
  - by rewrite Hmade.
Qed.

End Rules.

(** The document that is split: the first page with the source and the
    label of the form. *)
Definition labelled_document (parsedForm : Form) (file : FormValue) (first : RawDocument)
  : RawDocument :=
  {| pageContent := pageContent first; source := name file;
     label_metadata := Some (labelId parsedForm, labelName parsedForm) |}.

(** [documents] are the chunks of the labelled_document document of the file. *)
Definition loaded (parsedForm : Form) (file : FormValue) (documents : list RawDocument)
  : Prop :=
  exists first rest,
    loader_load env file = Returned (first :: rest)
    /\ splitDocuments env (labelled_document parsedForm file first :: rest) = Returned documents.

(** The store took the chunks. *)
Definition stored (documents : list RawDocument) : Prop :=
  if configured (AZURE_OPENAI_API_ENDPOINT env)
  then cosmos_fromDocuments env documents = Returned ()
  else faiss_save env = Returned ().

(** What holds of a call that the handler makes for [file]. *)
Definition expected (parsedForm : Form) (file : FormValue) (e : Event) : Prop :=
  match e with
  | EvQuery endpoint c filename =>
      AZURE_COSMOSDB_NOSQL_ENDPOINT env = Some endpoint
      /\ configured (AZURE_OPENAI_API_ENDPOINT env) = true
      /\ c = credential /\ filename = name file
  | EvDelete id =>
      (exists ids, existingDocuments env (name file) = Returned (Some ids) /\ ids <> [])
      /\ (exists ids, documentsToDelete env (name file) = Returned (Some ids) /\ id ∈ ids)
      /\ exists documents, loaded parsedForm file documents
  | EvLoad f => f = file
  | EvSplit rawDocument =>
      exists first rest,
        loader_load env file = Returned (first :: rest)
        /\ rawDocument = labelled_document parsedForm file first :: rest
  | EvCosmosStore documents c endpoint =>
      loaded parsedForm file documents /\ c = credential
      /\ endpoint = AZURE_COSMOSDB_NOSQL_ENDPOINT env
      /\ configured (AZURE_OPENAI_API_ENDPOINT env) = true
  | EvStat | EvFaissSave => configured (AZURE_OPENAI_API_ENDPOINT env) = false
  | EvFaissLoad =>
      configured (AZURE_OPENAI_API_ENDPOINT env) = false /\ fs_stat env = Returned true
  | EvFaissAdd documents =>
      configured (AZURE_OPENAI_API_ENDPOINT env) = false /\ fs_stat env = Returned true
      /\ loaded parsedForm file documents
  | EvFaissFromDocuments documents =>
      configured (AZURE_OPENAI_API_ENDPOINT env) = false /\ fs_stat env <> Returned true
      /\ loaded parsedForm file documents
  | EvArrayBuffer =>
      exists documents, loaded parsedForm file documents /\ stored documents
  | EvUpload storageUrl containerName filename c =>
      AZURE_STORAGE_URL env = Some storageUrl
      /\ AZURE_STORAGE_CONTAINER_NAME env = Some containerName
      /\ filename = name file /\ c = credential
      /\ file_arrayBuffer env = Returned ()
      /\ exists documents, loaded parsedForm file documents /\ stored documents
  end.

Section Stages.

Variable parsedForm : Form.
Variable file : FormValue.
Variable R : Response -> Prop.

Let P := expected parsedForm file.

Lemma checkExisting_triple :
  triple P (fun shouldUpdate =>
              shouldUpdate = true ->
              exists ids, existingDocuments env (name file) = Returned (Some ids) /\ ids <> [])
         R (checkExisting env (name file)).
Proof.
  unfold checkExisting.
  destruct (AZURE_OPENAI_API_ENDPOINT env) as [openAi|] eqn:HopenAi;
    [|by apply triple_ret].
  destruct (AZURE_COSMOSDB_NOSQL_ENDPOINT env) as [cosmosEndpoint|] eqn:Hcosmos;
    [|by apply triple_ret].
  destruct (Js.is_empty openAi || Js.is_empty cosmosEndpoint) eqn:Hempty;
    [by apply triple_ret|].
  apply orb_false_elim in Hempty as [HemptyAi _].
  apply triple_catch; [|intros; by apply triple_ret].
  eapply triple_bind; [apply (triple_getCredentials _ _ (fun c => c = credential)); done|].
  intros c ->.
  eapply triple_bind.
  - apply (triple_call _ _ (fun existing =>
             existingDocuments env (name file) = Returned existing)).
    + cbn. rewrite Hcosmos, HopenAi. unfold configured. cbn. by rewrite HemptyAi.
    + done.
  - intros existing Hexisting. apply triple_ret. intros Hfound.
    destruct existing as [[|id ids]|]; try done. by exists (id :: ids).
Qed.

Lemma loadDocuments_triple :
  triple P (loaded parsedForm file) R
    (loadDocuments env file (name file) (labelId parsedForm) (labelName parsedForm)).
Proof.
  unfold loadDocuments.
  eapply triple_bind.
  - by apply (triple_call _ _ (fun rawDocument =>
                loader_load env file = Returned rawDocument)).
  - intros [|first rest] Hload; [apply triple_throw|].
    apply triple_call.
    + by exists first, rest.
    + intros documents Hsplit. by exists first, rest.
Qed.

Lemma deleteExisting_triple shouldUpdate :
  configured (AZURE_OPENAI_API_ENDPOINT env) = true ->
  (shouldUpdate = true ->
   exists ids, existingDocuments env (name file) = Returned (Some ids) /\ ids <> []) ->
  (exists documents, loaded parsedForm file documents) ->
  triple P (fun _ => True) R (deleteExisting env credential (name file) shouldUpdate).
Proof.
  intros HopenAi Hexisting Hloaded. unfold deleteExisting.
  destruct (AZURE_COSMOSDB_NOSQL_ENDPOINT env) as [cosmosEndpoint|] eqn:Hcosmos;
    [|by apply triple_ret].
  destruct shouldUpdate; cbn [andb]; [|by apply triple_ret].
  destruct (Js.is_empty cosmosEndpoint); cbn [negb]; [by apply triple_ret|].
  apply triple_catch; [|intros; by apply triple_ret].
  eapply triple_bind.
  - apply (triple_call _ _ (fun resources =>
             documentsToDelete env (name file) = Returned resources)); [|done].
    cbn. by rewrite Hcosmos.
  - intros resources Hresources.
    destruct (found resources) eqn:Hfound; [|by apply triple_ret].
    destruct resources as [ids|]; [|done].
    apply triple_emits; [|done]. apply Forall_forall. intros e He.
    apply list_elem_of_fmap in He as (id & -> & Hid). cbn.
    split; [by apply Hexisting|]. split; [by exists ids | done].
Qed.

Lemma checkFolderExists_triple :
  configured (AZURE_OPENAI_API_ENDPOINT env) = false ->
  triple P (fun folderExists => folderExists = true <-> fs_stat env = Returned true) R
    (checkFolderExists env).
Proof.
  intros HopenAi w Hw. unfold checkFolderExists, catch, call, bind, emits, throw, ret.
  destruct (fs_stat env) as [isDirectory|message]; cbn.
  - split; [done|]. split; [|split; congruence].
    exists [EvStat]. split; [done|]. by constructor.
  - split; [done|]. split; [|done].
    exists [EvStat]. split; [done|]. by constructor.
Qed.

Lemma storeDocuments_triple shouldUpdate documents :
  (shouldUpdate = true ->
   exists ids, existingDocuments env (name file) = Returned (Some ids) /\ ids <> []) ->
  loaded parsedForm file documents ->
  triple P (fun _ => stored documents) R
    (storeDocuments env (name file) shouldUpdate documents).
Proof.
  intros Hexisting Hloaded. unfold storeDocuments, stored.
  destruct (configured (AZURE_OPENAI_API_ENDPOINT env)) eqn:HopenAi.
  - eapply triple_bind; [apply (triple_getCredentials _ _ (fun c => c = credential)); done|].
    intros c ->.
    eapply triple_bind; [apply (triple_getCredentials _ _ (fun _ => True)); done|].
    intros _ _.
    eapply triple_bind; [apply deleteExisting_triple; eauto|].
    intros _ _. apply triple_call; [done|]. by intros [].
  - eapply triple_bind; [by apply checkFolderExists_triple|].
    intros folderExists Hfolder. destruct folderExists.
    + assert (Hstat : fs_stat env = Returned true) by by apply Hfolder.
      eapply triple_bind; [by apply (triple_call _ _ (fun _ => True))|]. intros _ _.
      eapply triple_bind; [by apply (triple_call _ _ (fun _ => True))|]. intros _ _.
      apply triple_call; [done|]. by intros [].
    + assert (Hstat : fs_stat env <> Returned true).
      { intros H. by apply Hfolder in H. }
      eapply triple_bind; [by apply (triple_call _ _ (fun _ => True))|]. intros _ _.
      apply triple_call; [done|]. by intros [].
Qed.

(** The blob storage is configured. *)
Definition storage_configured : bool :=
  configured (AZURE_STORAGE_URL env) && configured (AZURE_STORAGE_CONTAINER_NAME env).

Lemma uploadFile_triple documents :
  loaded parsedForm file documents -> stored documents ->
  triple P (fun _ => storage_configured = true -> blob_upload env = Returned ()) R
    (uploadFile env (name file)).
Proof.
  intros Hloaded Hstored. unfold uploadFile, storage_configured, configured.
  destruct (AZURE_STORAGE_URL env) as [storageUrl|] eqn:Hurl; [|by apply triple_ret].
  destruct (AZURE_STORAGE_CONTAINER_NAME env) as [containerName|] eqn:Hcontainer;
    [|apply triple_ret; cbn; by rewrite andb_false_r].
  cbn [falsy].
  destruct (Js.is_empty storageUrl); cbn [orb negb andb]; [by apply triple_ret|].
  destruct (Js.is_empty containerName); cbn [negb]; [by apply triple_ret|].
  eapply triple_bind; [apply (triple_getCredentials _ _ (fun c => c = credential)); done|].
  intros c ->.
  eapply triple_bind.
  - apply (triple_call _ _ (fun _ => file_arrayBuffer env = Returned ())).
    + by exists documents.
    + by intros [].
  - intros [] Hbuffer. cbn beta in Hbuffer. apply triple_call.
    + cbn. rewrite Hurl, Hcontainer. repeat split; try done. by exists documents.
    + by intros [].
Qed.

Lemma processFile_triple :
  triple P (fun response =>
              response = ok "PDF file uploaded successfully."
              /\ (exists documents, loaded parsedForm file documents /\ stored documents)
              /\ (storage_configured = true -> blob_upload env = Returned ()))
         R (processFile env parsedForm file).
Proof.
  unfold processFile.
  eapply triple_bind; [apply checkExisting_triple|]. intros shouldUpdate Hexisting.
  eapply triple_bind; [apply loadDocuments_triple|]. intros documents Hloaded.
  eapply triple_bind; [by apply storeDocuments_triple|]. intros [] Hstored. cbn beta in Hstored.
  eapply triple_bind; [by apply (uploadFile_triple documents)|]. intros [] Hupload. cbn beta in Hupload.
  apply triple_ret. split; [done|]. split; [by exists documents | done].
Qed.

End Stages.

Lemma postDocuments_run parsedForm file :
  formData env = Returned parsedForm ->
  get "file" parsedForm = Some file ->
  has "file" parsedForm = true ->
  held (postDocuments env credentials0).1.2
  /\ Forall (expected parsedForm file) (postDocuments env credentials0).2
  /\ ((postDocuments env credentials0).1.1 = unavailable
      \/ ((postDocuments env credentials0).1.1 = ok "PDF file uploaded successfully."
          /\ (exists documents, loaded parsedForm file documents /\ stored documents)
          /\ (storage_configured = true -> blob_upload env = Returned ()))).
Proof.
  intros Hform Hfile Hhas. unfold postDocuments, postDocuments_try, bind.
  rewrite Hform. cbn [ret]. rewrite Hhas. cbn [negb]. rewrite Hfile.
  destruct (processFile_triple parsedForm file (fun _ => False)
              {| credentials := credentials0; trace := [] |})
    as (Hheld & (es & Htrace & Hes) & Hres); [by left|].
  cbn [trace app] in Htrace.
  destruct (processFile env parsedForm file _) as [[response|message|response] w];
    cbn [fst snd] in *; [|by rewrite Htrace; auto|done].
  rewrite Htrace. auto.
Qed.

Lemma postDocuments_without_file :
  match formData env with
  | Returned parsedForm =>
      has "file" parsedForm = false ->
      postDocuments env credentials0 = (badRequest missing_file, credentials0, [])
  | Threw _ => postDocuments env credentials0 = (unavailable, credentials0, [])
  end.
Proof.
  unfold postDocuments, postDocuments_try, bind.
  destruct (formData env) as [parsedForm|message]; [|done].
  cbn [ret]. by intros ->.
Qed.

End DocumentsLogic.

Section Uploads.

Import Documents.

(** X18. An upload is answered with 400 exactly when the form data is
    read and holds no field "file"; then nothing is called and the
    credential of the module is as it was. *)
Theorem upload_without_file_answers_400 (env : Env) (credentials0 : option Security.Credential) :
  (Documents.status (postDocuments env credentials0).1.1 = 400
   <-> exists parsedForm, formData env = Returned parsedForm /\ Documents.has "file" parsedForm = false)
  /\ (Documents.status (postDocuments env credentials0).1.1 = 400 ->
      postDocuments env credentials0 = (Documents.badRequest missing_file, credentials0, [])).
Proof.
  assert (Hiff : Documents.status (postDocuments env credentials0).1.1 = 400
                 <-> exists parsedForm, formData env = Returned parsedForm
                                        /\ Documents.has "file" parsedForm = false).
  { pose proof (postDocuments_without_file env credentials0) as Hwithout.
    destruct (formData env) as [parsedForm|message] eqn:Hform.
    - destruct (Documents.has "file" parsedForm) eqn:Hhas.
      + destruct (has_get _ _ Hhas) as [file Hfile].
        destruct (postDocuments_run env credentials0 parsedForm file Hform Hfile Hhas)
          as (_ & _ & [-> | [-> _]]).
        * split; [discriminate|]. intros (f & Hf & Hno). congruence.
        * split; [discriminate|]. intros (f & Hf & Hno). congruence.
      + rewrite Hwithout by done. split; [|done]. intros _. by exists parsedForm.
    - rewrite Hwithout. split; [discriminate|]. by intros (f & Hf & _). }
  split; [exact Hiff|].
  intros (parsedForm & Hform & Hhas)%Hiff.
  pose proof (postDocuments_without_file env credentials0) as Hwithout.
  rewrite Hform in Hwithout. by apply Hwithout.
Qed.

Lemma get_has k form v :
  Documents.get k form = Some v -> Documents.has k form = true.
Proof.
  induction form as [|[k' v'] form IH]; simpl; [done|].
  destruct (String.eqb k k'); [done|]. exact IH.
Qed.

(** X19. The document that is split is the loaded one whose first page
    carries the name of the file as source and the label of the form;
    what goes to a store is the chunks the splitter made of it.  The label
    id and the label name are never empty: a text field that is not empty
    is taken as it is, and an absent or empty one gives "123456789" and
    "General". *)
Theorem stored_chunks_carry_the_label
    (env : Env) (credentials0 : option Security.Credential)
    (parsedForm : Form) (file : FormValue) :
  formData env = Returned parsedForm ->
  Documents.get "file" parsedForm = Some file ->
  Forall (fun e =>
            match e with
            | EvLoad f => f = file
            | EvSplit rawDocument =>
                exists first rest,
                  loader_load env file = Returned (first :: rest)
                  /\ rawDocument
                     = {| pageContent := pageContent first; source := name file;
                          label_metadata :=
                            Some (labelId parsedForm, labelName parsedForm) |} :: rest
            | EvCosmosStore documents _ _ | EvFaissAdd documents
            | EvFaissFromDocuments documents =>
                exists first rest,
                  loader_load env file = Returned (first :: rest)
                  /\ splitDocuments env
                       ({| pageContent := pageContent first; source := name file;
                           label_metadata :=
                             Some (labelId parsedForm, labelName parsedForm) |} :: rest)
                     = Returned documents
            | _ => True
            end) (postDocuments env credentials0).2
  /\ labelId parsedForm <> EmptyString
  /\ labelName parsedForm <> EmptyString
  /\ (forall text, Documents.get "labelId" parsedForm = Some (Text text) ->
                   text <> EmptyString -> labelId parsedForm = text)
  /\ (Documents.get "labelId" parsedForm = None
      \/ Documents.get "labelId" parsedForm = Some (Text EmptyString) ->
      labelId parsedForm = "123456789")
  /\ (forall text, Documents.get "labelName" parsedForm = Some (Text text) ->
                   text <> EmptyString -> labelName parsedForm = text)
  /\ (Documents.get "labelName" parsedForm = None
      \/ Documents.get "labelName" parsedForm = Some (Text EmptyString) ->
      labelName parsedForm = "General").
Proof.
  intros Hform Hfile.
  destruct (postDocuments_run env credentials0 parsedForm file Hform Hfile
              (get_has _ _ _ Hfile)) as (_ & Hcalls & _).
  split.
  { eapply Forall_impl; [exact Hcalls|]. intros e He. by destruct e; cbn in He |- *;
      try done; destruct He as (H1 & H2 & H3); try done. }
  unfold labelId, labelName.
  split; [by apply str_or_nonempty|]. split; [by apply str_or_nonempty|].
  split; [|split; [|split]].
  - intros text -> Htext. cbn. by rewrite (is_empty_false _ Htext).
  - by intros [-> | ->].
  - intros text -> Htext. cbn. by rewrite (is_empty_false _ Htext).
  - by intros [-> | ->].
Qed.

(** X20. A query is made only with both endpoints configured, and for
    the name of the file.  A stored chunk is deleted only when the
    existence check found a document, the chunk was found by the second
    query, and the file was loaded and split. *)
Theorem deletions_follow_a_found_document
    (env : Env) (credentials0 : option Security.Credential)
    (parsedForm : Form) (file : FormValue) :
  formData env = Returned parsedForm ->
  Documents.get "file" parsedForm = Some file ->
  Forall (fun e =>
            match e with
            | EvQuery endpoint _ filename =>
                AZURE_COSMOSDB_NOSQL_ENDPOINT env = Some endpoint
                /\ configured (AZURE_OPENAI_API_ENDPOINT env) = true
                /\ filename = name file
            | EvDelete id =>
                (exists ids,
                   existingDocuments env (name file) = Returned (Some ids) /\ ids <> [])
                /\ (exists ids,
                      documentsToDelete env (name file) = Returned (Some ids) /\ id ∈ ids)
                /\ (exists first rest documents,
                      loader_load env file = Returned (first :: rest)
                      /\ splitDocuments env
                           ({| pageContent := pageContent first; source := name file;
                               label_metadata :=
                                 Some (labelId parsedForm, labelName parsedForm) |} :: rest)
                         = Returned documents)
            | _ => True
            end) (postDocuments env credentials0).2.
Proof.
  intros Hform Hfile.
  destruct (postDocuments_run env credentials0 parsedForm file Hform Hfile
              (get_has _ _ _ Hfile)) as (_ & Hcalls & _).
  eapply Forall_impl; [exact Hcalls|]. intros e He.
  destruct e; cbn in He |- *; try done.
  - by destruct He as (? & ? & ? & ?).
  - destruct He as (Hfound & Hids & documents & first & rest & Hload & Hsplit).
    split; [done|]. split; [done|]. by exists first, rest, documents.
Qed.

(** X21. The file is read and uploaded to the blob storage only after
    its chunks were taken by the store; and the answer is 503, or it is
    the success message, in which case the chunks were stored and, when
    the blob storage is configured, the upload returned. *)
Theorem upload_follows_the_store
    (env : Env) (credentials0 : option Security.Credential)
    (parsedForm : Form) (file : FormValue) :
  formData env = Returned parsedForm ->
  Documents.get "file" parsedForm = Some file ->
  let indexed :=
    exists first rest documents,
      loader_load env file = Returned (first :: rest)
      /\ splitDocuments env
           ({| pageContent := pageContent first; source := name file;
               label_metadata := Some (labelId parsedForm, labelName parsedForm) |} :: rest)
         = Returned documents
      /\ if configured (AZURE_OPENAI_API_ENDPOINT env)
         then cosmos_fromDocuments env documents = Returned ()
         else faiss_save env = Returned () in
  Forall (fun e =>
            match e with
            | EvArrayBuffer => indexed
            | EvUpload storageUrl containerName filename _ =>
                indexed
                /\ AZURE_STORAGE_URL env = Some storageUrl
                /\ AZURE_STORAGE_CONTAINER_NAME env = Some containerName
                /\ filename = name file
                /\ file_arrayBuffer env = Returned ()
            | _ => True
            end) (postDocuments env credentials0).2
  /\ ((postDocuments env credentials0).1.1 = Documents.unavailable
      \/ ((postDocuments env credentials0).1.1 = ok "PDF file uploaded successfully."
          /\ indexed
          /\ (configured (AZURE_STORAGE_URL env)
              && configured (AZURE_STORAGE_CONTAINER_NAME env) = true ->
              blob_upload env = Returned ()))).
Proof.
  intros Hform Hfile indexed.
  destruct (postDocuments_run env credentials0 parsedForm file Hform Hfile
              (get_has _ _ _ Hfile)) as (_ & Hcalls & Hresponse).
  assert (Hindexed : forall documents,
             loaded env parsedForm file documents -> stored env documents -> indexed).
  { intros documents (first & rest & Hload & Hsplit) Hstored.
    by exists first, rest, documents. }
  split.
  - eapply Forall_impl; [exact Hcalls|]. intros e He.
    destruct e; cbn in He |- *; try done.
    + destruct He as (documents & Hloaded & Hstored). eauto.
    + destruct He as (Hurl & Hcontainer & Hname & _ & Hbuffer & documents & Hloaded & Hstored).
      eauto 10.
  - destruct Hresponse as [Hu | (Hok & (documents & Hloaded & Hstored) & Hupload)];
      [by left|].
    right. split; [done|]. split; [eauto | done].
Qed.

(** X22. Every client of one upload gets the same credential: the one
    the module holds or, when it holds none, the one made from the
    environment of this request; the module then holds what it held or
    that credential, and a credential it held is not replaced. *)
Theorem one_credential_serves_the_upload
    (env : Env) (credentials0 : option Security.Credential) :
  let made :=
    (Security.getCredentials (AZURE_ENV_TYPE env) (AZURE_TENANT_ID env) credentials0).1 in
  Forall (fun e =>
            match e with
            | EvQuery _ c _ | EvCosmosStore _ c _ | EvUpload _ _ _ c => c = made
            | _ => True
            end) (postDocuments env credentials0).2
  /\ ((postDocuments env credentials0).1.2 = credentials0
      \/ (postDocuments env credentials0).1.2 = Some made)
  /\ (forall c, credentials0 = Some c ->
                made = c /\ (postDocuments env credentials0).1.2 = credentials0).
Proof.
  intros made.
  assert (Hrun : Forall (fun e =>
                           match e with
                           | EvQuery _ c _ | EvCosmosStore _ c _ | EvUpload _ _ _ c => c = made
                           | _ => True
                           end) (postDocuments env credentials0).2
                 /\ held env credentials0 (postDocuments env credentials0).1.2).
  { pose proof (postDocuments_without_file env credentials0) as Hwithout.
    destruct (formData env) as [parsedForm|message] eqn:Hform;
      [|rewrite Hwithout; split; [constructor | by left]].
    destruct (Documents.has "file" parsedForm) eqn:Hhas;
      [|rewrite Hwithout by done; split; [constructor | by left]].
    destruct (has_get _ _ Hhas) as [file Hfile].
    destruct (postDocuments_run env credentials0 parsedForm file Hform Hfile Hhas)
      as (Hheld & Hcalls & _).
    split; [|done].
    eapply Forall_impl; [exact Hcalls|]. intros e He.
    destruct e; cbn in He |- *; try done.
    - by destruct He as (_ & _ & -> & _).
    - by destruct He as (_ & -> & _).
    - by destruct He as (_ & _ & _ & -> & _). }
  destruct Hrun as [Hcalls Hheld].
  split; [done|]. split; [exact Hheld|].
  intros c ->. split; [done|]. by destruct Hheld as [-> | ->].
Qed.

Section DocumentsProgress.

Import Documents.

(** [m] gives a value, which satisfies [Q]. *)
Definition succeeds {A} (m : D A) (Q : A -> Prop) : Prop :=
  forall w, exists a w', m w = (Val a, w') /\ Q a.

Lemma succeeds_ret {A} (a : A) (Q : A -> Prop) : Q a -> succeeds (ret a) Q.
Proof. intros Ha w. by exists a, w. Qed.

Lemma succeeds_bind {A B} (m : D A) (f : A -> D B) (Q' : A -> Prop) (Q : B -> Prop) :
  succeeds m Q' -> (forall a, Q' a -> succeeds (f a) Q) -> succeeds (bind m f) Q.
Proof.
  intros Hm Hf w. destruct (Hm w) as (a & w1 & Hrun & Ha).
  destruct (Hf a Ha w1) as (b & w2 & Hrun' & Hb).
  exists b, w2. unfold bind. by rewrite Hrun.
Qed.

Lemma succeeds_call {A} e (o : outcome A) a (Q : A -> Prop) :
  o = Returned a -> Q a -> succeeds (call e o) Q.
Proof. intros -> Ha w. by eexists a, _. Qed.

Lemma succeeds_getCredentials env : succeeds (getCredentials env) (fun _ => True).
Proof. intros w. by eexists _, _. Qed.

Variable env : Env.

Lemma checkExisting_succeeds filename : succeeds (checkExisting env filename) (fun _ => True).
Proof.
  intros w. unfold checkExisting.
  destruct (AZURE_OPENAI_API_ENDPOINT env) as [openAi|]; [|by eexists _, _].
  destruct (AZURE_COSMOSDB_NOSQL_ENDPOINT env) as [cosmosEndpoint|]; [|by eexists _, _].
  destruct (Js.is_empty openAi || Js.is_empty cosmosEndpoint); [by eexists _, _|].
  unfold catch, bind, call, getCredentials, emits, ret, throw. cbn.
  destruct (existingDocuments env filename); by eexists _, _.
Qed.

Lemma deleteExisting_succeeds c filename shouldUpdate :
  succeeds (deleteExisting env c filename shouldUpdate) (fun _ => True).
Proof.
  intros w. unfold deleteExisting.
  destruct (AZURE_COSMOSDB_NOSQL_ENDPOINT env) as [cosmosEndpoint|]; [|by eexists _, _].
  destruct (shouldUpdate && negb (Js.is_empty cosmosEndpoint)); [|by eexists _, _].
  unfold catch, bind, call, emits, ret, throw. cbn.
  destruct (documentsToDelete env filename) as [resources|]; [|by eexists _, _].
  cbn. destruct (found resources); by eexists _, _.
Qed.

End DocumentsProgress.

(** X23. When the file is loaded, split, stored and, where configured,
    uploaded without an error, the answer is the success message, whatever
    the two queries answer or throw. *)
Theorem upload_succeeds_whatever_the_queries_answer
    (env : Env) (credentials0 : option Security.Credential)
    (parsedForm : Form) (file : FormValue)
    (first : RawDocument) (rest documents : list RawDocument) :
  formData env = Returned parsedForm ->
  Documents.get "file" parsedForm = Some file ->
  loader_load env file = Returned (first :: rest) ->
  splitDocuments env
    ({| pageContent := pageContent first; source := name file;
        label_metadata := Some (labelId parsedForm, labelName parsedForm) |} :: rest)
  = Returned documents ->
  (if configured (AZURE_OPENAI_API_ENDPOINT env)
   then cosmos_fromDocuments env documents = Returned ()
   else match fs_stat env with
        | Returned true =>
            faiss_load env = Returned ()
            /\ faiss_addDocuments env documents = Returned ()
        | _ => faiss_fromDocuments env documents = Returned ()
        end
        /\ faiss_save env = Returned ()) ->
  (configured (AZURE_STORAGE_URL env) && configured (AZURE_STORAGE_CONTAINER_NAME env) = true ->
   file_arrayBuffer env = Returned () /\ blob_upload env = Returned ()) ->
  (postDocuments env credentials0).1.1 = ok "PDF file uploaded successfully.".
Proof.
  intros Hform Hfile Hload Hsplit Hstore Hupload.
  assert (Hrun : succeeds (processFile env parsedForm file)
                   (fun response => response = ok "PDF file uploaded successfully.")).
  { unfold processFile.
    eapply succeeds_bind; [apply checkExisting_succeeds|]. intros shouldUpdate _.
    eapply succeeds_bind.
    { unfold loadDocuments.
      eapply succeeds_bind; [by apply (succeeds_call _ _ (first :: rest) (fun r => r = first :: rest))|].
      intros ? ->. by apply (succeeds_call _ _ documents (fun d => d = documents)). }
    intros ? ->.
    eapply succeeds_bind.
    { unfold storeDocuments.
      destruct (configured (AZURE_OPENAI_API_ENDPOINT env)).
      - eapply succeeds_bind; [apply succeeds_getCredentials|]. intros c _.
        eapply succeeds_bind; [apply succeeds_getCredentials|]. intros _ _.
        eapply succeeds_bind; [apply deleteExisting_succeeds|]. intros _ _.
        by apply (succeeds_call _ _ () (fun _ => True)).
      - destruct Hstore as [Hfaiss Hsave].
        eapply (succeeds_bind _ _ (fun folderExists =>
                  (folderExists = true /\ fs_stat env = Returned true)
                  \/ (folderExists = false /\ fs_stat env <> Returned true))).
        { intros w. unfold checkFolderExists, catch, call, bind, emits, ret, throw.
          destruct (fs_stat env) as [[|]|message]; cbn.
          - eexists _, _. split; [done|]. by left.
          - eexists _, _. split; [done|]. by right.
          - eexists _, _. split; [done|]. by right. }
        intros folderExists [[-> Hstat] | [-> Hstat]].
        + rewrite Hstat in Hfaiss. destruct Hfaiss as [Hfaissload Hadd].
          eapply succeeds_bind; [by apply (succeeds_call _ _ () (fun _ => True))|].
          intros _ _.
          eapply succeeds_bind; [by apply (succeeds_call _ _ () (fun _ => True))|].
          intros _ _. by apply (succeeds_call _ _ () (fun _ => True)).
        + assert (Hfrom : faiss_fromDocuments env documents = Returned ()).
          { by destruct (fs_stat env) as [[|]|]. }
          eapply succeeds_bind; [by apply (succeeds_call _ _ () (fun _ => True))|].
          intros _ _. by apply (succeeds_call _ _ () (fun _ => True)). }
    intros _ _.
    eapply (succeeds_bind _ _ (fun _ => True)); [|intros _ _; by apply succeeds_ret].
    unfold uploadFile, configured in *.
    destruct (AZURE_STORAGE_URL env) as [storageUrl|]; [|by apply succeeds_ret].
    destruct (AZURE_STORAGE_CONTAINER_NAME env) as [containerName|];
      [|by apply succeeds_ret].
    cbn [falsy] in Hupload.
    destruct (Js.is_empty storageUrl); cbn [orb negb andb] in *; [by apply succeeds_ret|].
    destruct (Js.is_empty containerName); cbn [negb] in *; [by apply succeeds_ret|].
    destruct Hupload as [Hbuffer Hblob]; [done|].
    eapply succeeds_bind; [apply succeeds_getCredentials|]. intros c _.
    eapply succeeds_bind; [by apply (succeeds_call _ _ () (fun _ => True))|].
    intros _ _. by apply (succeeds_call _ _ () (fun _ => True)). }
  unfold postDocuments, postDocuments_try, bind.
  rewrite Hform. cbn [ret]. rewrite (get_has _ _ _ Hfile). cbn [negb]. rewrite Hfile.
  destruct (Hrun {| credentials := credentials0; trace := [] |}) as (r & w & -> & ->).
  done.
Qed.

(** ** An upload *)

Definition upload_form : Documents.Form :=
  [("file", File "support.pdf"); ("labelId", Text "42")].

Definition scanned_page : RawDocument :=
  {| pageContent := "Rentals are booked from the search page.";
     Documents.source := None; label_metadata := None |}.

Definition labelled_page : RawDocument :=
  {| pageContent := "Rentals are booked from the search page.";
     Documents.source := Some "support.pdf"; label_metadata := Some ("42", "General") |}.

(** Everything is configured and answers; the file is in the store
    already, in two chunks. *)
Definition upload_env : Documents.Env :=
  {| AZURE_STORAGE_URL := Some "https://files.example";
     AZURE_STORAGE_CONTAINER_NAME := Some "files";
     AZURE_OPENAI_API_ENDPOINT := Some "https://openai.example";
     AZURE_COSMOSDB_NOSQL_ENDPOINT := Some "https://cosmos.example";
     AZURE_ENV_TYPE := Some "dev";
     AZURE_TENANT_ID := Some "tenant";
     formData := Returned upload_form;
     existingDocuments := fun _ => Returned (Some ["chunk-1"; "chunk-2"]);
     documentsToDelete := fun _ => Returned (Some ["chunk-1"; "chunk-2"]);
     loader_load := fun _ => Returned [scanned_page];
     splitDocuments := fun rawDocument => Returned rawDocument;
     cosmos_fromDocuments := fun _ => Returned ();
     fs_stat := Returned true;
     faiss_load := Returned ();
     faiss_addDocuments := fun _ => Returned ();
     faiss_fromDocuments := fun _ => Returned ();
     faiss_save := Returned ();
     file_arrayBuffer := Returned ();
     blob_upload := Returned () |}.

Lemma stored_chunks_witness :
  labelId upload_form = "42" /\ labelName upload_form = "General".
Proof.
  destruct (stored_chunks_carry_the_label upload_env None upload_form (File "support.pdf")
              eq_refl eq_refl) as (_ & _ & _ & Hid & _ & _ & Hname).
  split.
  - apply (Hid "42"); [reflexivity | discriminate].
  - apply Hname. left. reflexivity.
Defined.

Lemma deletions_witness :
  exists ids,
    documentsToDelete upload_env (Some "support.pdf") = Returned (Some ids)
    /\ "chunk-2" ∈ ids.
Proof.
  pose proof (deletions_follow_a_found_document upload_env None upload_form
                (File "support.pdf") eq_refl eq_refl) as Hcalls.
  rewrite Forall_forall in Hcalls.
  destruct (Hcalls (EvDelete "chunk-2")) as (_ & Hids & _); [|exact Hids].
  vm_compute. repeat first [apply list_elem_of_here | apply list_elem_of_further].
Defined.

Lemma upload_witness :
  Forall (fun e =>
            match e with
            | EvUpload _ _ filename _ => filename = Some "support.pdf"
            | _ => True
            end) (postDocuments upload_env None).2.
Proof.
  destruct (upload_follows_the_store upload_env None upload_form (File "support.pdf")
              eq_refl eq_refl) as [Hcalls _].
  eapply Forall_impl; [exact Hcalls|]. intros e He.
  destruct e; try exact I. destruct He as (_ & _ & _ & Hname & _). exact Hname.
Defined.

Lemma upload_succeeds_witness :
  (postDocuments upload_env None).1.1 = ok "PDF file uploaded successfully.".
Proof.
  apply (upload_succeeds_whatever_the_queries_answer upload_env None upload_form
           (File "support.pdf") scanned_page [] [labelled_page]).
  - reflexivity.
  - reflexivity.
  - reflexivity.
  - reflexivity.
  - reflexivity.
  - intros _. split; reflexivity.
Defined.

End Uploads.

(** * The tokens, the citations and the sign-in *)

(** X24. When the tokens are acquired, the Authorization header was
    "Bearer " and some text; the text up to its first space went to the
    on-behalf-of exchange with the configured scopes, and the tenant of
    that answer named the authority of the client-credential exchange;
    the two access tokens are not empty, the user name is the one of the
    on-behalf-of answer (the empty string when it has none), the two
    exchanges are the calls made, in this order, and the maps are as they
    were.  With no scope configured, the scope is the default one. *)
Theorem acquired_tokens_come_from_the_exchanges
    (env : Env) (request : Request) (w w' : World) (tokens : PurviewTokens) :
  getPurviewAccessTokens env request w = (Val tokens, w') ->
  (exists text response appResult,
     authorization request = Some ("Bearer " +:+ text)
     /\ acquireTokenOnBehalfOf env (upto " "%char text) (downstreamApiScope env)
        = Returned (Some response)
     /\ acquireTokenByClientCredential env [graph_default_scope]
          ("https://login.microsoftonline.com/" +:+ tenantId response)
        = Returned (Some appResult)
     /\ tokens = {| oboToken := accessToken response;
                    userName := default EmptyString (username response);
                    appToken := accessToken appResult |}
     /\ accessToken response ≠ EmptyString
     /\ accessToken appResult ≠ EmptyString
     /\ trace w'
        = trace w
          ++ [EvAcquireTokenOnBehalfOf (upto " "%char text) (downstreamApiScope env);
              EvAcquireTokenByClientCredential [graph_default_scope]
                ("https://login.microsoftonline.com/" +:+ tenantId response)])
  /\ store w' = store w
  /\ (falsy (AZURE_AD_GRAPH_SCOPE env) = true ->
      downstreamApiScope env = ["https://graph.microsoft.com/.default"]).
Proof.
  intros Hrun.
  assert (Hscope : falsy (AZURE_AD_GRAPH_SCOPE env) = true ->
                   downstreamApiScope env = ["https://graph.microsoft.com/.default"]).
  { unfold downstreamApiScope. intros Hfalsy.
    destruct (AZURE_AD_GRAPH_SCOPE env) as [scope|]; [|reflexivity].
    cbn in Hfalsy. cbn [str_or]. rewrite Hfalsy. reflexivity. }
  unfold getPurviewAccessTokens in Hrun.
  destruct (bad_authorization (authorization request)) eqn:Hbad; [discriminate|].
  destruct (authorization request) as [header|] eqn:Hheader; [|discriminate].
  unfold bad_authorization, Js.startsWith in Hbad. apply negb_false_iff in Hbad.
  destruct (prefix_inv _ _ Hbad) as [text ->].
  assert (Htoken : bearer_token request = upto " "%char text).
  { destruct request as [body auth user]. cbn [authorization] in Hheader. subst auth.
    apply bearer_token_upto. }
  rewrite Htoken in Hrun.
  unfold getAccessTokensthroughMSAL in Hrun. rewrite bind_unfold in Hrun.
  destruct (acquireTokenOnBehalfOf env _ _) as [[response|]|message] eqn:Hobo;
    simpl in Hrun; try discriminate.
  destruct (Js.is_empty (accessToken response)) eqn:Hempty; [discriminate|].
  rewrite bind_unfold in Hrun. unfold tenant_authority in Hrun.
  destruct (acquireTokenByClientCredential env _ _) as [[appResult|]|message] eqn:Happ;
    simpl in Hrun; try discriminate.
  destruct (Js.is_empty (accessToken appResult)) eqn:Hempty'; [discriminate|].
  injection Hrun as <- <-. cbn [trace store].
  split; [|done].
  exists text, response, appResult.
  repeat split; try done; try by apply is_empty_false_inv.
  by rewrite <- app_assoc.
Qed.

Lemma acquired_tokens_witness :
  scenario_tokens
  = {| oboToken := "obo-token"; userName := "alice@contoso.com"; appToken := "app-token" |}
  /\ store world_with_tokens = empty_store.
Proof.
  destruct (acquired_tokens_come_from_the_exchanges plain_env signed_request
              {| store := empty_store; trace := [] |} world_with_tokens scenario_tokens)
    as (_ & Hstore & _).
  - vm_compute. reflexivity.
  - split; [reflexivity | exact Hstore].
Defined.

Lemma scan_without_first c pat rep s :
  has c s = false ->
  forall before, Replace.scan (String c pat) rep before 0 s = s.
Proof.
  induction s as [|d s IH]; intros Hs before; [reflexivity|].
  cbn [has] in Hs. apply orb_false_elim in Hs as [Hd Hs].
  cbn [Replace.scan String.prefix].
  destruct (ascii_dec c d) as [->|_]; [by rewrite Ascii.eqb_refl in Hd|].
  by rewrite IH.
Qed.

(** X25. An answer that holds no opening bracket is left as it is by the
    loop, whatever the retrieved documents are. *)
Theorem answer_without_bracket_is_unchanged
    (retrievedDocuments : list Document) (llmResponse : string) :
  has "["%char llmResponse = false ->
  rewriteCitations retrievedDocuments llmResponse = llmResponse.
Proof.
  intros Hno. unfold rewriteCitations.
  induction retrievedDocuments as [|document retrievedDocuments IH]; [reflexivity|].
  cbn [fold_left]. unfold rewrite_step at 2, Replace.replaceAll, bare_reference.
  rewrite append_cons, append_nil_l, scan_without_first by done. exact IH.
Qed.

Lemma answer_without_bracket_witness :
  rewriteCitations [support_document; bracketed_label_document] "Use the search page."
  = "Use the search page.".
Proof.
  apply (answer_without_bracket_is_unchanged [support_document; bracketed_label_document]
           "Use the search page.").
  reflexivity.
Defined.

(** ** [acquireToken] of [auth.ts] *)

Module Auth.

(** The result of an awaited call of MSAL; a failure is an
    [InteractionRequiredAuthError] or another error. *)
Inductive attempt (A : Type) : Type :=
| Done (a : A)
| Failed (interactionRequired : bool) (message : string).
Arguments Done {A} a.
Arguments Failed {A} interactionRequired message.

(** [msalInstance]: an account is given by its [homeAccountId]. *)
Record Msal : Type := {
  initialize : attempt unit;
  getAllAccounts : list string;
  acquireTokenSilent : string -> list (option string) -> attempt string;
  acquireTokenPopup : list string -> attempt string;
}.

Inductive Call : Type :=
| CallSilent (account : string) (scopes : list (option string))
| CallPopup (scopes : list string).

Definition popup_scope : string :=
  "api://72e39dca-38f3-4814-b93b-a7ed0a5a4b74/access_as_user".

(** The [catch] block. *)
Definition on_error (msal : Msal) (calls : list Call) (interactionRequired : bool)
    (message : string) : list Call * attempt (option string) :=
  if interactionRequired then
    (calls ++ [CallPopup [popup_scope]],
     match acquireTokenPopup msal [popup_scope] with
     | Done accessToken => Done (Some accessToken)
     | Failed i m => Failed i m
     end)
  else (calls, Failed interactionRequired message).

(** [acquireToken()]: the token calls made, and the token, [null], or the
    error thrown.  [scope] is [import.meta.env.VITE_BACKEND_API_SCOPE]. *)
Definition acquireToken (msal : Msal) (scope : option string)
  : list Call * attempt (option string) :=
  match initialize msal with
  | Failed i m => on_error msal [] i m
  | Done _ =>
      match getAllAccounts msal with
      | [] => ([], Done None)
      | account :: _ =>
          match acquireTokenSilent msal account [scope] with
          | Done accessToken => ([CallSilent account [scope]], Done (Some accessToken))
          | Failed i m => on_error msal [CallSilent account [scope]] i m
          end
      end
  end.

(** What [await acquireToken()] gives its caller. *)
Definition awaited {A} (a : attempt A) : outcome A :=
  match a with
  | Done x => Returned x
  | Failed _ m => Threw m
  end.

End Auth.

(** X26. The web app gets no token, and makes no token call, exactly
    when MSAL is initialised and no account is cached; a chat request is
    then not sent.  The silent request names the first cached account and
    the configured scope; the popup is opened only after an
    interaction-required error, always for the one scope written in the
    code, and at most once, after the silent request if there is one. *)
Theorem web_app_token_acquisition (msal : Auth.Msal) (scope : option string) :
  let calls := (Auth.acquireToken msal scope).1 in
  let token := (Auth.acquireToken msal scope).2 in
  (token = Auth.Done None
   <-> (exists u, Auth.initialize msal = Auth.Done u) /\ Auth.getAllAccounts msal = [])
  /\ (token = Auth.Done None ->
      calls = []
      /\ forall url,
           Js.includes url "api/chats/stream" = true ->
           Webapp.fetch (Auth.awaited token) (Webapp.Url url)
           = (true, Threw "Failed to acquire token. User may not be signed in."))
  /\ (exists silent popup,
        calls = silent ++ popup
        /\ (silent = []
            \/ exists account rest,
                 Auth.getAllAccounts msal = account :: rest
                 /\ silent = [Auth.CallSilent account [scope]])
        /\ (popup = []
            \/ (popup = [Auth.CallPopup [Auth.popup_scope]]
                /\ ((exists message, Auth.initialize msal = Auth.Failed true message)
                    \/ (exists account rest message,
                          Auth.getAllAccounts msal = account :: rest
                          /\ Auth.acquireTokenSilent msal account [scope]
                             = Auth.Failed true message))))).
Proof.
  unfold Auth.acquireToken, Auth.on_error.
  destruct (Auth.initialize msal) as [u|[|] message] eqn:Hinit.
  - destruct (Auth.getAllAccounts msal) as [|account rest] eqn:Haccounts.
    + cbn. split; [split; [eauto | done]|]. split.
      * intros _. split; [done|]. intros url Hurl. unfold Webapp.fetch. by rewrite Hurl.
      * exists [], []. split; [done|]. split; by left.
    + destruct (Auth.acquireTokenSilent msal account [scope]) as [accessToken|[|] m] eqn:Hsilent;
        cbn.
      * split; [split; [discriminate | by intros [_ ?]]|]. split; [discriminate|].
        exists [Auth.CallSilent account [scope]], []. split; [done|].
        split; [right; by exists account, rest | by left].
      * split.
        { split; [|by intros [_ ?]].
          destruct (Auth.acquireTokenPopup msal _); discriminate. }
        split; [destruct (Auth.acquireTokenPopup msal _); discriminate|].
        exists [Auth.CallSilent account [scope]], [Auth.CallPopup [Auth.popup_scope]].
        split; [done|]. split; [right; by exists account, rest|].
        right. split; [done|]. right. by exists account, rest, m.
      * split; [split; [discriminate | by intros [_ ?]]|]. split; [discriminate|].
        exists [Auth.CallSilent account [scope]], []. split; [done|].
        split; [right; by exists account, rest | by left].
  - cbn. split.
    { split; [destruct (Auth.acquireTokenPopup msal _); discriminate|].
      by intros [[u Hu] _]. }
    split; [destruct (Auth.acquireTokenPopup msal _); discriminate|].
    exists [], [Auth.CallPopup [Auth.popup_scope]]. split; [done|]. split; [by left|].
    right. split; [done|]. left. by exists message.
  - cbn. split; [split; [discriminate | by intros [[u Hu] _]]|]. split; [discriminate|].
    exists [], []. split; [done|]. split; by left.
Qed.

(** * The order of the calls *)

(** The place of a call in a request. *)
Definition phase (e : Event) : nat :=
  match e with
  | EvAcquireTokenOnBehalfOf _ _ => 0
  | EvAcquireTokenByClientCredential _ _ => 1
  | EvProtectionScope _ => 2
  | EvProcessContent _ _ body =>
      if String.eqb (pc_activity body) "uploadText" then 3 else 7
  | EvRetrieve _ => 4
  | EvGetLabelInfo _ _ _ => 5
  | EvAnswerModel _ _ _ => 6
  | EvGetHistoryContext => 8
  | EvTitleModel _ => 9
  | EvSetHistoryTitle _ => 10
  | EvEnqueueOffline _ => 11
  end.

(** [e'] may come after [e]: it has a later place, or both are label
    lookups. *)
Definition follows (e e' : Event) : Prop :=
  phase e < phase e' \/ (phase e = 5 /\ phase e' = 5).

(** Every call may come after all the calls before it. *)
Inductive ordered : list Event -> Prop :=
| ordered_nil : ordered []
| ordered_cons e es : Forall (follows e) es -> ordered es -> ordered (e :: es).

Lemma ordered_app es1 es2 :
  ordered es1 -> ordered es2 ->
  Forall (fun e1 => Forall (follows e1) es2) es1 ->
  ordered (es1 ++ es2).
Proof.
  induction 1 as [|e es1 He Hes1 IH]; intros Hes2 Hcross; [done|].
  inversion Hcross as [|? ? Hhead Htail]; subst.
  cbn [app]. constructor; [by apply Forall_app | by apply IH].
Qed.

Lemma ordered_labels appToken userName retrievedDocuments :
  ordered (label_calls appToken userName retrievedDocuments)
  /\ Forall (fun e => phase e = 5) (label_calls appToken userName retrievedDocuments).
Proof.
  unfold label_calls.
  induction retrievedDocuments as [|document rest [IH1 IH2]]; cbn [omap list_omap];
    [split; constructor|].
  destruct (falsy (label_id document)); [done|].
  split; [|by constructor].
  constructor; [|done]. eapply Forall_impl; [exact IH2|].
  intros e He. by right.
Qed.

(** [m] adds calls in order, at places from [lo] to [hi]. *)
Definition staged (lo hi : nat) (w w' : World) : Prop :=
  exists es,
    trace w' = trace w ++ es /\ ordered es /\ Forall (fun e => lo <= phase e <= hi) es.

Lemma staged_quiet {A} lo hi (m : M A) :
  (forall w, trace (m w).2 = trace w) -> respects (staged lo hi) m.
Proof.
  intros Hm w. exists []. rewrite Hm, app_nil_r. by repeat constructor.
Qed.

Lemma staged_bind {A B} lo mid hi (m : M A) (f : A -> M B) :
  lo <= S mid -> mid <= hi ->
  respects (staged lo mid) m -> (forall a, respects (staged (S mid) hi) (f a)) ->
  respects (staged lo hi) (m ≫= f).
Proof.
  intros Hlo Hhi Hm Hf w. rewrite bind_unfold.
  destruct (Hm w) as (es1 & Htrace1 & Hord1 & Hes1).
  assert (Hstop : staged lo hi w (m w).2).
  { exists es1. split; [done|]. split; [done|].
    eapply Forall_impl; [exact Hes1|]. intros e He. cbn in He. lia. }
  destruct (m w) as [[a|e|r] w1]; cbn [snd] in *; [|done..].
  destruct (Hf a w1) as (es2 & Htrace2 & Hord2 & Hes2).
  exists (es1 ++ es2). rewrite Htrace2, Htrace1, app_assoc. split; [done|]. split.
  - apply ordered_app; [done..|].
    eapply Forall_impl; [exact Hes1|]. intros e1 He1.
    eapply Forall_impl; [exact Hes2|]. intros e2 He2. left. cbn in *. lia.
  - apply Forall_app. split.
    + eapply Forall_impl; [exact Hes1|]. intros e He. cbn in He. lia.
    + eapply Forall_impl; [exact Hes2|]. intros e He. cbn in He. lia.
Qed.

Lemma staged_call {A} n e (o : outcome A) :
  phase e = n -> respects (staged n n) (call e o).
Proof.
  intros He w. exists [e].
  split; [by destruct o|]. split; [by repeat constructor|].
  constructor; [lia | constructor].
Qed.

(** A step that makes no call, then [f]. *)
Lemma staged_after {A B} lo hi (m : M A) (f : A -> M B) :
  (forall w, trace (m w).2 = trace w) ->
  (forall a, respects (staged lo hi) (f a)) ->
  respects (staged lo hi) (m ≫= f).
Proof.
  intros Hm Hf w. rewrite bind_unfold. specialize (Hm w).
  destruct (m w) as [[a|e|r] w1]; cbn [snd] in *.
  - destruct (Hf a w1) as (es & Htrace & Hes). exists es. by rewrite <- Hm.
  - exists []. rewrite Hm, app_nil_r. by repeat constructor.
  - exists []. rewrite Hm, app_nil_r. by repeat constructor.
Qed.

Section CallOrder.

Variable env : Env.

Lemma getPurviewAccessTokens_staged request :
  respects (staged 0 1) (getPurviewAccessTokens env request).
Proof.
  unfold getPurviewAccessTokens.
  destruct (bad_authorization _); [by apply staged_quiet|].
  unfold getAccessTokensthroughMSAL.
  apply (staged_bind 0 0 1); [lia | lia | by apply staged_call|].
  intros [response|]; [|by apply staged_quiet].
  destruct (Js.is_empty _); [by apply staged_quiet|].
  apply (staged_bind 1 1 1); [lia | lia | by apply staged_call|].
  intros [appResult|]; [|by apply staged_quiet].
  destruct (Js.is_empty _); by apply staged_quiet.
Qed.

Lemma resolveProtectionScope_staged user accessToken :
  respects (staged 2 2) (resolveProtectionScope env user accessToken).
Proof.
  unfold resolveProtectionScope.
  apply staged_after; [done|]. intros storedSessionData.
  destruct (has_etag storedSessionData); [by apply staged_quiet|].
  apply (staged_bind 2 2 2); [lia | lia | by apply staged_call|].
  intros [apiResponse returnedEtag].
  apply staged_after; [by intros w; destruct (processProtectionScopeApiResponse _ _)|].
  intros modes. apply staged_after; [done|]. intros _. by apply staged_quiet.
Qed.

Lemma promptGating_staged question session accessToken etagIdentifier up n :
  respects (staged 3 3) (promptGating env question session accessToken etagIdentifier up n).
Proof.
  unfold promptGating. destruct (is_str up _); [|by apply staged_quiet].
  apply (staged_bind 3 3 3); [lia | lia | by apply staged_call|].
  intros response.
  apply staged_after; [by intros w; destruct (JSON_parse env response)|].
  intros json. destruct (is_str _ _); [|by apply staged_quiet].
  apply staged_after; [done|]. intros _. by apply staged_quiet.
Qed.

Lemma answering_staged question session tokens :
  respects (staged 4 6) (answering env question session tokens).
Proof.
  unfold answering.
  apply staged_after; [by intros w; destruct (initialise_backend env)|]. intros _.
  apply (staged_bind 4 4 6); [lia | lia | by apply staged_call|].
  intros retrievedDocuments.
  apply (staged_bind 5 5 6); [lia | lia | |].
  - intros w. exists (label_calls (appToken tokens) (userName tokens) retrievedDocuments).
    destruct (ordered_labels (appToken tokens) (userName tokens) retrievedDocuments)
      as [Hord Hphase].
    split; [done|]. split; [done|].
    eapply Forall_impl; [exact Hphase|]. intros e He. cbn in He. lia.
  - intros _.
    apply (staged_bind 6 6 6); [lia | lia | by apply staged_call|].
    intros responseStream. by apply staged_quiet.
Qed.

Lemma responseGating_staged processed session accessToken etagIdentifier down n :
  respects (staged 7 7)
    (responseGating env processed session accessToken etagIdentifier down n).
Proof.
  unfold responseGating. destruct (is_str down _); [|by apply staged_quiet].
  apply (staged_bind 7 7 7); [lia | lia | by apply staged_call|].
  intros response.
  apply staged_after; [by intros w; destruct (JSON_parse env response)|].
  intros json. destruct (is_str _ _); [|by apply staged_quiet].
  apply staged_after; [done|]. intros _. by apply staged_quiet.
Qed.

Lemma titling_staged question : respects (staged 8 10) (titling env question).
Proof.
  unfold titling.
  apply (staged_bind 8 8 10); [lia | lia | by apply staged_call|].
  intros title. destruct (falsy title); [|by apply staged_quiet].
  apply (staged_bind 9 9 10); [lia | lia | by apply staged_call|].
  intros response w. exists [EvSetHistoryTitle response].
  split; [done|]. split; [by repeat constructor|].
  constructor; [cbn; lia | constructor].
Qed.

Lemma reporting_staged question processed session accessToken etagIdentifier up down n :
  respects (staged 11 11)
    (reporting env question processed session accessToken etagIdentifier up down n).
Proof.
  unfold reporting. destruct (_ || _); [|by apply staged_quiet].
  apply (staged_bind 11 11 11); [lia | lia | by apply staged_call|].
  intros _. by apply staged_quiet.
Qed.

Lemma serving_staged request question user session :
  respects (staged 0 11) (serving env request question user session).
Proof.
  unfold serving, pipeline.
  apply staged_after; [done|]. intros n.
  apply (staged_bind 0 1 11); [lia | lia | apply getPurviewAccessTokens_staged|].
  intros tokens.
  apply (staged_bind 2 2 11); [lia | lia | apply resolveProtectionScope_staged|].
  intros [[etagIdentifier up] down]. cbv zeta.
  apply (staged_bind 3 3 11); [lia | lia | apply promptGating_staged|]. intros n1.
  apply (staged_bind 4 6 11); [lia | lia | apply answering_staged|]. intros processed.
  apply (staged_bind 7 7 11); [lia | lia | apply responseGating_staged|]. intros n2.
  apply (staged_bind 8 10 11); [lia | lia | apply titling_staged|]. intros [].
  apply (staged_bind 11 11 11); [lia | lia | apply reporting_staged|]. intros [].
  by apply staged_quiet.
Qed.

End CallOrder.

(** X27. In every request the calls are made in the order of the
    stages: the on-behalf-of exchange, the client-credential exchange, the
    scope lookup, the evaluation of the prompt, the retrieval, the label
    lookups, the answer model, the evaluation of the answer, the read of
    the chat history, the title model, the setting of the title, the
    offline task; none but the label lookups is made twice. *)
Theorem calls_follow_the_stages (env : Env) (request : Request) (st : Store) :
  ordered (postChats env request st).2.
Proof.
  unfold postChats.
  destruct (postChats_try_cases env request {| store := st; trace := [] |})
    as [[message H]|[H|(question & user & session & Hacc)]].
  - rewrite H. constructor.
  - rewrite H. constructor.
  - rewrite (accepted_request_serving _ _ _ _ _ _ Hacc).
    destruct (serving_staged env request question user session
                {| store := st; trace := [] |}) as (es & Htrace & Hord & _).
    cbn [trace app] in Htrace.
    destruct (serving env request question user session _) as [[r|message|r] w];
      cbn [fst snd] in *; by rewrite Htrace.
Qed.

(** X28. Over any requests served one after the other, from any maps,
    the sequence number stored for a session never decreases. *)
Theorem sequence_numbers_never_decrease
    (requests : list (Env * Request)) (st : Store) (session : string) :
  stored_sequence st session <= stored_sequence (serve requests st).1 session.
Proof. apply stored_sequence_never_decreases. Qed.
